(** * hub.js: content enrichment, search filter compiler, event filters, UI schema

    A shallow embedding of the source files of the repository:

    - [packages/content/src/content.ts]            (module [Content])
    - [packages/common/src/search/_internal/hubSearchItems.ts]
                                                   (module [HubSearchItems])
    - the second [getQueryString]                  (module [Urls])
    - the events [processFilters]                  (module [Events])
    - the followers-group [buildUiSchema]          (module [UiSchema])

    JavaScript objects that the code treats as dynamic bags of properties
    (content records, UI-schema documents) are JSON trees; objects whose
    shape is fixed by a TypeScript interface are records and tagged unions.
    Promises are outcomes ([Resolved] / [Rejected]). What a file imports from
    files that are not modelled here, or from the platform, is a class of
    services; the definitions and the theorems hold for every instance.

    The definitions come first: the models of the source files, sample
    environments, and the descriptions the theorems compare the models with.
    The theorems follow, module by module. *)

From Stdlib Require Import ZArith String Ascii List Bool DecimalString Lia.
From stdpp Require Import gmap strings list fin_maps.
Import ListNotations.
Open Scope string_scope.
Open Scope list_scope.
Set Warnings "-register-all".
#[local] Arguments String.append !s1 s2 : simpl nomatch.

(* ===================================================================== *)
(** * JavaScript values *)
(* ===================================================================== *)

Module Js.

(** A JSON-shaped JavaScript value. [JDate arg] is the object built by
    [new Date(arg)], [JFun name] the built-in function of that name.
    Numbers are the integers the code handles. *)
Inductive JsVal : Type :=
| JUndefined
| JNull
| JBool (b : bool)
| JNum (n : Z)
| JStr (s : string)
| JDate (arg : JsVal)
| JArr (items : list JsVal)
| JObj (fields : list (string * JsVal))
| JFun (name : string).

(** The own properties of an object, in insertion order. *)
Abbreviation Obj := (list (string * JsVal)).

(** [!!v], the truthiness of a value. *)
Definition truthy (v : JsVal) : bool :=
  match v with
  | JUndefined | JNull => false
  | JBool b => b
  | JNum n => negb (n =? 0)%Z
  | JStr s => negb (s =? "")
  | JDate _ | JArr _ | JObj _ | JFun _ => true
  end.

(** [o[k]] on the property list of an object: its own properties. The
    names that the code writes in this position are not names of members
    that an object inherits. *)
Fixpoint lookup_field (k : string) (o : Obj) : JsVal :=
  match o with
  | [] => JUndefined
  | (k', v) :: rest => if (k =? k') then v else lookup_field k rest
  end.

(** [o[k] = v]: overwrite in place, or append a new property. *)
Fixpoint set_field (k : string) (v : JsVal) (o : Obj) : Obj :=
  match o with
  | [] => [(k, v)]
  | (k', v') :: rest =>
      if (k =? k') then (k, v) :: rest else (k', v') :: set_field k v rest
  end.

(** [v[k]] for a property name [k] that no primitive, array, date or
    function carries of its own: only plain objects answer. *)
Definition get (v : JsVal) (k : string) : JsVal :=
  match v with
  | JObj o => lookup_field k o
  | _ => JUndefined
  end.

(** The members of [Object.prototype], which every object literal
    inherits: the constructor [Object] and the built-in methods. *)
Definition Object_prototype_members : Obj :=
  [("constructor", JFun "Object");
   ("__defineGetter__", JFun "__defineGetter__");
   ("__defineSetter__", JFun "__defineSetter__");
   ("hasOwnProperty", JFun "hasOwnProperty");
   ("__lookupGetter__", JFun "__lookupGetter__");
   ("__lookupSetter__", JFun "__lookupSetter__");
   ("isPrototypeOf", JFun "isPrototypeOf");
   ("propertyIsEnumerable", JFun "propertyIsEnumerable");
   ("toString", JFun "toString");
   ("valueOf", JFun "valueOf");
   ("toLocaleString", JFun "toLocaleString")].

(** What an object literal answers at a key that is not one of its own:
    the inherited member of that name, [Object.prototype] itself at
    "__proto__", and [undefined] at any other key. *)
Definition Object_prototype (k : string) : JsVal :=
  if (k =? "__proto__") then JObj Object_prototype_members
  else lookup_field k Object_prototype_members.

(** Whether [k] is an own property of the object. *)
Definition hasOwnProperty (o : Obj) (k : string) : bool :=
  existsb (fun entry => (k =? fst entry)) o.

(** [literal[k]] on an object literal, for any key: an own property, or
    what the object inherits. *)
Definition lookup_literal (literal : Obj) (k : string) : JsVal :=
  if hasOwnProperty literal k then lookup_field k literal
  else Object_prototype k.

(** [Array.prototype.join] on an array of strings. *)
Definition join (sep : string) (l : list string) : string :=
  String.concat sep l.

(** [String.prototype.split] on a one-character separator. *)
Fixpoint split (sep : ascii) (s : string) : list string :=
  match s with
  | EmptyString => [""]
  | String c rest =>
      if Ascii.eqb c sep then "" :: split sep rest
      else match split sep rest with
           | [] => [String c ""]
           | h :: t => String c h :: t
           end
  end.

(** ToString of an integer number. *)
Definition num_to_string (n : Z) : string :=
  NilZero.string_of_int (Z.to_int n).

(** ** The store of objects

    Objects have identity: a variable holds a reference, and an assignment
    to a property is seen through every reference to the same object. The
    store maps references to the property lists of the objects that were
    created so far. *)

Abbreviation loc := nat (only parsing).
Abbreviation Store := (list (list (string * JsVal))).

Definition deref (s : Store) (l : loc) : Obj := default [] (s !! l).

(** [ref.k = v] *)
Definition write (l : loc) (k : string) (v : JsVal) (s : Store) : Store :=
  alter (set_field k v) l s.

(** A new object gets the next free reference. *)
Definition alloc (o : Obj) (s : Store) : loc * Store :=
  (List.length s, s ++ [o]).

(** Outcome of a promise. *)
Inductive Result (E A : Type) : Type :=
| Resolved (a : A)
| Rejected (e : E).
Arguments Resolved {E A} a.
Arguments Rejected {E A} e.

End Js.

Import Js.

(* ===================================================================== *)
(** * packages/content/src/content.ts *)
(* ===================================================================== *)

Module Content.

(** ** Helpers imported from hub-common *)

(** Modelled from the spec: [getProp] of hub-common is not among the source
    files. It walks a dotted path ("metadata-path lookup") and answers
    [undefined] as soon as a step of the path is missing. *)
Definition getProp (obj : JsVal) (path : string) : JsVal :=
  fold_left (fun prev curr => if truthy prev then get prev curr else JUndefined)
            (split "." path) obj.

(** Modelled from the spec: [cloneObject] of hub-common is not among the
    source files. It builds a copy of its argument ("a clone that is
    returned"): a new object with the same, deeply copied, properties. *)
Definition cloneObject (content : loc) (s : Store) : loc * Store :=
  alloc (deref s content) s.

(** Modelled from the spec: [includes] of hub-common is not among the source
    files; it tells whether a value is an element of an array of strings. *)
Definition includes (array : list string) (value : JsVal) : bool :=
  existsb (fun a => match value with JStr s => (a =? s) | _ => false end) array.

(** ** Predicates on a content record *)

Definition shouldFetchData (hubType : JsVal) : bool :=
  includes ["template"; "solution"] hubType.

(** [content.typeKeywords || []]; the interface declares an optional array
    of strings. *)
Definition typeKeywords_or_empty (content : Obj) : list JsVal :=
  match lookup_field "typeKeywords" content with
  | JArr l => l
  | _ => []
  end.

(** [hubTypeKeywords.indexOf(typeKeyword) > -1], with strict equality *)
Definition indexOf_found (hubTypeKeywords : list string) (typeKeyword : JsVal) : bool :=
  match typeKeyword with
  | JStr s => existsb (fun k => (k =? s)) hubTypeKeywords
  | _ => false
  end.

Definition isHubCreatedContent (content : Obj) : bool :=
  let hubTypeKeywords := ["Enterprise Sites"; "ArcGIS Hub"] in
  let contentTypeKeywords := typeKeywords_or_empty content in
  match lookup_field "type" content with
  | JStr t => (t =? "Web Map") && existsb (indexOf_found hubTypeKeywords) contentTypeKeywords
  | _ => false
  end.

Definition shouldFetchOrgId (content : Obj) : bool :=
  negb (truthy (lookup_field "orgId" content)) && isHubCreatedContent content.

(** ** Metadata paths *)

(** [keyof IMetadataPaths] *)
Inductive MetadataKey : Type :=
| updateFrequency | reviseDate | pubDate | createDate.

Module UpdateFrequency.
Definition Continual := "continual".
Definition Daily := "daily".
Definition Weekly := "weekly".
Definition Fortnightly := "fortnightly".
Definition Monthly := "monthly".
Definition Quarterly := "quarterly".
Definition Biannually := "biannually".
Definition Annually := "annually".
Definition AsNeeded := "as-needed".
Definition Irregular := "irregular".
Definition NotPlanned := "not-planned".
Definition Unknown := "unknown".
Definition Semimonthly := "semimonthly".
End UpdateFrequency.

Definition getMetadataPath (identifier : MetadataKey) : string :=
  match identifier with
  | updateFrequency =>
      "metadata.metadata.dataIdInfo.resMaint.maintFreq.MaintFreqCd.@_value"
  | reviseDate => "metadata.metadata.dataIdInfo.idCitation.date.reviseDate"
  | pubDate => "metadata.metadata.dataIdInfo.idCitation.date.pubDate"
  | createDate => "metadata.metadata.dataIdInfo.idCitation.date.createDate"
  end.

(** [path && getProp(content, path)] *)
Definition getValueFromMetadata (content : Obj) (identifier : MetadataKey) : JsVal :=
  let path := getMetadataPath identifier in
  if truthy (JStr path) then getProp (JObj content) path else JStr path.

(** The object literal [updateFrequencyMap]. *)
Definition updateFrequencyMap : Obj :=
  [("001", JStr UpdateFrequency.Continual);
   ("002", JStr UpdateFrequency.Daily);
   ("003", JStr UpdateFrequency.Weekly);
   ("004", JStr UpdateFrequency.Fortnightly);
   ("005", JStr UpdateFrequency.Monthly);
   ("006", JStr UpdateFrequency.Quarterly);
   ("007", JStr UpdateFrequency.Biannually);
   ("008", JStr UpdateFrequency.Annually);
   ("009", JStr UpdateFrequency.AsNeeded);
   ("010", JStr UpdateFrequency.Irregular);
   ("011", JStr UpdateFrequency.NotPlanned);
   ("012", JStr UpdateFrequency.Unknown);
   ("013", JStr UpdateFrequency.Semimonthly)].

(** The property key a value turns into when it indexes an object. [None]
    is a text that holds the rendering of a Date or the source text of a
    function, which is never one of the three-digit codes nor the name of
    an inherited member. *)
Fixpoint to_key (v : JsVal) : option string :=
  match v with
  | JUndefined => Some "undefined"
  | JNull => Some "null"
  | JBool b => Some (if b then "true" else "false")
  | JNum n => Some (num_to_string n)
  | JStr s => Some s
  | JDate _ => None
  | JArr items =>
      let fix elems (l : list JsVal) : option (list string) :=
        match l with
        | [] => Some []
        | x :: r =>
            match (match x with
                   | JUndefined | JNull => Some ""
                   | _ => to_key x
                   end), elems r with
            | Some a, Some b => Some (a :: b)
            | _, _ => None
            end
        end in
      match elems items with
      | Some l => Some (join "," l)
      | None => None
      end
  | JObj _ => Some "[object Object]"
  | JFun _ => None
  end.

(** [updateFrequencyMap[updatedFrequencyValue]] *)
Definition updateFrequencyMap_at (v : JsVal) : JsVal :=
  match to_key v with
  | Some code => lookup_literal updateFrequencyMap code
  | None => JUndefined
  end.

(** ** _enrichDates *)

Definition _enrichDates (content : loc) (s0 : Store) : loc * Store :=
  let '(newContent, s) := cloneObject content s0 in
  (* updateFrequency *)
  let updatedFrequencyValue :=
    getValueFromMetadata (deref s newContent) updateFrequency in
  let s :=
    if truthy updatedFrequencyValue
    then write newContent "updateFrequency"
               (updateFrequencyMap_at updatedFrequencyValue) s
    else s in
  (* updatedDate & updatedDateSource *)
  let reviseDate_ := getValueFromMetadata (deref s newContent) reviseDate in
  let lastEditDate :=
    getProp (JObj (deref s newContent)) "layer.editingInfo.lastEditDate" in
  let s :=
    if truthy reviseDate_ then
      let s := write newContent "updatedDate" (JDate reviseDate_) s in
      write newContent "updatedDateSource" (JStr (getMetadataPath reviseDate)) s
    else if truthy lastEditDate then
      let s := write newContent "updatedDate" (JDate lastEditDate) s in
      write newContent "updatedDateSource" (JStr "layer.editingInfo.lastEditDate") s
    else s in
  (* publishedDate & publishedDateSource *)
  let pubDate_ := getValueFromMetadata (deref s newContent) pubDate in
  let createDate_ := getValueFromMetadata (deref s newContent) createDate in
  let s :=
    if truthy pubDate_ then
      let s := write newContent "publishedDate" (JDate pubDate_) s in
      write newContent "publishedDateSource" (JStr (getMetadataPath pubDate)) s
    else if truthy createDate_ then
      let s := write newContent "publishedDate" (JDate createDate_) s in
      write newContent "publishedDateSource" (JStr (getMetadataPath createDate)) s
    else s in
  (newContent, s).

(** ** Promises, and the calls that leave this file

    A computation runs in a world: the store of objects and the trace of
    the calls made to other files and services. A service is given the store
    only; the trace is written by [call]. *)

Inductive Event : Type :=
| EGetContentFromHub (identifier : string) (options : JsVal)
| EGetContentFromPortal (identifier : string) (options : JsVal)
| EFetchContentProperties (data orgId : bool) (content : loc) (options : JsVal).

Record World : Type := mkWorld { store : Store; trace : list Event }.

(** A rejection carries any value as its reason. *)
Definition Ext (A : Type) : Type := Store -> Result JsVal A * Store.
Definition M (A : Type) : Type := World -> Result JsVal A * World.

(** [Promise.resolve(a)] *)
Definition resolve {A} (a : A) : M A := fun w => (Resolved a, w).

(** [Promise.reject(e)] *)
Definition reject {A} (e : JsVal) : M A := fun w => (Rejected e, w).

(** [p.then(f)] *)
Definition bind {A B} (p : M A) (f : A -> M B) : M B :=
  fun w =>
    match p w with
    | (Resolved a, w') => f a w'
    | (Rejected e, w') => (Rejected e, w')
    end.

(** [p.catch(h)] *)
Definition catch {A} (p : M A) (h : JsVal -> M A) : M A :=
  fun w =>
    match p w with
    | (Resolved a, w') => (Resolved a, w')
    | (Rejected e, w') => h e w'
    end.

(** A call to a service: recorded, then run on the store. *)
Definition call {A} (ev : Event) (f : Ext A) : M A :=
  fun w =>
    let '(r, s') := f (store w) in
    (r, mkWorld s' (trace w ++ [ev])).

(** A synchronous step on the store. *)
Definition sync {A} (f : Store -> A * Store) : M A :=
  fun w => let '(a, s') := f (store w) in (Resolved a, mkWorld s' (trace w)).

(** A request for one more property of a content record. *)
Definition PropertyRequest : Type := loc -> JsVal -> Ext JsVal.

(** [IContentPropertyRequests]: the requests, by property name. *)
Record IContentPropertyRequests : Type := mkRequests {
  req_data : option PropertyRequest;
  req_orgId : option PropertyRequest
}.

(** [Object.keys(propertiesToFetch).length] *)
Definition keys_length (p : IContentPropertyRequests) : nat :=
  match req_data p with Some _ => 1 | None => 0 end
  + match req_orgId p with Some _ => 1 | None => 0 end.

(** What [content.ts] imports from [./hub], [./portal], [./slugs] and the
    REST packages. [options] is the optional [IGetContentOptions] object. *)
Class ContentServices : Type := {
  getContentFromHub : string -> JsVal -> Ext loc;
  getContentFromPortal : string -> JsVal -> Ext loc;
  _fetchContentProperties : IContentPropertyRequests -> loc -> JsVal -> Ext loc;
  (** [getItemData(id, requestOptions)] *)
  getItemData : JsVal -> JsVal -> Ext JsVal;
  (** [getUser({ username, ...requestOptions })] *)
  getUser : JsVal -> JsVal -> Ext JsVal;
  isSlug : string -> bool;
  (** [parseDatasetId(identifier).itemId] *)
  parseDatasetId_itemId : string -> string
}.

Section WithServices.
Context `{ContentServices}.

Definition getOwnerOrgId : PropertyRequest :=
  fun content requestOptions s =>
    match getUser (lookup_field "owner" (deref s content)) requestOptions s with
    | (Resolved user, s') => (Resolved (get user "orgId"), s')
    | (Rejected e, s') => (Rejected e, s')
    end.

Definition getContentData : PropertyRequest :=
  fun content requestOptions s =>
    getItemData (lookup_field "id" (deref s content)) requestOptions s.

(** The object [propertiesToFetch] that [enrichContent] fills in. *)
Definition propertiesToFetch (content : Obj) : IContentPropertyRequests :=
  let p := mkRequests None None in
  let p :=
    if negb (truthy (lookup_field "data" content))
       && shouldFetchData (lookup_field "hubType" content)
    then mkRequests (Some getContentData) (req_orgId p)
    else p in
  let p :=
    if shouldFetchOrgId content
    then mkRequests (req_data p) (Some getOwnerOrgId)
    else p in
  p.

Definition enrichContent (content : loc) (options : JsVal) : M loc :=
  fun w =>
    let propertiesToFetch := propertiesToFetch (deref (store w) content) in
    let fetchContentPropertiesPromise : M loc :=
      if (keys_length propertiesToFetch =? 0)%nat
      then resolve content
      else call (EFetchContentProperties
                   (bool_decide (is_Some (req_data propertiesToFetch)))
                   (bool_decide (is_Some (req_orgId propertiesToFetch)))
                   content options)
                (_fetchContentProperties propertiesToFetch content options) in
    bind fetchContentPropertiesPromise (fun c => sync (_enrichDates c)) w.

(** [options && options.isPortal] as a condition *)
Definition options_isPortal (options : JsVal) : bool :=
  truthy (if truthy options then get options "isPortal" else options).

Definition getContentById (identifier : string) (options : JsVal) : M loc :=
  let getContentPromise : M loc :=
    if options_isPortal options then
      let itemId := parseDatasetId_itemId identifier in
      call (EGetContentFromPortal itemId options)
           (getContentFromPortal itemId options)
    else
      catch (call (EGetContentFromHub identifier options)
                  (getContentFromHub identifier options))
            (fun e =>
               (* dataset is not in index (i.e. might be a private item) *)
               if negb (isSlug identifier) then
                 (* try fetching from portal instead *)
                 call (EGetContentFromPortal identifier options)
                      (getContentFromPortal identifier options)
               else reject e) in
  bind getContentPromise (fun content => enrichContent content options).

End WithServices.

(** The call [ev] was made after the trace [before] and is recorded in the
    trace [after]. *)
Definition attempted_since (before after : list Event) (ev : Event) : Prop :=
  exists events, after = before ++ events /\ In ev events.

End Content.

(* ===================================================================== *)
(** * Search predicates (types/IHubCatalog) *)
(* ===================================================================== *)

Module Catalog.

(** A primitive value. *)
Inductive Prim : Type :=
| Undefined
| Null
| Bool (b : bool)
| Num (n : Z)
| Str (s : string).

(** [string | string[]], the type of a property of the match options. *)
Inductive MatchValue : Type :=
| One (value : string)
| Many (values : list string).

(** [IMatchOptions], declared in [../types]: each of the three properties
    is optional, and is a string or an array of strings. *)
Record IMatchOptions : Type := mkMatch {
  mo_any : option MatchValue;
  mo_all : option MatchValue;
  mo_not : option MatchValue
}.

(** The value of one field of a predicate: a primitive, an array of
    strings, match options, or a date range [{ from, to }]. *)
Inductive PredValue : Type :=
| P (p : Prim)
| PArr (values : list string)
| PMatch (m : IMatchOptions)
| PRange (from to : Prim).

(** [IPredicate]: its entries, in the order of [Object.entries]. *)
Abbreviation IPredicate := (list (string * PredValue)).

Inductive Operation : Type := AND | OR.

Record IFilter : Type := mkFilter {
  operation : option Operation;
  predicates : list IPredicate
}.

Record IQuery : Type := mkQuery { filters : list IFilter }.

Definition prim_truthy (p : Prim) : bool :=
  match p with
  | Undefined | Null => false
  | Bool b => b
  | Num n => negb (n =? 0)%Z
  | Str s => negb (s =? "")
  end.

(** [!!value] *)
Definition pred_truthy (v : PredValue) : bool :=
  match v with
  | P p => prim_truthy p
  | PArr _ | PMatch _ | PRange _ _ => true
  end.

(** ToString of a primitive, as a template literal applies it. *)
Definition prim_to_string (p : Prim) : string :=
  match p with
  | Undefined => "undefined"
  | Null => "null"
  | Bool b => if b then "true" else "false"
  | Num n => num_to_string n
  | Str s => s
  end.

Definition operation_to_string (op : Operation) : string :=
  match op with AND => "AND" | OR => "OR" end.

End Catalog.

Import Catalog.

(* ===================================================================== *)
(** * packages/common/src/search/_internal/hubSearchItems.ts *)
(* ===================================================================== *)

Module HubSearchItems.

(** [IQueryParams]: the entries of the object, in order. *)
Abbreviation IQueryParams := (list (string * Prim)).

Inductive SearchError : Type :=
| RemoteServerError (message url : string) (status : Z)
| Failure (reason : string)
| TypeError.

(** The outcome of a function that may throw: the value returned, or the
    error thrown. *)
Abbreviation Outcome := (Result SearchError).

(** [array.map(f)] with an [f] that may throw: the first error ends it. *)
Fixpoint try_map {A B} (f : A -> Outcome B) (l : list A) : Outcome (list B) :=
  match l with
  | [] => Resolved []
  | a :: rest =>
      match f a with
      | Rejected e => Rejected e
      | Resolved b =>
          match try_map f rest with
          | Rejected e => Rejected e
          | Resolved bs => Resolved (b :: bs)
          end
      end
  end.

Abbreviation Promise := (Result SearchError).

Record IOgcItem : Type := mkOgcItem { ogc_id : string; properties : JsVal }.

Record IOgcLink : Type := mkOgcLink { rel : string; href : string }.

Record IOgcResponse : Type := mkOgcResponse {
  features : list IOgcItem;
  numberMatched : Z;
  links : list IOgcLink
}.

(** What [fetch] resolves to. *)
Record Response : Type := mkResponse {
  ok : bool;
  status : Z;
  statusText : string;
  json : Promise IOgcResponse
}.

Definition Fetch : Type := string -> Promise Response.

Record IHubRequestOptions : Type := mkRequestOptions {
  ro_fetch : option Fetch;
  (** [authentication.token], [Undefined] without a session *)
  ro_token : Prim
}.

Record IApiDefinition : Type := mkApi { url : string }.

Record IHubSearchOptions : Type := mkSearchOptions {
  aggFields : option (list string);
  num : Prim;
  start : Prim;
  api : IApiDefinition;
  requestOptions : option IHubRequestOptions
}.

(** The callback [next] of a response, a closure, as the variables it
    captures: the one that returns [null] captures nothing, the one that
    searches again captures the next link, the query and the options.
    [call_next], below, is its body. *)
Inductive NextCallback : Type :=
| NextNull
| NextSearch (nextLink : IOgcLink) (originalQuery : IQuery)
             (originalOptions : IHubSearchOptions).

Record IHubSearchResponse : Type := mkSearchResponse {
  total : Z;
  results : list JsVal;
  hasNext : bool;
  next : NextCallback
}.

(** What the file takes from its environment. *)
Class SearchServices : Type := {
  (** the global [fetch] *)
  fetch : Fetch;
  (** [itemToSearchResult] of [./portalSearchItems] *)
  itemToSearchResult :
    JsVal -> list string -> option IHubRequestOptions -> Promise JsVal;
  (** [+new URL(href).searchParams.get("startindex")], the number that the
      global [URL] reads from a link; [None] when [new URL(href)] throws a
      [TypeError] *)
  url_startindex : string -> option Prim
}.

(** ** Request transformation helpers *)

Definition getQueryString (queryParams : IQueryParams) : string :=
  let result :=
    join "&"
      (map (fun '(key, value) => key +:+ "=" +:+ prim_to_string value)
         (List.filter (fun '(_key, value) => prim_truthy value) queryParams)) in
  (* result && `?${result}` *)
  if (result =? "") then result else "?" +:+ result.

(** [property && format(property)], where [format] calls [join] or [map],
    methods of arrays: a string that is not empty has neither, and the call
    throws a [TypeError]; the empty string is falsy and stays as it is. *)
Definition subsection (property : option MatchValue)
    (format : list string -> string) : Outcome (option string) :=
  match property with
  | None => Resolved None
  | Some (One value) =>
      if (value =? "") then Resolved (Some "") else Rejected TypeError
  | Some (Many values) => Resolved (Some (format values))
  end.

(** The else branch of a section: [value.any], [value.all] and [value.not]
    each give a subsection or nothing; the falsy ones are dropped. *)
Definition subsections (field : string) (any all not : option MatchValue)
  : Outcome string :=
  match subsection any
          (fun any => field +:+ " IN (" +:+ join ", " any +:+ ")") with
  | Rejected e => Rejected e
  | Resolved anys =>
      match subsection all
              (fun all => join " AND " (map (fun v => field +:+ "=" +:+ v) all))
      with
      | Rejected e => Rejected e
      | Resolved alls =>
          match subsection not
                  (fun not => field +:+ " NOT IN (" +:+ join ", " not +:+ ")")
          with
          | Rejected e => Rejected e
          | Resolved nots =>
              Resolved
                (join " AND "
                   (omap id
                      (List.filter
                         (fun subsection =>
                            match subsection with
                            | Some text => negb (text =? "")
                            | None => false
                            end)
                         [anys; alls; nots])))
          end
      end
  end.

(** One section of a formatted predicate, for a truthy [value]. *)
Definition section (field : string) (value : PredValue) : Outcome string :=
  match value with
  | P (Str value) =>
      Resolved (field +:+ "=" +:+ value)
  | PArr value =>
      Resolved (field +:+ " IN (" +:+ join ", " value +:+ ")")
  | PMatch m =>
      subsections field (mo_any m) (mo_all m) (mo_not m)
  | P _ | PRange _ _ =>
      (* no property any, all or not *)
      subsections field None None None
  end.

Definition formatPredicate (predicate : IPredicate) : Outcome string :=
  match
    fold_left
      (fun acc '(field, value) =>
         match acc with
         | Rejected e => Rejected e
         | Resolved acc =>
             match section field value with
             | Rejected e => Rejected e
             | Resolved section => Resolved (acc ++ [section])
             end
         end)
      (* Remove undefined entries *)
      (List.filter (fun '(_field, value) => pred_truthy value) predicate)
      (Resolved [])
  with
  | Rejected e => Rejected e
  | Resolved sections =>
      let formatted := join " AND " sections in
      Resolved ("(" +:+ formatted +:+ ")")
  end.

Definition formatFilterBlock (filter : IFilter) : Outcome string :=
  let operation_ :=
    match operation filter with
    | Some op => operation_to_string op
    | None => "OR"
    end in
  match try_map formatPredicate (predicates filter) with
  | Rejected e => Rejected e
  | Resolved predicates =>
      let formatted := join (" " +:+ operation_ +:+ " ") predicates in
      Resolved ("(" +:+ formatted +:+ ")")
  end.

Definition getFilterQueryParam (query : IQuery) : Outcome string :=
  match try_map formatFilterBlock (filters query) with
  | Rejected e => Rejected e
  | Resolved blocks => Resolved (join " AND " blocks)
  end.

Definition getOgcItemQueryParams (query : IQuery) (options : IHubSearchOptions)
  : Outcome IQueryParams :=
  match getFilterQueryParam query with
  | Rejected e => Rejected e
  | Resolved filter =>
      let token :=
        match requestOptions options with
        | Some ro => ro_token ro
        | None => Undefined
        end in
      let limit := num options in
      let startindex := start options in
      Resolved [("filter", Str filter); ("token", token); ("limit", limit);
                ("startindex", startindex)]
  end.

Section WithServices.
Context `{SearchServices}.

Definition ogcApiRequest (url : string) (queryParams : IQueryParams)
    (options : IHubSearchOptions) : Promise IOgcResponse :=
  (* use fetch override if any *)
  let _fetch :=
    match requestOptions options with
    | Some ro => match ro_fetch ro with Some f => f | None => fetch end
    | None => fetch
    end in
  let withQueryString := url +:+ getQueryString queryParams in
  match _fetch withQueryString with
  | Rejected e => Rejected e
  | Resolved response =>
      if negb (ok response)
      then Rejected (RemoteServerError (statusText response) withQueryString
                       (status response))
      else json response
  end.

(** ** Response transformation helpers *)

Definition ogcItemToSearchResult (ogcItem : IOgcItem) : Promise JsVal :=
  let pseudoItem := properties ogcItem in
  itemToSearchResult pseudoItem [] None.

(** [Promise.all] *)
Fixpoint promise_all {A} (l : list (Promise A)) : Promise (list A) :=
  match l with
  | [] => Resolved []
  | Resolved a :: rest =>
      match promise_all rest with
      | Resolved r => Resolved (a :: r)
      | Rejected e => Rejected e
      end
  | Rejected e :: _ => Rejected e
  end.

Definition getNextOgcCallback (response : IOgcResponse) (originalQuery : IQuery)
    (originalOptions : IHubSearchOptions) : NextCallback :=
  let nextLink := find (fun l => (rel l =? "next")) (links response) in
  match nextLink with
  | Some nextLink => NextSearch nextLink originalQuery originalOptions
  | None => NextNull
  end.

Definition formatOgcSearchResponse (response : IOgcResponse)
    (originalQuery : IQuery) (originalOptions : IHubSearchOptions)
  : Promise IHubSearchResponse :=
  match promise_all (map ogcItemToSearchResult (features response)) with
  | Rejected e => Rejected e
  | Resolved formattedResults =>
      let nextLink := find (fun l => (rel l =? "next")) (links response) in
      let next := getNextOgcCallback response originalQuery originalOptions in
      Resolved (mkSearchResponse (numberMatched response) formattedResults
                  (bool_decide (is_Some nextLink)) next)
  end.

(** ** Root search functions. A promise of a response resolves to a
    response or to [null] ([None]). *)

Definition searchOgcItems (query : IQuery) (options : IHubSearchOptions)
  : Promise (option IHubSearchResponse) :=
  let apiDefinition := api options in
  let url_ := url apiDefinition +:+ "/items" in
  (* an error thrown in an async function rejects its promise *)
  match getOgcItemQueryParams query options with
  | Rejected e => Rejected e
  | Resolved queryParams =>
      match ogcApiRequest url_ queryParams options with
      | Rejected e => Rejected e
      | Resolved rawResponse =>
          match formatOgcSearchResponse rawResponse query options with
          | Rejected e => Rejected e
          | Resolved r => Resolved (Some r)
          end
      end
  end.

(** What a call of [next] does: it returns [null], it throws, or it
    returns the promise of a search. *)
Inductive NextCall : Type :=
| ReturnsNull
| Throws (e : SearchError)
| Returns (promise : Promise (option IHubSearchResponse)).

(** The body of the callback that [getNextOgcCallback] returns. *)
Definition call_next (callback : NextCallback) : NextCall :=
  match callback with
  | NextNull => ReturnsNull
  | NextSearch nextLink originalQuery originalOptions =>
      match url_startindex (href nextLink) with
      | None => Throws TypeError
      | Some start =>
          (* { ...originalOptions, start } *)
          let nextOptions :=
            mkSearchOptions (aggFields originalOptions) (num originalOptions)
              start (api originalOptions) (requestOptions originalOptions) in
          Returns (searchOgcItems originalQuery nextOptions)
      end
  end.

Definition searchOgcAggregations (_query : IQuery) (_options : IHubSearchOptions)
  : Promise (option IHubSearchResponse) :=
  Resolved None.

Definition hubSearchItems (query : IQuery) (options : IHubSearchOptions)
  : Promise (option IHubSearchResponse) :=
  (* options.aggFields?.length *)
  if match aggFields options with
     | Some fields => negb (List.length fields =? 0)%nat
     | None => false
     end
  then searchOgcAggregations query options
  else searchOgcItems query options.

End WithServices.

End HubSearchItems.

(* ===================================================================== *)
(** * The second [getQueryString] (urls) *)
(* ===================================================================== *)

Module Urls.

(** Strings are sequences of UTF-8 bytes. [encodeURIComponent] keeps the
    unreserved characters [A-Z a-z 0-9 - _ . ! ~ * ' ( )] and writes every
    other byte as a percent sign and two upper-case hexadecimal digits. *)
Definition unreserved (c : ascii) : bool :=
  let n := nat_of_ascii c in
  ((48 <=? n) && (n <=? 57))%nat          (* 0-9 *)
  || ((65 <=? n) && (n <=? 90))%nat       (* A-Z *)
  || ((97 <=? n) && (n <=? 122))%nat      (* a-z *)
  || existsb (Ascii.eqb c) (list_ascii_of_string "-_.!~*'()").

Definition hex_digit (n : nat) : ascii :=
  nth n (list_ascii_of_string "0123456789ABCDEF") "0"%char.

Definition percent_encode (c : ascii) : string :=
  let n := nat_of_ascii c in
  String "%" (String (hex_digit (n / 16)) (String (hex_digit (n mod 16)) "")).

Fixpoint encode (s : string) : string :=
  match s with
  | EmptyString => ""
  | String c rest =>
      (if unreserved c then String c "" else percent_encode c) +:+ encode rest
  end.

Definition encodeURIComponent (value : Prim) : string :=
  encode (prim_to_string value).

Definition getQueryString (queryParams : list (string * Prim)) : string :=
  let result :=
    join "&"
      (map (fun '(key, value) => key +:+ "=" +:+ encodeURIComponent value)
         (List.filter (fun '(_key, value) => prim_truthy value) queryParams)) in
  (* result && `?${result}` *)
  if (result =? "") then result else "?" +:+ result.

End Urls.

(* ===================================================================== *)
(** * The events [processFilters] *)
(* ===================================================================== *)

Module Events.

(** [Partial<GetEventsParams>]: the properties that were assigned. *)
Abbreviation GetEventsParams := (gmap string PredValue).

Inductive EventsError : Type :=
| TypeError
| RangeError
| ServiceError (reason : JsVal).

Record IGroup : Type := mkGroup { id : string; group : JsVal }.

(** Modelled from the spec: the constants of the generated [EventStatus]
    enumeration are not among the source files; each is named after its
    value, and the default status is "planned,canceled". *)
Module EventStatus.
Definition PLANNED := "PLANNED".
Definition CANCELED := "CANCELED".
End EventStatus.

(** What [processFilters] takes from other files and from the platform. *)
Class EventsServices : Type := {
  getOptionalPredicateStringsByKey : list IFilter -> string -> option string;
  getPredicateValuesByKey : list IFilter -> string -> list PredValue;
  (** [searchGroups({ q, num, ...requestOptions })], its [results] *)
  searchGroups : string -> nat -> JsVal -> Result JsVal (list IGroup);
  (** [isUpdateGroup(group)]; [None] when the call throws a [TypeError],
      which reading the capabilities of a group that has none does *)
  isUpdateGroup : IGroup -> option bool;
  (** [new Date(value).toISOString()]; [None] when the date is invalid and
      the call throws a [RangeError] *)
  date_toISOString : PredValue -> option string;
  (** [new Date().toISOString()] at the n-th reading of the clock *)
  now_toISOString : nat -> string
}.

(** An asynchronous computation that reads the clock: the state counts the
    readings made so far. *)
Definition Eff (A : Type) : Type := nat -> Result EventsError (A * nat).

#[export] Instance Eff_ret : MRet Eff := fun A a clock => Resolved (a, clock).

#[export] Instance Eff_bind : MBind Eff := fun A B f m clock =>
  match m clock with
  | Resolved (a, clock') => f a clock'
  | Rejected e => Rejected e
  end.

Definition throw {A} (e : EventsError) : Eff A := fun _ => Rejected e.

(** [String.prototype.toLowerCase], on ASCII letters *)
Definition lower (c : ascii) : ascii :=
  let n := nat_of_ascii c in
  if ((65 <=? n) && (n <=? 90))%nat then ascii_of_nat (n + 32) else c.

Fixpoint toLowerCase (s : string) : string :=
  match s with
  | EmptyString => ""
  | String c rest => String (lower c) (toLowerCase rest)
  end.

(** [value.toString()]; [None] is the [TypeError] on [undefined] and [null]. *)
Definition method_toString (value : PredValue) : option string :=
  match value with
  | P Undefined | P Null => None
  | P p => Some (prim_to_string p)
  | PArr values => Some (join "," values)
  | PMatch _ | PRange _ _ => Some "[object Object]"
  end.

(** [values.join(sep)]: [undefined] and [null] give the empty string. *)
Definition join_values (sep : string) (values : list PredValue) : string :=
  join sep (map (fun v => default "" (method_toString v)) values).

(** [range.to] and [range.from]; [None] is the [TypeError] on [undefined]
    and [null]. *)
Definition range_to (range : PredValue) : option Prim :=
  match range with
  | PRange _ to => Some to
  | P Undefined | P Null => None
  | _ => Some Undefined
  end.

Definition range_from (range : PredValue) : option Prim :=
  match range with
  | PRange from _ => Some from
  | P Undefined | P Null => None
  | _ => Some Undefined
  end.

(** [if (value?.length) { processedFilters[field] = value; }] *)
Definition assign_if_length (field : string) (value : option string)
    (processedFilters : GetEventsParams) : GetEventsParams :=
  match value with
  | Some text =>
      if negb (text =? "") then <[field := P (Str text)]> processedFilters
      else processedFilters
  | None => processedFilters
  end.

(** [if (values.length) { processedFilters[field] = values[0]; }] *)
Definition assign_first (field : string) (values : list PredValue)
    (processedFilters : GetEventsParams) : GetEventsParams :=
  match values with
  | value0 :: _ => <[field := value0]> processedFilters
  | [] => processedFilters
  end.

Section WithServices.
Context `{EventsServices}.

(** [processedFilters[field] = new Date(value).toISOString()] *)
Definition assign_date (field : string) (value : PredValue)
    (processedFilters : GetEventsParams) : Eff GetEventsParams :=
  match date_toISOString value with
  | Some iso => mret (<[field := P (Str iso)]> processedFilters)
  | None => throw RangeError
  end.

(** [processedFilters[field] = new Date().toISOString()] *)
Definition assign_now (field : string) (processedFilters : GetEventsParams)
  : Eff GetEventsParams :=
  fun clock =>
    Resolved (<[field := P (Str (now_toISOString clock))]> processedFilters,
              S clock).

(** The block for a date range and its two individual filters. *)
Definition assign_range (filters : list IFilter)
    (rangeKey beforeKey afterKey beforeField afterField : string)
    (processedFilters : GetEventsParams) : Eff GetEventsParams :=
  let dateRange := getPredicateValuesByKey filters rangeKey in
  match dateRange with
  | dateRange0 :: _ =>
      processedFilters ←
        match range_to dateRange0 with
        | None => throw TypeError
        | Some to =>
            if prim_truthy to
            then assign_date beforeField (P to) processedFilters
            else mret processedFilters
        end;
      match range_from dateRange0 with
      | None => throw TypeError
      | Some from =>
          if prim_truthy from
          then assign_date afterField (P from) processedFilters
          else mret processedFilters
      end
  | [] =>
      (* individual Before & After filters *)
      let dateBefore := getPredicateValuesByKey filters beforeKey in
      processedFilters ←
        match dateBefore with
        | dateBefore0 :: _ => assign_date beforeField dateBefore0 processedFilters
        | [] => mret processedFilters
        end;
      let dateAfter := getPredicateValuesByKey filters afterKey in
      match dateAfter with
      | dateAfter0 :: _ => assign_date afterField dateAfter0 processedFilters
      | [] => mret processedFilters
      end
  end.

(** The body of [occurrence.forEach]. *)
Definition occurrence_case (processedFilters : GetEventsParams) (o : PredValue)
  : Eff GetEventsParams :=
  match o with
  | P (Str o) =>
      if o =? "upcoming" then
        assign_now "startDateTimeAfter" processedFilters
      else if o =? "past" then
        assign_now "endDateTimeBefore" processedFilters
      else if o =? "inProgress" then
        processedFilters ← assign_now "startDateTimeBefore" processedFilters;
        assign_now "endDateTimeAfter" processedFilters
      else mret processedFilters
  | _ => mret processedFilters
  end.

Fixpoint forEach_occurrence (occurrence : list PredValue)
    (processedFilters : GetEventsParams) : Eff GetEventsParams :=
  match occurrence with
  | [] => mret processedFilters
  | o :: rest =>
      processedFilters ← occurrence_case processedFilters o;
      forEach_occurrence rest processedFilters
  end.

(** The filters on groups the events are not shared with. *)
Definition assign_notGroups (filters : list IFilter) (requestOptions : JsVal)
    (processedFilters : GetEventsParams) : Eff GetEventsParams :=
  let notGroupIds := getPredicateValuesByKey filters "notGroup" in
  match notGroupIds with
  | _ :: _ =>
      match searchGroups ("id:(" +:+ join_values " OR " notGroupIds +:+ ")")
                         (List.length notGroupIds) requestOptions with
      | Rejected reason => throw (ServiceError reason)
      | Resolved results =>
          match
            fold_left
              (fun acc group =>
                 match acc with
                 | None => None
                 | Some (notReadGroupIds, notEditGroupIds) =>
                     match isUpdateGroup group with
                     | None => None
                     | Some true =>
                         Some (notReadGroupIds, notEditGroupIds ++ [id group])
                     | Some false =>
                         Some (notReadGroupIds ++ [id group], notEditGroupIds)
                     end
                 end)
              results (Some ([], []))
          with
          | None => throw TypeError
          | Some (notReadGroupIds, notEditGroupIds) =>
              let processedFilters :=
                match notReadGroupIds with
                | _ :: _ =>
                    <["withoutReadGroups" := P (Str (join "," notReadGroupIds))]>
                      processedFilters
                | [] => processedFilters
                end in
              let processedFilters :=
                match notEditGroupIds with
                | _ :: _ =>
                    <["withoutEditGroups" := P (Str (join "," notEditGroupIds))]>
                      processedFilters
                | [] => processedFilters
                end in
              mret processedFilters
          end
      end
  | [] =>
      (* individual notReadGroupId & notEditGroupId filters *)
      let notReadGroupIds :=
        getOptionalPredicateStringsByKey filters "notReadGroupId" in
      let processedFilters :=
        assign_if_length "withoutReadGroups" notReadGroupIds processedFilters in
      let notEditGroupIds :=
        getOptionalPredicateStringsByKey filters "notEditGroupId" in
      let processedFilters :=
        assign_if_length "withoutEditGroups" notEditGroupIds processedFilters in
      mret processedFilters
  end.

Definition processFilters (filters : list IFilter) (requestOptions : JsVal)
  : Eff GetEventsParams :=
  let processedFilters : GetEventsParams := ∅ in
  let access := getOptionalPredicateStringsByKey filters "access" in
  let processedFilters := assign_if_length "access" access processedFilters in
  let canEdit := getPredicateValuesByKey filters "canEdit" in
  processedFilters ←
    match canEdit with
    | canEdit0 :: _ =>
        match method_toString canEdit0 with
        | Some text => mret (<["canEdit" := P (Str text)]> processedFilters)
        | None => throw TypeError
        end
    | [] => mret processedFilters
    end;
  let entityIds := getOptionalPredicateStringsByKey filters "entityId" in
  let processedFilters := assign_if_length "entityIds" entityIds processedFilters in
  let entityTypes := getOptionalPredicateStringsByKey filters "entityType" in
  let processedFilters :=
    assign_if_length "entityTypes" entityTypes processedFilters in
  let eventIds := getOptionalPredicateStringsByKey filters "id" in
  let processedFilters := assign_if_length "eventIds" eventIds processedFilters in
  let term := getPredicateValuesByKey filters "term" in
  let processedFilters := assign_first "title" term processedFilters in
  let orgId := getPredicateValuesByKey filters "orgId" in
  let processedFilters := assign_first "orgId" orgId processedFilters in
  let categories := getOptionalPredicateStringsByKey filters "categories" in
  let processedFilters :=
    assign_if_length "categories" categories processedFilters in
  let tags := getOptionalPredicateStringsByKey filters "tags" in
  let processedFilters := assign_if_length "tags" tags processedFilters in
  let groupIds := getOptionalPredicateStringsByKey filters "group" in
  (* if a group was provided, we prioritize that over individual readGroupId
     or editGroupId filters to prevent collisions *)
  let processedFilters :=
    match groupIds with
    | Some (String _ _ as groupIds) =>
        <["sharedToGroups" := P (Str groupIds)]> processedFilters
    | _ =>
        let readGroupIds :=
          getOptionalPredicateStringsByKey filters "readGroupId" in
        let processedFilters :=
          assign_if_length "readGroups" readGroupIds processedFilters in
        let editGroupIds :=
          getOptionalPredicateStringsByKey filters "editGroupId" in
        assign_if_length "editGroups" editGroupIds processedFilters
    end in
  processedFilters ← assign_notGroups filters requestOptions processedFilters;
  let attendanceType :=
    getOptionalPredicateStringsByKey filters "attendanceType" in
  let processedFilters :=
    assign_if_length "attendanceTypes" attendanceType processedFilters in
  let createdByIds := getOptionalPredicateStringsByKey filters "owner" in
  let processedFilters :=
    assign_if_length "createdByIds" createdByIds processedFilters in
  let status := getOptionalPredicateStringsByKey filters "status" in
  let processedFilters :=
    <["status" :=
        P (Str match status with
               | Some (String _ _ as status) => status
               | _ =>
                   join ","
                     (map toLowerCase [EventStatus.PLANNED; EventStatus.CANCELED])
               end)]> processedFilters in
  (* if a startDateRange was provided, we prioritize that over individual
     startDateBefore or startDateAfter filters to prevent collisions *)
  processedFilters ←
    assign_range filters "startDateRange" "startDateBefore" "startDateAfter"
      "startDateTimeBefore" "startDateTimeAfter" processedFilters;
  (* if a endDateRange was provided, we prioritize that over individual
     endDateBefore or endDateAfter filters to prevent collisions *)
  processedFilters ←
    assign_range filters "endDateRange" "endDateBefore" "endDateAfter"
      "endDateTimeBefore" "endDateTimeAfter" processedFilters;
  (* If there's an occurrence filter, we need to adjust the
     startDateTimeBefore, startDateTimeAfter depending on the occurrence. *)
  let occurrence := getPredicateValuesByKey filters "occurrence" in
  forEach_occurrence occurrence processedFilters.

(** ** The predicates an output property is computed from *)

(** A predicate key, read through one of the two helpers. *)
Inductive Source : Type :=
| Strings (key : string)
| Values (key : string).

Definition field_sources : list (string * list Source) :=
  [("access", [Strings "access"]);
   ("canEdit", [Values "canEdit"]);
   ("entityIds", [Strings "entityId"]);
   ("entityTypes", [Strings "entityType"]);
   ("eventIds", [Strings "id"]);
   ("title", [Values "term"]);
   ("orgId", [Values "orgId"]);
   ("categories", [Strings "categories"]);
   ("tags", [Strings "tags"]);
   ("sharedToGroups", [Strings "group"]);
   ("readGroups", [Strings "readGroupId"]);
   ("editGroups", [Strings "editGroupId"]);
   ("withoutReadGroups", [Values "notGroup"; Strings "notReadGroupId"]);
   ("withoutEditGroups", [Values "notGroup"; Strings "notEditGroupId"]);
   ("attendanceTypes", [Strings "attendanceType"]);
   ("createdByIds", [Strings "owner"]);
   ("startDateTimeBefore",
    [Values "startDateRange"; Values "startDateBefore"; Values "occurrence"]);
   ("startDateTimeAfter",
    [Values "startDateRange"; Values "startDateAfter"; Values "occurrence"]);
   ("endDateTimeBefore",
    [Values "endDateRange"; Values "endDateBefore"; Values "occurrence"]);
   ("endDateTimeAfter",
    [Values "endDateRange"; Values "endDateAfter"; Values "occurrence"])].

Fixpoint sources_of (table : list (string * list Source)) (field : string)
  : list Source :=
  match table with
  | [] => []
  | (f, sources) :: rest =>
      if (field =? f) then sources else sources_of rest field
  end.

(** A predicate with that key is present in the filters. *)
Definition present (filters : list IFilter) (source : Source) : Prop :=
  match source with
  | Strings key =>
      exists text,
        getOptionalPredicateStringsByKey filters key = Some text /\ text <> ""
  | Values key => getPredicateValuesByKey filters key <> []
  end.

(** One of the predicates the property [field] is computed from is present. *)
Definition justified (filters : list IFilter) (field : string) : Prop :=
  Exists (present filters) (sources_of field_sources field).

(** The value of a date property taken from [value]: not set when [value]
    is falsy. *)
Definition date_property (value : Prim) : option PredValue :=
  if prim_truthy value
  then match date_toISOString (P value) with
       | Some iso => Some (P (Str iso))
       | None => None
       end
  else None.

(** Two lists of filters that the helpers tell apart at most under the keys
    in [keys]. *)
Definition same_except (keys : list string) (filters filters' : list IFilter)
  : Prop :=
  forall key, ~ In key keys ->
    getPredicateValuesByKey filters' key = getPredicateValuesByKey filters key
    /\ getOptionalPredicateStringsByKey filters' key
       = getOptionalPredicateStringsByKey filters key.

(** The properties of the dates, which only the last part of
    [processFilters] assigns. *)
Definition date_fields : list string :=
  ["startDateTimeBefore"; "startDateTimeAfter"; "endDateTimeBefore";
   "endDateTimeAfter"].

(** A property of the first part: justified, and neither status nor a date. *)
Definition plain (filters : list IFilter) (field : string) : Prop :=
  justified filters field /\ ~ In field ("status" :: date_fields).

End WithServices.

(** An assignment that happens only when there is a value. *)
Definition assign_optional (field : string) (value : option PredValue)
    (processedFilters : GetEventsParams) : GetEventsParams :=
  match value with
  | Some v => <[field := v]> processedFilters
  | None => processedFilters
  end.

(** The properties that one occurrence assigns. *)
Definition touched (o : PredValue) : list string :=
  match o with
  | P (Str o) =>
      if o =? "upcoming" then ["startDateTimeAfter"]
      else if o =? "past" then ["endDateTimeBefore"]
      else if o =? "inProgress" then ["startDateTimeBefore"; "endDateTimeAfter"]
      else []
  | _ => []
  end.

(** [processedFilters'] differs from [processedFilters] at most at the
    properties in [J]. *)
Definition writes (J : string -> Prop)
    (processedFilters processedFilters' : GetEventsParams) : Prop :=
  forall field,
    processedFilters' !! field = processedFilters !! field \/ J field.

End Events.

(* ===================================================================== *)
(** * The followers-group [buildUiSchema] *)
(* ===================================================================== *)

Module UiSchema.

(** The two members of the enumeration [UiSchemaRuleEffects], declared in
    [core/schemas/types], that the schema uses. *)
Class UiSchemaRuleEffects : Type := {
  DISABLE : JsVal;
  HIDE : JsVal
}.

Section WithRuleEffects.
Context `{UiSchemaRuleEffects}.

(** [options] and [context] are references to the caller's objects; the
    promise resolves to a document made of new objects. *)
Definition buildUiSchema (i18nScope : string) (options context : loc)
    (s : Store) : Result JsVal JsVal * Store :=
  let entity := deref s options in
  (Resolved
     (JObj [
        ("type", JStr "Layout");
        ("elements", JArr [
           JObj [
             ("type", JStr "Section");
             ("options", JObj [("section", JStr "stepper"); ("scale", JStr "l")]);
             ("elements", JArr [
                JObj [
                  ("type", JStr "Section");
                  ("labelKey", JStr (i18nScope +:+ ".sections.details.label"));
                  ("options", JObj [("section", JStr "step")]);
                  ("elements", JArr [
                     JObj [
                       ("labelKey", JStr (i18nScope +:+ ".fields.name.label"));
                       ("scope", JStr "/properties/name");
                       ("type", JStr "Control");
                       ("options", JObj [
                          ("messages", JArr [
                             JObj [
                               ("type", JStr "ERROR");
                               ("keyword", JStr "required");
                               ("icon", JBool true);
                               ("labelKey",
                                JStr (i18nScope +:+ ".fields.name.requiredError"))
                             ];
                             JObj [
                               ("type", JStr "ERROR");
                               ("keyword", JStr "maxLength");
                               ("icon", JBool true);
                               ("labelKey",
                                JStr (i18nScope +:+ ".fields.name.maxLengthError"))
                             ]
                          ])
                       ])
                     ];
                     JObj [
                       ("labelKey", JStr (i18nScope +:+ ".fields.summary.label"));
                       ("scope", JStr "/properties/summary");
                       ("type", JStr "Control");
                       ("options", JObj [
                          ("control", JStr "hub-field-input-input");
                          ("type", JStr "textarea");
                          ("rows", JNum 4);
                          ("messages", JArr [
                             JObj [
                               ("type", JStr "ERROR");
                               ("keyword", JStr "maxLength");
                               ("icon", JBool true);
                               ("labelKey",
                                JStr (i18nScope
                                        +:+ ".fields.summary.maxLengthError"))
                             ]
                          ])
                       ])
                     ]
                  ])
                ];
                JObj [
                  ("type", JStr "Section");
                  ("labelKey",
                   JStr (i18nScope +:+ ".sections.membershipAccess.label"));
                  ("options", JObj [("section", JStr "step")]);
                  ("rule", JObj [
                     ("effect", DISABLE);
                     ("condition", JObj [
                        ("scope", JStr "/properties/name");
                        ("schema", JObj [("const", JStr "")])
                     ])
                  ]);
                  ("elements", JArr [
                     JObj [
                       ("scope", JStr "/properties/isSharedUpdate");
                       ("type", JStr "Control");
                       ("rule", JObj [
                          ("effect", HIDE);
                          ("condition", JObj [
                             ("scope", JStr "/properties/isSharedUpdate");
                             ("schema", JObj [("const", JBool false)])
                          ])
                       ])
                     ];
                     JObj [
                       ("labelKey",
                        JStr (i18nScope +:+ ".fields.membershipAccess.label"));
                       ("scope", JStr "/properties/membershipAccess");
                       ("type", JStr "Control");
                       ("options", JObj [
                          ("control", JStr "hub-field-input-radio");
                          ("labels", JArr [
                             JStr ("{{" +:+ i18nScope
                                   +:+ ".fields.membershipAccess.org.description:translate}}");
                             JStr ("{{" +:+ i18nScope
                                   +:+ ".fields.membershipAccess.collab.description:translate}}");
                             JStr ("{{" +:+ i18nScope
                                   +:+ ".fields.membershipAccess.createFollowers.any:translate}}")
                          ]);
                          ("disabled", JArr [
                             JBool false; JBool false;
                             lookup_field "isSharedUpdate" entity
                          ])
                       ])
                     ];
                     JObj [
                       ("labelKey",
                        JStr (i18nScope +:+ ".fields.contributeContent.label"));
                       ("scope", JStr "/properties/isViewOnly");
                       ("type", JStr "Control");
                       ("options", JObj [
                          ("control", JStr "hub-field-input-radio");
                          ("labels", JArr [
                             JStr ("{{" +:+ i18nScope
                                   +:+ ".fields.contributeContent.members.description:translate}}");
                             JStr ("{{" +:+ i18nScope
                                   +:+ ".fields.contributeContent.createFollowers.admins:translate}}")
                          ])
                       ])
                     ]
                  ])
                ]
             ])
           ]
        ])
     ]),
   s).

End WithRuleEffects.

End UiSchema.

(* ===================================================================== *)
(** * Sample environments and inputs *)
(* ===================================================================== *)

Module Samples.

Import HubSearchItems.

(** A server that answers every request with one page of two items. *)
Definition sample_response : IOgcResponse :=
  mkOgcResponse
    [mkOgcItem "a1" (JObj [("id", JStr "a1")]);
     mkOgcItem "b2" (JObj [("id", JStr "b2")])]
    2
    [mkOgcLink "self" "https://hub.example/api/search/v1/items"].

(** The text of [s] after the first occurrence of [marker]. *)
Fixpoint text_after (marker s : string) : option string :=
  if String.prefix marker s
  then Some (String.substring (String.length marker) (String.length s) s)
  else match s with
       | EmptyString => None
       | String _ rest => text_after marker rest
       end.

(** The links of the sample server are absolute and end with their start
    index, a number; a link without one gives [+null], that is 0, and a
    link that is not absolute makes [new URL] throw. *)
Definition sample_startindex (href_ : string) : option Prim :=
  if String.prefix "https://" href_ then
    match text_after "startindex=" href_ with
    | Some digits =>
        Some (Num match NilZero.int_of_string digits with
                  | Some n => Z.of_int n
                  | None => 0
                  end)
    | None => Some (Num 0)
    end
  else None.

#[export] Instance sample_search : SearchServices := {|
  fetch := fun _ => Resolved (mkResponse true 200 "OK" (Resolved sample_response));
  itemToSearchResult := fun item _ _ => Resolved item;
  url_startindex := sample_startindex
|}.

Definition sample_query : IQuery :=
  mkQuery
    [mkFilter None
       [[("type", P (Str "Web Map")); ("tags", PArr ["water"; "parks"])];
        [("owner", PMatch (mkMatch (Some (Many ["ana"; "bo"]))
                             (Some (Many ["p"; "q"])) (Some (Many ["guest"]))));
         ("term", P (Str ""))]];
     mkFilter (Some AND) [[("access", P (Str "public"))]]].

(** The items of one owner, given as a single string. *)
Definition sample_owner_query : IQuery :=
  mkQuery [mkFilter None [[("owner", PMatch (mkMatch (Some (One "ana")) None None))]]].

Definition sample_options (fields : option (list string)) : IHubSearchOptions :=
  mkSearchOptions fields (Num 10) (Num 1)
    (mkApi "https://hub.example/api/search/v1") None.

Definition sample_params : list (string * Prim) :=
  [("filter", Str ""); ("token", Str "abc123"); ("limit", Num 10);
   ("startindex", Num 0); ("bbox", Undefined)].

(** A feature-layer record with metadata, and a web map made by Hub. *)
Definition sample_dataset : Obj :=
  [("id", JStr "8d1e_0");
   ("owner", JStr "ana");
   ("type", JStr "Feature Service");
   ("hubType", JStr "dataset");
   ("updatedDate", JDate (JNum 1580000000000));
   ("updatedDateSource", JStr "item.modified");
   ("metadata", JObj [("metadata", JObj [("dataIdInfo", JObj [
       ("resMaint", JObj [("maintFreq", JObj [("MaintFreqCd",
          JObj [("@_value", JStr "003")])])]);
       ("idCitation", JObj [("date", JObj [
          ("createDate", JStr "2019-03-01");
          ("pubDate", JStr "")])])])])]);
   ("layer", JObj [("editingInfo", JObj [("lastEditDate", JNum 1590000000000)])])].

Definition sample_webmap : Obj :=
  [("id", JStr "77aa");
   ("owner", JStr "bo");
   ("type", JStr "Web Map");
   ("typeKeywords", JArr [JStr "Map"; JStr "ArcGIS Hub"]);
   ("hubType", JStr "map")].

Definition sample_template : Obj :=
  [("id", JStr "c0de");
   ("owner", JStr "bo");
   ("type", JStr "Hub Initiative Template");
   ("hubType", JStr "template")].

Definition sample_store : Store :=
  [sample_dataset; sample_webmap; sample_template].

(** A Hub index that knows the dataset only, a portal that knows the web map
    and the template, and a property fetcher that runs the requests it is
    given and stores their answers in a new record. *)
Definition sample_index (identifier : string) (_ : JsVal) : Content.Ext loc :=
  fun s =>
    if (identifier =? "8d1e_0") then (Resolved 0, s)
    else (Rejected (JStr "404: not in index"), s).

Definition sample_portal (identifier : string) (_ : JsVal) : Content.Ext loc :=
  fun s =>
    if (identifier =? "77aa") then (Resolved 1, s)
    else if (identifier =? "c0de") then (Resolved 2, s)
    else (Rejected (JStr "400: item does not exist"), s).

Definition sample_fetch_properties (requests : Content.IContentPropertyRequests)
    (content : loc) (options : JsVal) : Content.Ext loc :=
  fun s =>
    let run (name : string) (request : option Content.PropertyRequest)
            (acc : Result JsVal Obj * Store) :=
      match request, acc with
      | Some request, (Resolved o, s) =>
          match request content options s with
          | (Resolved v, s') => (Resolved (set_field name v o), s')
          | (Rejected e, s') => (Rejected e, s')
          end
      | _, _ => acc
      end in
    match run "orgId" (Content.req_orgId requests)
            (run "data" (Content.req_data requests) (Resolved (deref s content), s))
    with
    | (Resolved o, s') => (Resolved (List.length s'), s' ++ [o])
    | (Rejected e, s') => (Rejected e, s')
    end.

#[export] Instance sample_content : Content.ContentServices := {|
  Content.getContentFromHub := sample_index;
  Content.getContentFromPortal := sample_portal;
  Content._fetchContentProperties := sample_fetch_properties;
  Content.getItemData := fun id _ s => (Resolved (JObj [("values", JObj [("of", id)])]), s);
  Content.getUser := fun username _ s =>
    (Resolved (JObj [("username", username); ("orgId", JStr "org-7")]), s);
  Content.isSlug := fun identifier =>
    existsb (Ascii.eqb "-") (list_ascii_of_string identifier);
  Content.parseDatasetId_itemId := fun identifier =>
    match split "_" identifier with
    | itemId :: _ => itemId
    | [] => identifier
    end
|}.

Definition sample_world : Content.World := Content.mkWorld sample_store [].

(** A sample of what the events filters are given: the values found under
    a key in the predicates of the filters, their strings joined by commas,
    two groups of which the second one is an update group, dates given as
    "YYYY-MM-DD", and a clock that advances by one second per reading. *)
Definition sample_values (filters : list IFilter) (key : string)
  : list PredValue :=
  flat_map
    (fun f =>
       flat_map
         (fun p => map snd (List.filter (fun entry => (fst entry =? key)) p))
         (predicates f))
    filters.

Definition sample_strings (filters : list IFilter) (key : string)
  : option string :=
  match flat_map
          (fun v =>
             match v with
             | P (Str text) => [text]
             | PArr values => values
             | _ => []
             end)
          (sample_values filters key)
  with
  | [] => None
  | texts => Some (join "," texts)
  end.

(** A group is an update group when its capabilities include
    "updateitemcontrol"; a group without an array of capabilities makes the
    test throw. *)
Definition sample_isUpdateGroup (g : Events.IGroup) : option bool :=
  match get (Events.group g) "capabilities" with
  | JArr capabilities =>
      Some (existsb (fun capability =>
                       match capability with
                       | JStr text => (text =? "updateitemcontrol")
                       | _ => false
                       end) capabilities)
  | _ => None
  end.

#[export] Instance sample_events : Events.EventsServices := {|
  Events.getOptionalPredicateStringsByKey := sample_strings;
  Events.getPredicateValuesByKey := sample_values;
  Events.searchGroups := fun _ _ _ =>
    Resolved [Events.mkGroup "g-view" (JObj [("capabilities", JArr [])]);
              Events.mkGroup "g-edit"
                (JObj [("capabilities", JArr [JStr "updateitemcontrol"])])];
  Events.isUpdateGroup := sample_isUpdateGroup;
  Events.date_toISOString := fun value =>
    match value with
    | P (Str day) =>
        if (String.length day =? 10)%nat then Some (day +:+ "T00:00:00.000Z")
        else None
    | _ => None
    end;
  Events.now_toISOString := fun n =>
    "2026-11-03T09:00:0" +:+ num_to_string (Z.of_nat n) +:+ ".000Z"
|}.

(** Events of one organization, between two days. *)
Definition sample_filters : list IFilter :=
  [mkFilter None
     [[("orgId", P (Str "org-7"));
       ("startDateRange", PRange (Str "2026-01-01") (Str "2026-02-01"));
       ("startDateBefore", P (Str "2027-01-01"))]]].

(** The same, for the events that have not started yet. *)
Definition sample_upcoming : list IFilter :=
  [mkFilter None
     [[("orgId", P (Str "org-7"));
       ("startDateRange", PRange (Str "2026-01-01") (Str "2026-02-01"));
       ("occurrence", P (Str "upcoming"))]]].

(** What the two resolve to, at the first reading of the clock. *)
Definition sample_result : gmap string PredValue :=
  list_to_map
    [("orgId", P (Str "org-7"));
     ("status", P (Str "planned,canceled"));
     ("startDateTimeBefore", P (Str "2026-02-01T00:00:00.000Z"));
     ("startDateTimeAfter", P (Str "2026-01-01T00:00:00.000Z"))].

Definition sample_upcoming_result : gmap string PredValue :=
  list_to_map
    [("orgId", P (Str "org-7"));
     ("status", P (Str "planned,canceled"));
     ("startDateTimeBefore", P (Str "2026-02-01T00:00:00.000Z"));
     ("startDateTimeAfter", P (Str "2026-11-03T09:00:00.000Z"))].


End Samples.

(* ===================================================================== *)
(** * The query grammar and the query string, in the words of the
      specification *)
(* ===================================================================== *)

Module Grammar.

(** "field=value" *)
Definition equals (field value : string) : string :=
  field +:+ "=" +:+ value.

(** "field IN (v1, v2, ...)" *)
Definition in_list (field : string) (values : list string) : string :=
  field +:+ " IN (" +:+ join ", " values +:+ ")".

(** "field NOT IN (v1, v2, ...)" *)
Definition not_in_list (field : string) (values : list string) : string :=
  field +:+ " NOT IN (" +:+ join ", " values +:+ ")".

(** The array that a property of the match options holds, if it holds
    one. *)
Definition array_of (property : option MatchValue) : option (list string) :=
  match property with
  | Some (Many values) => Some values
  | _ => None
  end.

(** What an object value contributes: the "IN" of the array [any], one
    "field=v" per element of the array [all], and the "NOT IN" of the array
    [not]. A value without these three properties contributes nothing. *)
Definition object_sections (field : string) (value : PredValue) : list string :=
  match value with
  | PMatch m =>
      match array_of (mo_any m) with
      | Some values => [in_list field values]
      | None => []
      end
      ++ match array_of (mo_all m) with
         | Some values => map (equals field) values
         | None => []
         end
      ++ match array_of (mo_not m) with
         | Some values => [not_in_list field values]
         | None => []
         end
  | _ => []
  end.

(** The subsections of three arrays, those that are not empty joined by
    " AND ". *)
Definition joined_subsections (field : string)
    (any all not : option (list string)) : string :=
  join " AND "
    (omap id
       (List.filter
          (fun subsection =>
             match subsection with
             | Some text => negb (text =? "")
             | None => false
             end)
          [option_map (in_list field) any;
           option_map (fun all => join " AND " (map (equals field) all)) all;
           option_map (not_in_list field) not])).

(** A property of the match options that can be joined: an array, or
    nothing (absent, or the empty string). *)
Definition joinable (property : option MatchValue) : bool :=
  match property with
  | Some (One value) => (value =? "")
  | _ => true
  end.

Definition joinable_value (value : PredValue) : bool :=
  match value with
  | PMatch m => joinable (mo_any m) && joinable (mo_all m) && joinable (mo_not m)
  | _ => true
  end.

(** The queries in which no property of a match options is a single string
    that is not empty. *)
Definition arrays_only (query : IQuery) : bool :=
  forallb
    (fun block =>
       forallb
         (fun predicate =>
            forallb (fun entry => joinable_value (snd entry)) predicate)
         (predicates block))
    (filters query).

Definition field_text (field : string) (value : PredValue) : string :=
  match value with
  | P (Str value) => equals field value
  | PArr values => in_list field values
  | object => join " AND " (object_sections field object)
  end.

(** A predicate: its fields with a truthy value, joined by " AND ", in
    parentheses. *)
Definition predicate_text (predicate : IPredicate) : string :=
  "(" +:+ join " AND "
            (map (fun entry => field_text (fst entry) (snd entry))
               (List.filter (fun entry => pred_truthy (snd entry)) predicate))
      +:+ ")".

(** A block: its predicates joined by the operation, "OR" when absent, in
    parentheses. *)
Definition block_text (block : IFilter) : string :=
  let op := match operation block with Some AND => "AND" | _ => "OR" end in
  "(" +:+ join (" " +:+ op +:+ " ") (map predicate_text (predicates block)) +:+ ")".

Definition filter_text (query : IQuery) : string :=
  join " AND " (map block_text (filters query)).

(** The query string: empty without a truthy entry, else "?" and the
    "key=value" pairs of the truthy entries joined by "&". *)
Definition query_string_text (queryParams : list (string * Prim)) : string :=
  match List.filter (fun entry => prim_truthy (snd entry)) queryParams with
  | [] => ""
  | truthy_entries =>
      "?" +:+ join "&"
                (map (fun entry => fst entry +:+ "=" +:+ prim_to_string (snd entry))
                   truthy_entries)
  end.

End Grammar.

(* ===================================================================== *)
(** * Date enrichment, in the words of the specification *)
(* ===================================================================== *)

Module Enrichment.

Import Content.

(** The codes of the metadata element [MaintFreqCd] and the update
    frequencies they stand for. *)
Definition frequency_codes : list (string * string) :=
  [("001", "continual"); ("002", "daily"); ("003", "weekly");
   ("004", "fortnightly"); ("005", "monthly"); ("006", "quarterly");
   ("007", "biannually"); ("008", "annually"); ("009", "as-needed");
   ("010", "irregular"); ("011", "not-planned"); ("012", "unknown");
   ("013", "semimonthly")].

Fixpoint frequency_of_code (table : list (string * string)) (code : string)
  : JsVal :=
  match table with
  | [] => JUndefined
  | (c, frequency) :: rest =>
      if (code =? c) then JStr frequency else frequency_of_code rest code
  end.

(** The update frequency a code value maps to. The specification speaks
    of the codes "001" to "013" only; at any other key the mapping, an
    object of the language, answers as every object does
    ([Object_prototype]): with [undefined], unless the key names an
    inherited member. *)
Definition frequency_of (value : JsVal) : JsVal :=
  match to_key value with
  | Some code =>
      if existsb (String.eqb code) (map fst frequency_codes)
      then frequency_of_code frequency_codes code
      else Object_prototype code
  | None => JUndefined
  end.

(** A date and the path it was taken from override a date property and its
    source property. *)
Definition override (date source : string) (value : JsVal) (path : string)
    (content : Obj) : Obj :=
  set_field source (JStr path) (set_field date (JDate value) content).

(** The enriched record. Every value is read from the record as it was
    given; a value is present when it is truthy. *)
Definition enriched (content : Obj) : Obj :=
  let maintFreq :=
    getProp (JObj content)
      "metadata.metadata.dataIdInfo.resMaint.maintFreq.MaintFreqCd.@_value" in
  let reviseDate :=
    getProp (JObj content)
      "metadata.metadata.dataIdInfo.idCitation.date.reviseDate" in
  let pubDate :=
    getProp (JObj content)
      "metadata.metadata.dataIdInfo.idCitation.date.pubDate" in
  let createDate :=
    getProp (JObj content)
      "metadata.metadata.dataIdInfo.idCitation.date.createDate" in
  let lastEditDate := getProp (JObj content) "layer.editingInfo.lastEditDate" in
  let with_frequency :=
    if truthy maintFreq
    then set_field "updateFrequency" (frequency_of maintFreq) content
    else content in
  let with_updated :=
    if truthy reviseDate
    then override "updatedDate" "updatedDateSource" reviseDate
           "metadata.metadata.dataIdInfo.idCitation.date.reviseDate"
           with_frequency
    else if truthy lastEditDate
    then override "updatedDate" "updatedDateSource" lastEditDate
           "layer.editingInfo.lastEditDate" with_frequency
    else with_frequency in
  if truthy pubDate
  then override "publishedDate" "publishedDateSource" pubDate
         "metadata.metadata.dataIdInfo.idCitation.date.pubDate" with_updated
  else if truthy createDate
  then override "publishedDate" "publishedDateSource" createDate
         "metadata.metadata.dataIdInfo.idCitation.date.createDate" with_updated
  else with_updated.

End Enrichment.

(* ===================================================================== *)
(** * Terms for further properties of the code *)
(* ===================================================================== *)

Module ContentShape.

Import Content.

(** The events that are fetches of properties. *)
Definition is_fetch (ev : Event) : Prop :=
  match ev with
  | EFetchContentProperties _ _ _ _ => True
  | _ => False
  end.

(** The properties that [_enrichDates] assigns. *)
Definition written_properties : list string :=
  ["updateFrequency"; "updatedDate"; "updatedDateSource"; "publishedDate";
   "publishedDateSource"].

End ContentShape.

Module SearchShape.

Import HubSearchItems.

(** A falsy value (0, false, the empty string, null) is treated as a
    missing one. *)
Definition without_falsy (queryParams : list (string * Prim))
  : list (string * Prim) :=
  map (fun entry => (fst entry, if prim_truthy (snd entry) then snd entry
                                else Undefined))
      queryParams.

(** The strings that [encodeURIComponent] leaves as they are. *)
Definition unreserved_only (s : string) : bool :=
  forallb Urls.unreserved (list_ascii_of_string s).

Section WithServices.
Context `{SearchServices}.

(** The [fetch] that a request uses. *)
Definition fetch_used (options : IHubSearchOptions) : Fetch :=
  match requestOptions options with
  | Some ro => match ro_fetch ro with Some f => f | None => fetch end
  | None => fetch
  end.

End WithServices.

End SearchShape.

Module EventsShape.
Import Events.

(** What [if (value?.length) { processedFilters[field] = value; }] leaves in
    a property that was not set before. *)
Definition optional_string (value : option string) : option PredValue :=
  match value with
  | Some (String _ _ as text) => Some (P (Str text))
  | _ => None
  end.

(** What [if (ids.length) { processedFilters[field] = ids.join(",") }] leaves
    in a property that was not set before, for the ids of [groups]. *)
Definition ids_of (groups : list IGroup) : option PredValue :=
  match map id groups with
  | [] => None
  | ids => Some (P (Str (join "," ids)))
  end.

Definition first_fields : list string :=
  ["access"; "canEdit"; "entityIds"; "entityTypes"; "eventIds"; "title";
   "orgId"; "categories"; "tags"].

Definition group_fields : list string :=
  ["sharedToGroups"; "readGroups"; "editGroups"].

Definition notGroup_fields : list string :=
  ["withoutReadGroups"; "withoutEditGroups"].

Definition last_fields : list string :=
  ["attendanceTypes"; "createdByIds"; "status"] ++ date_fields.

(** The predicates whose string goes to a property as it is, each with its
    property. *)
Definition string_fields : list (string * string) :=
  [("access", "access"); ("entityId", "entityIds");
   ("entityType", "entityTypes"); ("id", "eventIds");
   ("categories", "categories"); ("tags", "tags");
   ("attendanceType", "attendanceTypes"); ("owner", "createdByIds")].

Section WithServices.
Context `{EventsServices}.

(** The properties in [fields] assigned one after the other, each with a
    reading of the clock of its own. *)
Fixpoint stamp (clock : nat) (fields : list string)
    (processedFilters : GetEventsParams) : GetEventsParams :=
  match fields with
  | [] => processedFilters
  | field :: rest =>
      stamp (S clock) rest
        (<[field := P (Str (now_toISOString clock))]> processedFilters)
  end.

(** What [new Date(values[0]).toISOString()] leaves in [field] of [result],
    when it is assigned only if there are values. *)
Definition individual_date (values : list PredValue)
    (result : GetEventsParams) (field : string) : Prop :=
  match values with
  | value0 :: _ =>
      exists iso,
        date_toISOString value0 = Some iso
        /\ result !! field = Some (P (Str iso))
  | [] => result !! field = None
  end.

(** The places where [processFilters] can throw or be rejected. *)
Definition valid_date (value : PredValue) : bool :=
  match date_toISOString value with Some _ => true | None => false end.

Definition valid_first (values : list PredValue) : bool :=
  match values with
  | value0 :: _ => valid_date value0
  | [] => true
  end.

Definition valid_range (filters : list IFilter)
    (rangeKey beforeKey afterKey : string) : bool :=
  match getPredicateValuesByKey filters rangeKey with
  | range :: _ =>
      match range_to range, range_from range with
      | Some to, Some from =>
          (negb (prim_truthy to) || valid_date (P to))
          && (negb (prim_truthy from) || valid_date (P from))
      | _, _ => false
      end
  | [] =>
      valid_first (getPredicateValuesByKey filters beforeKey)
      && valid_first (getPredicateValuesByKey filters afterKey)
  end.

Definition valid_canEdit (filters : list IFilter) : bool :=
  match getPredicateValuesByKey filters "canEdit" with
  | canEdit0 :: _ =>
      match method_toString canEdit0 with Some _ => true | None => false end
  | [] => true
  end.

(** The groups on which [isUpdateGroup] returns: the update groups, the
    other ones, and both. *)
Definition update_group (group : IGroup) : bool :=
  match isUpdateGroup group with Some b => b | None => false end.

Definition other_group (group : IGroup) : bool :=
  match isUpdateGroup group with Some b => negb b | None => false end.

Definition testable (group : IGroup) : bool :=
  match isUpdateGroup group with Some _ => true | None => false end.

(** The search of the groups resolves, and [isUpdateGroup] returns on each
    group found. *)
Definition groups_found (filters : list IFilter) (requestOptions : JsVal)
  : bool :=
  let notGroupIds := getPredicateValuesByKey filters "notGroup" in
  match notGroupIds with
  | _ :: _ =>
      match searchGroups ("id:(" +:+ join_values " OR " notGroupIds +:+ ")")
              (List.length notGroupIds) requestOptions with
      | Resolved results => forallb testable results
      | Rejected _ => false
      end
  | [] => true
  end.

Definition resolvable (filters : list IFilter) (requestOptions : JsVal)
  : bool :=
  valid_canEdit filters && groups_found filters requestOptions
  && valid_range filters "startDateRange" "startDateBefore" "startDateAfter"
  && valid_range filters "endDateRange" "endDateBefore" "endDateAfter".

End WithServices.

End EventsShape.

Module Scenarios.
Import Events.

(** Events shared with one group and not with two others, that end before a
    day, are in progress and have not started. *)
Definition sample_shared : list IFilter :=
  [mkFilter None
     [[("group", P (Str "g-1")); ("readGroupId", P (Str "g-2"));
       ("notGroup", P (Str "g-view")); ("notReadGroupId", P (Str "g-3"));
       ("endDateBefore", P (Str "2026-03-01"));
       ("occurrence", P (Str "inProgress"))];
      [("notGroup", P (Str "g-edit")); ("occurrence", P (Str "upcoming"))];
      [("occurrence", P (Str "inProgress"))]]].

Definition sample_shared_result : gmap string PredValue :=
  list_to_map
    [("sharedToGroups", P (Str "g-1"));
     ("withoutReadGroups", P (Str "g-view"));
     ("withoutEditGroups", P (Str "g-edit"));
     ("status", P (Str "planned,canceled"));
     ("endDateTimeBefore", P (Str "2026-03-01T00:00:00.000Z"));
     ("startDateTimeAfter", P (Str "2026-11-03T09:00:02.000Z"));
     ("startDateTimeBefore", P (Str "2026-11-03T09:00:03.000Z"));
     ("endDateTimeAfter", P (Str "2026-11-03T09:00:04.000Z"))].

(** The sample services, with a portal that finds a group without
    capabilities. *)
Definition sample_bare : EventsServices := {|
  getOptionalPredicateStringsByKey := Samples.sample_strings;
  getPredicateValuesByKey := Samples.sample_values;
  searchGroups := fun _ _ _ =>
    Resolved [mkGroup "g-view" (JObj [("capabilities", JArr [])]);
              mkGroup "g-bare" (JObj [])];
  isUpdateGroup := Samples.sample_isUpdateGroup;
  date_toISOString := date_toISOString (EventsServices := Samples.sample_events);
  now_toISOString := now_toISOString (EventsServices := Samples.sample_events)
|}.


(** A page of two items that is followed by another one. *)
Definition sample_more : HubSearchItems.IOgcResponse :=
  HubSearchItems.mkOgcResponse
    [HubSearchItems.mkOgcItem "a1" (JObj [("id", JStr "a1")]);
     HubSearchItems.mkOgcItem "b2" (JObj [("id", JStr "b2")])]
    12
    [HubSearchItems.mkOgcLink "self" "https://hub.example/api/search/v1/items";
     HubSearchItems.mkOgcLink "next"
       "https://hub.example/api/search/v1/items?startindex=3"].

(** A content whose metadata has a frequency code that is not in use. *)
Definition sample_odd_code : Obj :=
  [("updateFrequency", JStr "weekly");
   ("metadata", JObj [("metadata", JObj [("dataIdInfo", JObj [
       ("resMaint", JObj [("maintFreq", JObj [("MaintFreqCd",
          JObj [("@_value", JStr "099")])])])])])])].

End Scenarios.

(* ===================================================================== *)
(** * Facts about strings and [join] *)
(* ===================================================================== *)

Module StringFacts.

Lemma append_nil_r (s : string) : s +:+ "" = s.
Proof. induction s as [|c s IH]; simpl; [reflexivity | now rewrite IH]. Qed.

Lemma append_assoc (a b c : string) : (a +:+ b) +:+ c = a +:+ (b +:+ c).
Proof. induction a as [|x a IH]; simpl; [reflexivity | now rewrite IH]. Qed.

Lemma append_eq_nil (a b : string) : a +:+ b = "" -> a = "" /\ b = "".
Proof. destruct a; simpl; [auto | discriminate]. Qed.

Lemma append_length (a b : string) :
  String.length (a +:+ b) = String.length a + String.length b.
Proof. induction a as [|x a IH]; simpl; [reflexivity | now rewrite IH]. Qed.

(** Cancellation of a common suffix. *)
Lemma append_inv_tail (a b t : string) : a +:+ t = b +:+ t -> a = b.
Proof.
  revert b. induction a as [|x a IH]; intros [|y b] E; simpl in E.
  - reflexivity.
  - apply (f_equal String.length) in E. simpl in E.
    rewrite append_length in E. lia.
  - apply (f_equal String.length) in E. simpl in E.
    rewrite append_length in E. lia.
  - injection E as -> E. f_equal. now apply IH.
Qed.

Lemma eqb_nil_false (s : string) : s <> "" -> (s =? "") = false.
Proof. intros. now apply String.eqb_neq. Qed.

Lemma join_cons2 (sep x y : string) (l : list string) :
  join sep (x :: y :: l) = x +:+ sep +:+ join sep (y :: l).
Proof. reflexivity. Qed.

Lemma join_app (sep : string) (l1 l2 : list string) :
  l1 <> [] -> l2 <> [] ->
  join sep (l1 ++ l2) = join sep l1 +:+ sep +:+ join sep l2.
Proof.
  intros H1 H2. induction l1 as [|x l1 IH]; [congruence |].
  destruct l1 as [|y l1].
  - destruct l2; [congruence | reflexivity].
  - rewrite <- !app_comm_cons, !join_cons2, app_comm_cons.
    rewrite IH by discriminate. now rewrite !append_assoc.
Qed.

(** A join whose first string is not empty is not empty. *)
Lemma join_nonempty (sep x : string) (l : list string) :
  x <> "" -> join sep (x :: l) <> "".
Proof.
  intros Hx E. destruct l; simpl in E; [congruence |].
  apply append_eq_nil in E. tauto.
Qed.

End StringFacts.

(* ===================================================================== *)
(** * hubSearchItems.ts: the filter compiler and the query string *)
(* ===================================================================== *)

Module SearchFacts.

Import HubSearchItems StringFacts Grammar.

Lemma text_nonempty (a b : string) (c : ascii) : a +:+ String c b <> "".
Proof. intros E. apply append_eq_nil in E. destruct E; discriminate. Qed.

Lemma equals_nonempty (field value : string) : equals field value <> "".
Proof. apply text_nonempty. Qed.

Lemma in_list_nonempty (field : string) (values : list string) :
  in_list field values <> "".
Proof. apply text_nonempty. Qed.

Lemma not_in_list_nonempty (field : string) (values : list string) :
  not_in_list field values <> "".
Proof. apply text_nonempty. Qed.

Lemma conjuncts_nonempty (field v : string) (vs : list string) :
  join " AND " (map (equals field) (v :: vs)) <> "".
Proof. apply join_nonempty, equals_nonempty. Qed.

Ltac not_nil :=
  first [ assumption | discriminate
        | let E := fresh in
          intros E; apply app_eq_nil in E; destruct E; discriminate ].

(** The three subsections, filtered and joined, are the flat list of
    conjuncts of the grammar. *)
Lemma joined_subsections_flat (field : string)
    (any all not : option (list string)) :
  joined_subsections field any all not
  = join " AND "
      (match any with Some values => [in_list field values] | None => [] end
       ++ match all with
          | Some values => map (equals field) values
          | None => []
          end
       ++ match not with
          | Some values => [not_in_list field values]
          | None => []
          end).
Proof.
  unfold joined_subsections.
  destruct all as [[|v vs]|].
  2:{ (* a list of conjuncts that is not empty *)
      assert (HL : map (equals field) (v :: vs) <> []) by discriminate.
      pose proof (conjuncts_nonempty field v vs) as HJ.
      cbn [option_map].
      revert HL HJ. generalize (map (equals field) (v :: vs)) as L.
      intros L HL HJ.
      destruct any as [any|], not as [not|];
        cbn [List.filter option_map];
        rewrite ?(eqb_nil_false _ (in_list_nonempty _ _)),
                ?(eqb_nil_false _ (not_in_list_nonempty _ _)),
                ?(eqb_nil_false _ HJ);
        cbn [negb list_omap omap List.filter id app String.eqb].
      - change (in_list field any :: L ++ [not_in_list field not])
          with ([in_list field any] ++ (L ++ [not_in_list field not])).
        rewrite !join_app by not_nil. reflexivity.
      - rewrite app_nil_r.
        change (in_list field any :: L) with ([in_list field any] ++ L).
        rewrite join_app by not_nil. reflexivity.
      - rewrite join_app by not_nil. reflexivity.
      - rewrite app_nil_r. reflexivity. }
  all: destruct any as [any|], not as [not|];
    cbn [List.filter map option_map];
    rewrite ?(eqb_nil_false _ (in_list_nonempty _ _)),
            ?(eqb_nil_false _ (not_in_list_nonempty _ _));
    reflexivity.
Qed.

(** The subsections of the source: they throw on a single string that is
    not empty, and are those of the arrays otherwise. *)
Lemma subsections_joinable (field : string) (any all not : option MatchValue) :
  subsections field any all not
  = if joinable any && joinable all && joinable not
    then Resolved (joined_subsections field (array_of any) (array_of all)
                     (array_of not))
    else Rejected TypeError.
Proof.
  unfold subsections, subsection, joined_subsections, in_list, not_in_list, equals.
  destruct any as [[[|c1 v1]|l1]|], all as [[[|c2 v2]|l2]|],
           not as [[[|c3 v3]|l3]|];
    reflexivity.
Qed.

Lemma section_text (field : string) (value : PredValue) :
  section field value
  = if joinable_value value then Resolved (field_text field value)
    else Rejected TypeError.
Proof.
  destruct value as [[| | | |text]|values|m|from to]; try reflexivity.
  cbn [section joinable_value field_text object_sections].
  rewrite subsections_joinable, joined_subsections_flat. reflexivity.
Qed.

(** The [reduce] of [formatPredicate] pushes one section per entry, until
    one throws. *)
Lemma reduce_sections (entries : IPredicate) (acc : list string) :
  fold_left
    (fun acc '(field, value) =>
       match acc with
       | Rejected e => Rejected e
       | Resolved acc =>
           match section field value with
           | Rejected e => Rejected e
           | Resolved section => Resolved (acc ++ [section])
           end
       end)
    entries (Resolved acc)
  = if forallb (fun entry => joinable_value (snd entry)) entries
    then Resolved (acc ++ map (fun entry => field_text (fst entry) (snd entry))
                            entries)
    else Rejected TypeError.
Proof.
  revert acc. induction entries as [|[field value] rest IH]; intros acc.
  - cbn [fold_left forallb map]. now rewrite app_nil_r.
  - cbn [fold_left forallb map fst snd]. rewrite section_text.
    destruct (joinable_value value); cbn [andb].
    + rewrite IH. now rewrite <- app_assoc.
    + clear IH. induction rest as [|[f v] rest IH]; [reflexivity | exact IH].
Qed.

(** A value that is dropped as falsy is not an object. *)
Lemma joinable_truthy (predicate : IPredicate) :
  forallb (fun entry => joinable_value (snd entry))
    (List.filter (fun entry => pred_truthy (snd entry)) predicate)
  = forallb (fun entry => joinable_value (snd entry)) predicate.
Proof.
  induction predicate as [|[field value] rest IH]; [reflexivity |].
  cbn [List.filter forallb snd].
  destruct value as [p|values|m|from to]; cbn [pred_truthy forallb snd];
    rewrite ?IH; try reflexivity.
  destruct (prim_truthy p); cbn [forallb snd joinable_value andb];
    now rewrite IH.
Qed.

Lemma formatPredicate_text (predicate : IPredicate) :
  formatPredicate predicate
  = if forallb (fun entry => joinable_value (snd entry)) predicate
    then Resolved (predicate_text predicate)
    else Rejected TypeError.
Proof.
  unfold formatPredicate, predicate_text.
  replace (List.filter (fun '(_, value) => pred_truthy value) predicate)
    with (List.filter (fun entry => pred_truthy (snd entry)) predicate)
    by (apply filter_ext; now intros []).
  rewrite reduce_sections, joinable_truthy.
  now destruct (forallb _ predicate).
Qed.

(** A [map] whose function throws one error only, on the elements that are
    not [ok]. *)
Lemma try_map_forallb {A B} (f : A -> Outcome B) (ok : A -> bool) (g : A -> B)
    (e : SearchError) (l : list A) :
  (forall a, f a = if ok a then Resolved (g a) else Rejected e) ->
  try_map f l = if forallb ok l then Resolved (map g l) else Rejected e.
Proof.
  intros Hf. induction l as [|a rest IH]; [reflexivity |].
  cbn [try_map forallb map]. rewrite Hf, IH.
  now destruct (ok a), (forallb ok rest).
Qed.

Lemma formatFilterBlock_text (block : IFilter) :
  formatFilterBlock block
  = if forallb
         (fun predicate =>
            forallb (fun entry => joinable_value (snd entry)) predicate)
         (predicates block)
    then Resolved (block_text block)
    else Rejected TypeError.
Proof.
  unfold formatFilterBlock, block_text. cbv zeta.
  rewrite (try_map_forallb _ _ _ _ _ formatPredicate_text).
  destruct (forallb _ (predicates block)); [|reflexivity].
  now destruct (operation block) as [[|]|].
Qed.

Lemma getFilterQueryParam_cases (query : IQuery) :
  getFilterQueryParam query
  = if arrays_only query then Resolved (filter_text query)
    else Rejected TypeError.
Proof.
  unfold getFilterQueryParam, filter_text, arrays_only.
  rewrite (try_map_forallb _ _ _ _ _ formatFilterBlock_text).
  now destruct (forallb _ (filters query)).
Qed.

(** C2, amended. For every query in which each any, all and not of an
    object value is an array, or is absent or the empty string,
    [getFilterQueryParam] returns the filter blocks joined by " AND "; a
    block is the parenthesized join of its predicates by the operation of
    the filter ("OR" when absent); a predicate is the parenthesized
    " AND "-join over its fields with a truthy value, where a string gives
    "field=value", an array "field IN (v1, v2, ...)" and an object the "IN"
    of any, the "field=v" conjuncts of all and the "NOT IN" of not, joined
    by " AND ". On every other query it throws a [TypeError]. *)
Theorem getFilterQueryParam_grammar (query : IQuery) :
  getFilterQueryParam query
  = if arrays_only query then Resolved (filter_text query)
    else Rejected TypeError.
Proof.
  unfold getFilterQueryParam.
  rewrite (try_map_forallb _ _ _ _ _ formatFilterBlock_text).
  fold (arrays_only query).
  destruct (arrays_only query); reflexivity.
Qed.

(** C2, as stated, fails on an object value whose [any] is a single
    string, which the type of the match options allows: [join] is not a
    method of a string, and nothing is returned. *)
Lemma getFilterQueryParam_single_string :
  getFilterQueryParam Samples.sample_owner_query = Rejected TypeError
  /\ getFilterQueryParam Samples.sample_owner_query
     <> Resolved (filter_text Samples.sample_owner_query).
Proof. split; [reflexivity | discriminate]. Qed.

Lemma block_text_nonempty (block : IFilter) : block_text block <> "".
Proof. unfold block_text. discriminate. Qed.

Lemma filter_text_empty (query : IQuery) :
  filter_text query = "" <-> filters query = [].
Proof.
  unfold filter_text. destruct (filters query) as [|block rest].
  - split; reflexivity.
  - split; [|discriminate]. intros E. exfalso.
    apply (join_nonempty " AND " (block_text block) (map block_text rest));
      [|exact E].
    apply block_text_nonempty.
Qed.

Lemma arrays_only_nil (query : IQuery) :
  filters query = [] -> arrays_only query = true.
Proof. unfold arrays_only. now intros ->. Qed.

(** ** The two query strings *)

Lemma pair_nonempty (key value : string) : key +:+ "=" +:+ value <> "".
Proof. apply text_nonempty. Qed.

(** [result && `?${result}`] over the "key=value" pairs of a list of
    entries. *)
Lemma question_mark {A} (to_text : A -> string) (entries : list (string * A)) :
  (let result :=
     join "&" (map (fun '(key, value) => key +:+ "=" +:+ to_text value) entries) in
   if (result =? "") then result else "?" +:+ result)
  = match entries with
    | [] => ""
    | _ => "?" +:+ join "&"
                     (map (fun entry => fst entry +:+ "=" +:+ to_text (snd entry))
                        entries)
    end.
Proof.
  assert (E : map (fun '(key, value) => key +:+ "=" +:+ to_text value) entries
              = map (fun entry => fst entry +:+ "=" +:+ to_text (snd entry)) entries)
    by (apply map_ext; now intros []).
  cbv zeta. rewrite E. destruct entries as [|[key value] rest]; [reflexivity |].
  rewrite eqb_nil_false; [reflexivity |].
  apply join_nonempty, pair_nonempty.
Qed.

Lemma filter_truthy (queryParams : list (string * Prim)) :
  List.filter (fun '(_, value) => prim_truthy value) queryParams
  = List.filter (fun entry => prim_truthy (snd entry)) queryParams.
Proof. apply filter_ext. now intros []. Qed.

Lemma getQueryString_text (queryParams : IQueryParams) :
  HubSearchItems.getQueryString queryParams = query_string_text queryParams.
Proof.
  unfold HubSearchItems.getQueryString, query_string_text.
  rewrite question_mark, filter_truthy.
  now destruct (List.filter _ queryParams).
Qed.

(** On entries that percent-encoding leaves alone, the second
    implementation builds the same pairs. *)
Lemma encoded_pairs (queryParams : list (string * Prim)) :
  (forall key value, In (key, value) queryParams -> prim_truthy value = true ->
     Urls.encodeURIComponent value = prim_to_string value) ->
  map (fun '(key, value) => key +:+ "=" +:+ Urls.encodeURIComponent value)
    (List.filter (fun '(_, value) => prim_truthy value) queryParams)
  = map (fun '(key, value) => key +:+ "=" +:+ prim_to_string value)
      (List.filter (fun '(_, value) => prim_truthy value) queryParams).
Proof.
  intros Hsafe. induction queryParams as [|[key value] rest IH]; [reflexivity |].
  simpl. destruct (prim_truthy value) eqn:Ht.
  - simpl. rewrite (Hsafe key value) by (simpl; auto).
    f_equal. apply IH. intros k v Hin. apply (Hsafe k v). now right.
  - apply IH. intros k v Hin. apply (Hsafe k v). now right.
Qed.

(** C10. On every object whose truthy values are left unchanged by
    [encodeURIComponent], the two implementations of [getQueryString] agree:
    both return the empty string when no entry has a truthy value, and
    otherwise "?" followed by the "key=value" pairs of the truthy entries,
    in order, joined by "&". On an input with a reserved character they
    differ. *)
Theorem getQueryString_agree :
  (forall queryParams : list (string * Prim),
     (forall key value, In (key, value) queryParams -> prim_truthy value = true ->
        Urls.encodeURIComponent value = prim_to_string value) ->
     HubSearchItems.getQueryString queryParams = query_string_text queryParams
     /\ Urls.getQueryString queryParams = query_string_text queryParams)
  /\ (exists queryParams : list (string * Prim),
        HubSearchItems.getQueryString queryParams
        <> Urls.getQueryString queryParams).
Proof.
  split.
  - intros queryParams Hsafe. split; [apply getQueryString_text |].
    rewrite <- getQueryString_text.
    unfold Urls.getQueryString, HubSearchItems.getQueryString.
    now rewrite encoded_pairs.
  - exists [("q", Str "parks & trails")]. vm_compute. discriminate.
Qed.

Lemma getQueryString_agree_witness :
  HubSearchItems.getQueryString Samples.sample_params
    = "?token=abc123&limit=10"
  /\ Urls.getQueryString Samples.sample_params = "?token=abc123&limit=10".
Proof.
  destruct (proj1 getQueryString_agree Samples.sample_params) as [E1 E2].
  - intros key value Hin Ht. simpl in Hin.
    repeat (destruct Hin as [Hin|Hin]; [inversion Hin; subst; try reflexivity |]);
      try discriminate; contradiction.
  - rewrite E1, E2. split; reflexivity.
Defined.

(** ** Aggregations *)

(** C8. [searchOgcAggregations] ignores its arguments and resolves to
    [null]; so [hubSearchItems] resolves to [null] whenever
    [options.aggFields] is not empty. *)
Theorem searchOgcAggregations_null `{SearchServices} :
  (forall query options, searchOgcAggregations query options = Resolved None)
  /\ (forall query options fields,
        aggFields options = Some fields -> fields <> [] ->
        hubSearchItems query options = Resolved None).
Proof.
  split; [reflexivity |].
  intros query options fields Hagg Hne. unfold hubSearchItems.
  rewrite Hagg. destruct fields; [congruence | reflexivity].
Qed.

Lemma searchOgcAggregations_null_witness :
  hubSearchItems (H := Samples.sample_search) Samples.sample_query
    (Samples.sample_options (Some ["tags"])) = Resolved None
  /\ (exists response,
        hubSearchItems (H := Samples.sample_search) Samples.sample_query
          (Samples.sample_options None) = Resolved (Some response)).
Proof.
  split.
  - apply (proj2 (searchOgcAggregations_null (H := Samples.sample_search))
             Samples.sample_query (Samples.sample_options (Some ["tags"]))
             ["tags"]);
      [reflexivity | discriminate].
  - eexists. vm_compute. reflexivity.
Defined.

End SearchFacts.

(* ===================================================================== *)
(** * content.ts: date enrichment *)
(* ===================================================================== *)

Module ContentFacts.

Import Content Enrichment.

(** ** The store *)

Lemma deref_alloc (s : Store) (o : Obj) : deref (s ++ [o]) (List.length s) = o.
Proof. unfold deref. now rewrite list_lookup_middle. Qed.

Lemma write_alloc (s : Store) (o : Obj) (k : string) (v : JsVal) :
  write (List.length s) k v (s ++ [o]) = s ++ [set_field k v o].
Proof.
  unfold write. replace (List.length s) with (List.length s + 0) by lia.
  now rewrite alter_app_r.
Qed.

(** An object that exists keeps its reference and its properties when
    another object is created. *)
Lemma lookup_alloc (s : Store) (o o' : Obj) (l : loc) :
  s !! l = Some o -> (s ++ [o']) !! l = Some o.
Proof. intros Hl. now apply lookup_app_l_Some. Qed.

(** ** Properties and paths *)

Lemma lookup_field_set_field_ne (k k' : string) (v : JsVal) (o : Obj) :
  k' <> k -> lookup_field k' (set_field k v o) = lookup_field k' o.
Proof.
  intros Hne. induction o as [|[k0 v0] rest IH]; simpl.
  - now rewrite (proj2 (String.eqb_neq k' k)).
  - destruct (k =? k0) eqn:E; simpl.
    + apply String.eqb_eq in E. subst k0.
      now rewrite (proj2 (String.eqb_neq k' k)).
    + destruct (k' =? k0); [reflexivity | exact IH].
Qed.

Lemma lookup_field_set_field_eq (k : string) (v : JsVal) (o : Obj) :
  lookup_field k (set_field k v o) = v.
Proof.
  induction o as [|[k0 v0] rest IH]; simpl.
  - now rewrite String.eqb_refl.
  - destruct (k =? k0) eqn:E; simpl; rewrite ?String.eqb_refl, ?E; auto.
Qed.

(** A path sees an assignment only through its first segment. *)
Lemma getProp_set_field (k : string) (v : JsVal) (o : Obj) (path seg : string)
    (rest : list string) :
  split "." path = seg :: rest -> seg <> k ->
  getProp (JObj (set_field k v o)) path = getProp (JObj o) path.
Proof.
  intros Hsplit Hne. unfold getProp. rewrite Hsplit. simpl.
  now rewrite lookup_field_set_field_ne.
Qed.

Lemma getValueFromMetadata_set_field (identifier : MetadataKey) (k : string)
    (v : JsVal) (o : Obj) :
  k <> "metadata" ->
  getValueFromMetadata (set_field k v o) identifier
  = getValueFromMetadata o identifier.
Proof.
  intros Hne. destruct identifier; unfold getValueFromMetadata; simpl truthy;
    cbv iota; eapply getProp_set_field;
    solve [vm_compute; reflexivity | congruence].
Qed.

Lemma updateFrequencyMap_codes (code : string) :
  lookup_literal updateFrequencyMap code
  = if existsb (String.eqb code) (map fst frequency_codes)
    then frequency_of_code frequency_codes code
    else Object_prototype code.
Proof. reflexivity. Qed.

Lemma updateFrequencyMap_at_frequency (value : JsVal) :
  updateFrequencyMap_at value = frequency_of value.
Proof.
  unfold updateFrequencyMap_at, frequency_of.
  destruct (to_key value) as [code|]; [|reflexivity].
  apply updateFrequencyMap_codes.
Qed.

(** On its thirteen codes the mapping answers with the frequency of the
    code, whatever an object inherits. *)
Lemma frequency_of_listed (code frequency : string) :
  In (code, frequency) frequency_codes ->
  frequency_of (JStr code) = JStr frequency.
Proof.
  intros Hin. simpl in Hin.
  repeat (destruct Hin as [[= <- <-]|Hin]; [reflexivity |]).
  destruct Hin.
Qed.

Lemma getValueFromMetadata_path (o : Obj) (identifier : MetadataKey) :
  getValueFromMetadata o identifier = getProp (JObj o) (getMetadataPath identifier).
Proof. now destruct identifier. Qed.

Lemma path_set_field (k : string) (v : JsVal) (o : Obj) (path : string) :
  match split "." path with
  | seg :: _ => negb (seg =? k)
  | [] => false
  end = true ->
  getProp (JObj (set_field k v o)) path = getProp (JObj o) path.
Proof.
  destruct (split "." path) as [|seg rest] eqn:E; [discriminate |].
  intros Hne. apply (getProp_set_field k v o path seg rest E).
  apply String.eqb_neq. now destruct (seg =? k).
Qed.

Ltac same_path := rewrite !path_set_field by (vm_compute; reflexivity).

(** Move to the next condition of [_enrichDates]: the clone is the last
    object of the store, and the paths do not see the properties written so
    far. *)
Ltac next_condition o :=
  rewrite ?write_alloc, ?deref_alloc;
  try same_path;
  match goal with
  | |- context [truthy (getProp (JObj o) ?path)] =>
      destruct (truthy (getProp (JObj o) path))
  end.

(** [_enrichDates] creates one object, the enriched clone, and returns its
    reference. *)
Lemma _enrichDates_clone (content : loc) (s : Store) :
  _enrichDates content s
  = (List.length s, s ++ [enriched (deref s content)]).
Proof.
  unfold _enrichDates, cloneObject, alloc, enriched, override.
  generalize (deref s content) as o. intros o.
  rewrite deref_alloc, !getValueFromMetadata_path. cbn [getMetadataPath].
  cbv zeta. rewrite updateFrequencyMap_at_frequency.
  generalize (frequency_of
                (getProp (JObj o)
                   "metadata.metadata.dataIdInfo.resMaint.maintFreq.MaintFreqCd.@_value"))
    as frequency.
  intros frequency.
  repeat next_condition o; rewrite ?write_alloc; reflexivity.
Qed.

(** C5. The record that [_enrichDates] returns is the given record with:
    updateFrequency set through the "001".."013" mapping when the metadata
    code is present, each of the thirteen codes giving its frequency;
    updatedDate and updatedDateSource overridden by the metadata reviseDate
    when present, else by layer.editingInfo.lastEditDate when present, else
    left unchanged; publishedDate and publishedDateSource overridden by the
    metadata pubDate when present, else by the metadata createDate when
    present, else left unchanged. *)
Theorem _enrichDates_precedence (content : loc) (s : Store) :
  deref (snd (_enrichDates content s)) (fst (_enrichDates content s))
  = enriched (deref s content)
  /\ (forall code frequency,
        In (code, frequency) frequency_codes ->
        updateFrequencyMap_at (JStr code) = JStr frequency
        /\ frequency_of (JStr code) = JStr frequency).
Proof.
  split.
  - rewrite _enrichDates_clone. apply deref_alloc.
  - intros code frequency Hin. rewrite updateFrequencyMap_at_frequency.
    split; now apply frequency_of_listed.
Qed.

Example _enrichDates_sample :
  let enriched_dataset :=
    deref (snd (_enrichDates 0 Samples.sample_store))
          (fst (_enrichDates 0 Samples.sample_store)) in
  lookup_field "updateFrequency" enriched_dataset = JStr "weekly"
  /\ lookup_field "updatedDate" enriched_dataset = JDate (JNum 1590000000000)
  /\ lookup_field "updatedDateSource" enriched_dataset
     = JStr "layer.editingInfo.lastEditDate"
  /\ lookup_field "publishedDate" enriched_dataset = JDate (JStr "2019-03-01")
  /\ lookup_field "publishedDateSource" enriched_dataset
     = JStr "metadata.metadata.dataIdInfo.idCitation.date.createDate".
Proof. vm_compute. repeat split; reflexivity. Qed.

Example frequency_codes_sample :
  frequency_of (JStr "001") = JStr "continual"
  /\ frequency_of (JStr "003") = JStr "weekly"
  /\ frequency_of (JStr "013") = JStr "semimonthly"
  /\ frequency_of (JStr "014") = JUndefined
  /\ frequency_of (JStr "constructor") = JFun "Object"
  /\ updateFrequencyMap_at (JStr "constructor") = JFun "Object".
Proof. repeat split; reflexivity. Qed.

(** C7. [_enrichDates] does not mutate its argument: the object behind the
    reference it is given, like every object that existed before the call,
    has the same properties after the call, and the record returned is
    another object. *)
Theorem _enrichDates_does_not_mutate (content : loc) (s : Store) (o : Obj) :
  s !! content = Some o ->
  snd (_enrichDates content s) !! content = Some o
  /\ fst (_enrichDates content s) <> content
  /\ (forall (l : loc) (o' : Obj),
        s !! l = Some o' -> snd (_enrichDates content s) !! l = Some o').
Proof.
  intros Hcontent. rewrite _enrichDates_clone. cbn [fst snd].
  split; [now apply lookup_alloc |]. split.
  - apply lookup_lt_Some in Hcontent. lia.
  - intros l o' Hl. now apply lookup_alloc.
Qed.

Lemma _enrichDates_does_not_mutate_witness :
  snd (_enrichDates 0 Samples.sample_store) !! 0 = Some Samples.sample_dataset
  /\ fst (_enrichDates 0 Samples.sample_store) <> 0.
Proof.
  destruct (_enrichDates_does_not_mutate 0 Samples.sample_store
              Samples.sample_dataset eq_refl) as (Hsame & Hfresh & _).
  split; [exact Hsame | exact Hfresh].
Defined.

(** ** enrichContent *)

Section Enrich.
Context `{ContentServices}.









(** [enrichContent] only adds to the trace, and never a call to the portal. *)
Lemma enrichContent_trace (content : loc) (options : JsVal) (w : World) :
  exists events,
    trace (snd (enrichContent content options w)) = trace w ++ events
    /\ forall identifier options',
         ~ In (EGetContentFromPortal identifier options') events.
Proof.
  unfold enrichContent, bind, resolve, call, sync.
  destruct (keys_length _ =? 0)%nat.
  - exists []. destruct (_enrichDates content (store w)).
    cbn [snd trace]. split; [now rewrite app_nil_r | intros i o []].
  - eexists. split.
    + destruct (_fetchContentProperties _ content options (store w))
        as [[c|e] s1]; cbn [snd trace store]; [|reflexivity].
      destruct (_enrichDates c s1). reflexivity.
    + intros i o [E|[]]. discriminate.
Qed.

(** C1. Without [options.isPortal], when the fetch from the Hub index
    rejects, [getContentById] calls [getContentFromPortal(identifier,
    options)] if and only if [isSlug(identifier)] is false; for a slug the
    promise rejects with the original error and the only call made is the
    one to the index. *)
Theorem getContentById_fallback (identifier : string) (options : JsVal)
    (w : World) (e : JsVal) (s1 : Store) :
  options_isPortal options = false ->
  getContentFromHub identifier options (store w) = (Rejected e, s1) ->
  let w1 := mkWorld s1 (trace w ++ [EGetContentFromHub identifier options]) in
  (attempted_since (trace w)
     (trace (snd (getContentById identifier options w)))
     (EGetContentFromPortal identifier options)
   <-> isSlug identifier = false)
  /\ (isSlug identifier = true ->
      getContentById identifier options w = (Rejected e, w1))
  /\ (isSlug identifier = false ->
      getContentById identifier options w
      = bind (call (EGetContentFromPortal identifier options)
                (getContentFromPortal identifier options))
          (fun content => enrichContent content options) w1).
Proof.
  intros Hportal Hhub w1.
  assert (Hslug : isSlug identifier = true ->
                  getContentById identifier options w = (Rejected e, w1)).
  { intros Hs. unfold getContentById, bind, catch, call, reject.
    now rewrite Hportal, Hhub, Hs. }
  assert (Hid : isSlug identifier = false ->
                getContentById identifier options w
                = bind (call (EGetContentFromPortal identifier options)
                          (getContentFromPortal identifier options))
                    (fun content => enrichContent content options) w1).
  { intros Hs. unfold getContentById, bind, catch, call, reject.
    rewrite Hportal, Hhub, Hs. reflexivity. }
  split; [|split; assumption].
  destruct (isSlug identifier) eqn:Hs.
  - rewrite Hslug by reflexivity. split; [|discriminate].
    intros (events & Hevents & Hin). cbn [snd trace w1] in Hevents.
    apply app_inv_head in Hevents. subst events.
    destruct Hin as [E|[]]. discriminate.
  - split; [reflexivity | intros _]. rewrite Hid by reflexivity.
    unfold bind, call. cbn [store trace w1].
    destruct (getContentFromPortal identifier options s1) as [[c|e'] s2].
    + destruct (enrichContent_trace c options
                  (mkWorld s2 ((trace w ++ [EGetContentFromHub identifier options])
                               ++ [EGetContentFromPortal identifier options])))
        as (events & Htrace & _).
      rewrite Htrace. cbn [trace].
      exists ([EGetContentFromHub identifier options]
                ++ [EGetContentFromPortal identifier options] ++ events).
      split; [now rewrite <- !app_assoc | simpl; auto].
    + cbn [snd trace].
      exists [EGetContentFromHub identifier options;
              EGetContentFromPortal identifier options].
      split; [now rewrite <- app_assoc | simpl; auto].
Qed.

End Enrich.

Lemma getContentById_fallback_witness :
  attempted_since []
    (trace (snd (getContentById (H := Samples.sample_content) "77aa" JUndefined
                   Samples.sample_world)))
    (EGetContentFromPortal "77aa" JUndefined)
  /\ getContentById (H := Samples.sample_content) "my-slug" JUndefined
       Samples.sample_world
     = (Rejected (JStr "404: not in index"),
        mkWorld Samples.sample_store [EGetContentFromHub "my-slug" JUndefined]).
Proof.
  split.
  - apply (proj1 (getContentById_fallback (H := Samples.sample_content)
                    "77aa" JUndefined Samples.sample_world
                    (JStr "404: not in index") Samples.sample_store
                    eq_refl eq_refl)).
    reflexivity.
  - apply (proj1 (proj2 (getContentById_fallback (H := Samples.sample_content)
                    "my-slug" JUndefined Samples.sample_world
                    (JStr "404: not in index") Samples.sample_store
                    eq_refl eq_refl))).
    reflexivity.
Defined.

Example enrichContent_samples :
  (* the dataset: nothing to fetch *)
  trace (snd (enrichContent (H := Samples.sample_content) 0 JUndefined
                Samples.sample_world)) = []
  (* the web map made by Hub: the orgId of its owner *)
  /\ trace (snd (enrichContent (H := Samples.sample_content) 1 JUndefined
                   Samples.sample_world))
     = [EFetchContentProperties false true 1 JUndefined]
  (* the template: its data *)
  /\ trace (snd (enrichContent (H := Samples.sample_content) 2 JUndefined
                   Samples.sample_world))
     = [EFetchContentProperties true false 2 JUndefined].
Proof. vm_compute. repeat split; reflexivity. Qed.

End ContentFacts.

(* ===================================================================== *)
(** * The UI schema of the followers group *)
(* ===================================================================== *)

Module UiSchemaFacts.

Import UiSchema StringFacts.

Section Pure.
Context `{UiSchemaRuleEffects}.

(** C6. [buildUiSchema] is a pure function. It always resolves and leaves
    every object of the store as it was; and two invocations resolve to the
    same document exactly when they are given the same i18nScope and
    entities with the same isSharedUpdate: nothing else of the options, the
    context or the store reaches the document. *)
Theorem buildUiSchema_pure :
  (forall (i18nScope : string) (options context : loc) (s : Store),
      exists document,
        buildUiSchema i18nScope options context s = (Resolved document, s))
  /\ (forall (scope1 scope2 : string) (options1 options2 context1 context2 : loc)
            (s1 s2 : Store),
        fst (buildUiSchema scope1 options1 context1 s1)
        = fst (buildUiSchema scope2 options2 context2 s2)
        <-> scope1 = scope2
            /\ lookup_field "isSharedUpdate" (deref s1 options1)
               = lookup_field "isSharedUpdate" (deref s2 options2)).
Proof.
  split.
  - intros i18nScope options context s. eexists. reflexivity.
  - intros scope1 scope2 options1 options2 context1 context2 s1 s2. split.
    + unfold buildUiSchema. cbn [fst]. intros E. simplify_eq.
      split; [|assumption].
      match goal with
      | Hlabel : _ +:+ ".sections.details.label" = _ |- _ =>
          exact (append_inv_tail _ _ _ Hlabel)
      end.
    + intros [-> Eflag]. unfold buildUiSchema. cbn [fst]. now rewrite Eflag.
Qed.

End Pure.

End UiSchemaFacts.

(* ===================================================================== *)
(** * The events filters *)
(* ===================================================================== *)

Module EventsFacts.

Import Events.

(** ** Assignments *)

Lemma writes_refl (J : string -> Prop) (pf : GetEventsParams) : writes J pf pf.
Proof. intros field. now left. Qed.

Lemma writes_trans (J : string -> Prop) (a b c : GetEventsParams) :
  writes J a b -> writes J b c -> writes J a c.
Proof.
  intros Hab Hbc field. destruct (Hbc field) as [E|]; [|now right].
  rewrite E. apply Hab.
Qed.

Lemma writes_insert (J : string -> Prop) (field : string) (v : PredValue)
    (pf : GetEventsParams) :
  J field -> writes J pf (<[field := v]> pf).
Proof.
  intros HJ k. destruct (decide (field = k)) as [<-|Hne]; [now right | left].
  now apply lookup_insert_ne.
Qed.

Lemma writes_mono (J J' : string -> Prop) (a b : GetEventsParams) :
  (forall field, J field -> J' field) -> writes J a b -> writes J' a b.
Proof. intros HJ Hab field. destruct (Hab field); auto. Qed.

Lemma writes_outside (J : string -> Prop) (a b : GetEventsParams) (field : string) :
  writes J a b -> ~ J field -> b !! field = a !! field.
Proof. intros Hab Hn. destruct (Hab field); tauto. Qed.

Section Steps.
Context `{EventsServices}.
Variable filters : list IFilter.
Variable J : string -> Prop.

Lemma assign_if_length_writes (field key : string) (pf : GetEventsParams) :
  (present filters (Strings key) -> J field) ->
  writes J pf
    (assign_if_length field (getOptionalPredicateStringsByKey filters key) pf).
Proof.
  intros HJ. unfold assign_if_length.
  destruct (getOptionalPredicateStringsByKey filters key) as [text|] eqn:E;
    [|apply writes_refl].
  destruct (text =? "") eqn:Et; [apply writes_refl |].
  apply writes_insert, HJ. exists text. split; [exact E |].
  now apply String.eqb_neq.
Qed.

Lemma assign_date_run (field : string) (value : PredValue)
    (pf pf' : GetEventsParams) (clock clock' : nat) :
  assign_date field value pf clock = Resolved (pf', clock') ->
  exists iso,
    date_toISOString value = Some iso
    /\ pf' = <[field := P (Str iso)]> pf /\ clock' = clock.
Proof.
  unfold assign_date. destruct (date_toISOString value) as [iso|];
    [|discriminate].
  intros [= <- <-]. now exists iso.
Qed.

Lemma assign_date_writes (field : string) (value : PredValue)
    (pf pf' : GetEventsParams) (clock clock' : nat) :
  J field ->
  assign_date field value pf clock = Resolved (pf', clock') ->
  writes J pf pf' /\ clock' = clock.
Proof.
  intros HJ Hrun. apply assign_date_run in Hrun as (iso & _ & -> & ->).
  split; [now apply writes_insert | reflexivity].
Qed.

End Steps.

Section Blocks.
Context `{EventsServices}.
Variable filters : list IFilter.

Lemma assign_range_present (rangeKey beforeKey afterKey beforeField afterField : string)
    (range : PredValue) (rest : list PredValue)
    (pf pf' : GetEventsParams) (clock clock' : nat) :
  getPredicateValuesByKey filters rangeKey = range :: rest ->
  assign_range filters rangeKey beforeKey afterKey beforeField afterField pf clock
    = Resolved (pf', clock') ->
  exists to from,
    range_to range = Some to /\ range_from range = Some from
    /\ clock' = clock
    /\ pf' = assign_optional afterField (date_property from)
               (assign_optional beforeField (date_property to) pf).
Proof.
  intros Hrange. unfold assign_range. rewrite Hrange.
  unfold mbind, Eff_bind, date_property.
  destruct (range_to range) as [to|]; [|discriminate].
  destruct (range_from range) as [from|].
  2:{ destruct (prim_truthy to); [|discriminate].
      destruct (assign_date beforeField (P to) pf clock) as [[? ?]|];
        discriminate. }
  intros Hrun. exists to, from. split; [reflexivity|]. split; [reflexivity|].
  destruct (prim_truthy to).
  - destruct (assign_date beforeField (P to) pf clock) as [[pf1 c1]|] eqn:E1;
      [|discriminate].
    apply assign_date_run in E1 as (iso1 & -> & -> & ->).
    destruct (prim_truthy from).
    + apply assign_date_run in Hrun as (iso2 & -> & -> & ->). now split.
    + injection Hrun as <- <-. now split.
  - cbn [mret Eff_ret] in Hrun. 
    destruct (prim_truthy from).
    + apply assign_date_run in Hrun as (iso2 & -> & -> & ->). now split.
    + injection Hrun as <- <-. now split.
Qed.

Lemma assign_range_writes (J : string -> Prop)
    (rangeKey beforeKey afterKey beforeField afterField : string)
    (pf pf' : GetEventsParams) (clock clock' : nat) :
  (getPredicateValuesByKey filters rangeKey <> []
   \/ getPredicateValuesByKey filters beforeKey <> [] -> J beforeField) ->
  (getPredicateValuesByKey filters rangeKey <> []
   \/ getPredicateValuesByKey filters afterKey <> [] -> J afterField) ->
  assign_range filters rangeKey beforeKey afterKey beforeField afterField pf clock
    = Resolved (pf', clock') ->
  writes J pf pf' /\ clock' = clock.
Proof.
  intros Hb Ha Hrun.
  destruct (getPredicateValuesByKey filters rangeKey) as [|range rest] eqn:Hrange.
  - unfold assign_range in Hrun. rewrite Hrange in Hrun.
    unfold mbind, Eff_bind in Hrun.
    destruct (getPredicateValuesByKey filters beforeKey) as [|b ?] eqn:Ebefore.
    + cbn [mret Eff_ret] in Hrun.
      destruct (getPredicateValuesByKey filters afterKey) as [|a ?] eqn:Eafter.
      * injection Hrun as <- <-. split; [apply writes_refl | reflexivity].
      * apply assign_date_writes with (J := J) in Hrun; [exact Hrun |].
        apply Ha. right. discriminate.
    + destruct (assign_date beforeField b pf clock) as [[pf1 c1]|] eqn:E1;
        [|discriminate].
      apply assign_date_writes with (J := J) in E1 as [W1 ->];
        [|apply Hb; right; discriminate].
      destruct (getPredicateValuesByKey filters afterKey) as [|a ?] eqn:Eafter.
      * injection Hrun as <- <-. now split.
      * apply assign_date_writes with (J := J) in Hrun as [W2 ->];
          [|apply Ha; right; discriminate].
        split; [eapply writes_trans; eassumption | reflexivity].
  - destruct (assign_range_present _ _ _ _ _ _ _ _ _ _ _ Hrange Hrun)
      as (to & from & _ & _ & -> & ->).
    split; [|reflexivity].
    assert (J beforeField) by (apply Hb; left; discriminate).
    assert (J afterField) by (apply Ha; left; discriminate).
    apply (writes_trans J _ (assign_optional beforeField (date_property to) pf));
      unfold assign_optional.
    + destruct (date_property to); [now apply writes_insert | apply writes_refl].
    + destruct (date_property from); [now apply writes_insert | apply writes_refl].
Qed.

(** The clock readings of the occurrences. *)
Lemma assign_now_run (field : string) (pf pf' : GetEventsParams) (clock clock' : nat) :
  assign_now field pf clock = Resolved (pf', clock') ->
  pf' = <[field := P (Str (now_toISOString clock))]> pf /\ clock' = S clock.
Proof. unfold assign_now. now intros [= <- <-]. Qed.

Lemma occurrence_case_writes (pf pf' : GetEventsParams) (o : PredValue)
    (clock clock' : nat) :
  occurrence_case pf o clock = Resolved (pf', clock') ->
  writes (fun field => In field (touched o)) pf pf'.
Proof.
  unfold occurrence_case, touched.
  destruct o as [[| | | |o]| | |]; try (intros [= <- <-]; apply writes_refl).
  destruct (o =? "upcoming").
  { intros Hrun. apply assign_now_run in Hrun as [-> _].
    apply writes_insert. simpl; auto. }
  destruct (o =? "past").
  { intros Hrun. apply assign_now_run in Hrun as [-> _].
    apply writes_insert. simpl; auto. }
  destruct (o =? "inProgress"); [|intros [= <- <-]; apply writes_refl].
  unfold mbind, Eff_bind. cbn [assign_now].
  intros [= <- <-].
  apply (writes_trans _ _
           (<["startDateTimeBefore" := P (Str (now_toISOString clock))]> pf));
    apply writes_insert; simpl; auto.
Qed.

Lemma forEach_occurrence_writes (occurrence : list PredValue)
    (pf pf' : GetEventsParams) (clock clock' : nat) :
  forEach_occurrence occurrence pf clock = Resolved (pf', clock') ->
  writes (fun field => exists o, In o occurrence /\ In field (touched o)) pf pf'.
Proof.
  revert pf clock. induction occurrence as [|o rest IH]; intros pf clock.
  - intros [= <- <-]. apply writes_refl.
  - cbn [forEach_occurrence]. unfold mbind, Eff_bind.
    destruct (occurrence_case pf o clock) as [[pf1 c1]|] eqn:E1; [|discriminate].
    intros Hrest. apply occurrence_case_writes in E1. apply IH in Hrest.
    eapply writes_trans.
    + eapply writes_mono; [|exact E1]. intros field Hin. exists o. simpl. auto.
    + eapply writes_mono; [|exact Hrest].
      intros field (o' & Hin & Ht). exists o'. simpl. auto.
Qed.


Lemma assign_notGroups_writes (J : string -> Prop) (requestOptions : JsVal)
    (pf pf' : GetEventsParams) (clock clock' : nat) :
  (getPredicateValuesByKey filters "notGroup" <> []
   \/ present filters (Strings "notReadGroupId") -> J "withoutReadGroups") ->
  (getPredicateValuesByKey filters "notGroup" <> []
   \/ present filters (Strings "notEditGroupId") -> J "withoutEditGroups") ->
  assign_notGroups filters requestOptions pf clock = Resolved (pf', clock') ->
  writes J pf pf' /\ clock' = clock.
Proof.
  intros Hr He. unfold assign_notGroups.
  destruct (getPredicateValuesByKey filters "notGroup") as [|g rest] eqn:Hg.
  - intros [= <- <-]. split; [|reflexivity].
    eapply writes_trans; apply assign_if_length_writes; auto.
  - destruct (searchGroups _ _ requestOptions) as [results|reason];
      [|discriminate].
    destruct (fold_left _ results (Some ([], [])))
      as [[notReadGroupIds notEditGroupIds]|]; [|discriminate].
    intros [= <- <-]. split; [|reflexivity].
    assert (J "withoutReadGroups") by (apply Hr; left; discriminate).
    assert (J "withoutEditGroups") by (apply He; left; discriminate).
    destruct notReadGroupIds, notEditGroupIds;
      first [ apply writes_refl
            | now apply writes_insert
            | (eapply writes_trans; [|now apply writes_insert]);
              now apply writes_insert ].
Qed.

Lemma assign_first_writes (J : string -> Prop) (field key : string)
    (pf : GetEventsParams) :
  (present filters (Values key) -> J field) ->
  writes J pf (assign_first field (getPredicateValuesByKey filters key) pf).
Proof.
  intros HJ. unfold assign_first.
  destruct (getPredicateValuesByKey filters key) as [|v rest] eqn:E;
    [apply writes_refl |].
  apply writes_insert, HJ. unfold present. rewrite E. discriminate.
Qed.

(** A property of the first part whose predicate is present. *)
Lemma touched_date_field (o : PredValue) (field : string) :
  In field (touched o) -> In field date_fields.
Proof.
  unfold touched, date_fields. destruct o as [[| | | |o]| | |]; try (intros []).
  destruct (o =? "upcoming"); [simpl; tauto |].
  destruct (o =? "past"); [simpl; tauto |].
  destruct (o =? "inProgress"); [simpl; tauto | intros []].
Qed.

(** The occurrence that assigns a date property. *)
Lemma touched_by (o : PredValue) (field : string) :
  In field (touched o) ->
  o = P (Str (if field =? "startDateTimeAfter" then "upcoming"
              else if field =? "endDateTimeBefore" then "past"
              else "inProgress")).
Proof.
  unfold touched. destruct o as [[| | | |o]| | |]; try (intros []).
  destruct (o =? "upcoming") eqn:E1.
  { apply String.eqb_eq in E1. subst o. intros [<-|[]]. reflexivity. }
  destruct (o =? "past") eqn:E2.
  { apply String.eqb_eq in E2. subst o. intros [<-|[]]. reflexivity. }
  destruct (o =? "inProgress") eqn:E3; [|intros []].
  apply String.eqb_eq in E3. subst o. intros [<-|[<-|[]]]; reflexivity.
Qed.

Lemma forEach_occurrence_keeps (occurrence : list PredValue)
    (pf pf' : GetEventsParams) (clock clock' : nat) (field : string) :
  forEach_occurrence occurrence pf clock = Resolved (pf', clock') ->
  ~ In (P (Str (if field =? "startDateTimeAfter" then "upcoming"
                else if field =? "endDateTimeBefore" then "past"
                else "inProgress"))) occurrence ->
  pf' !! field = pf !! field.
Proof.
  intros Hrun Hnot. apply forEach_occurrence_writes in Hrun.
  apply (writes_outside _ _ _ _ Hrun).
  intros (o & Hin & Ht). apply touched_by in Ht. subst o. contradiction.
Qed.

Lemma lookup_assign_optional (field k : string) (value : option PredValue)
    (pf : GetEventsParams) :
  assign_optional field value pf !! k
  = if decide (field = k)
    then match value with Some v => Some v | None => pf !! k end
    else pf !! k.
Proof.
  unfold assign_optional. destruct value as [v|].
  - rewrite lookup_insert. now destruct (decide (field = k)).
  - now destruct (decide (field = k)).
Qed.

End Blocks.

Ltac justified_field :=
  unfold justified;
  match goal with
  | |- Exists _ ?l => let l' := eval vm_compute in l in change l with l'
  end;
  first [ apply Exists_cons_hd; eassumption
        | apply Exists_cons_tl, Exists_cons_hd; eassumption
        | apply Exists_cons_tl, Exists_cons_tl, Exists_cons_hd; eassumption ].

Ltac plain_field :=
  split; [justified_field | simpl; intuition discriminate].

Ltac plain_writes :=
  lazymatch goal with
  | |- writes _ ?a ?a => apply writes_refl
  | |- writes ?J ?a (assign_if_length _ _ ?b) =>
      apply (writes_trans J a b);
      [plain_writes | apply assign_if_length_writes; intros ?; plain_field]
  | |- writes ?J ?a (assign_first _ _ ?b) =>
      apply (writes_trans J a b);
      [plain_writes | apply assign_first_writes; intros ?; plain_field]
  | |- writes ?J ?a (<[_ := _]> ?b) =>
      apply (writes_trans J a b);
      [plain_writes | apply writes_insert; plain_field]
  | |- _ => assumption
  end.


Section Phases.
Context `{EventsServices}.
Variable filters : list IFilter.

Lemma processFilters_phases (requestOptions : JsVal) (clock clock' : nat)
    (result : GetEventsParams) :
  processFilters filters requestOptions clock = Resolved (result, clock') ->
  exists pf1 pf2 pf3,
    writes (plain filters) ∅ pf1
    /\ assign_range filters "startDateRange" "startDateBefore" "startDateAfter"
         "startDateTimeBefore" "startDateTimeAfter"
         (<["status" :=
              P (Str match getOptionalPredicateStringsByKey filters "status" with
                     | Some (String _ _ as status) => status
                     | _ => "planned,canceled"
                     end)]> pf1) clock
       = Resolved (pf2, clock)
    /\ assign_range filters "endDateRange" "endDateBefore" "endDateAfter"
         "endDateTimeBefore" "endDateTimeAfter" pf2 clock
       = Resolved (pf3, clock)
    /\ forEach_occurrence (getPredicateValuesByKey filters "occurrence") pf3 clock
       = Resolved (result, clock').
Proof.
  unfold processFilters. cbv zeta. unfold mbind, Eff_bind.
  (* canEdit *)
  set (pf0 := assign_if_length "access" _ ∅).
  assert (W0 : writes (plain filters) ∅ pf0) by (subst pf0; plain_writes).
  clearbody pf0.
  match goal with
  | |- match ?m clock with Resolved _ => _ | Rejected _ => _ end = _ -> _ =>
      destruct (m clock) as [[pfa ca]|] eqn:Ea; [|discriminate]
  end.
  assert (Wa : writes (plain filters) ∅ pfa /\ ca = clock).
  { destruct (getPredicateValuesByKey filters "canEdit") as [|v rest] eqn:Ev.
    - injection Ea as <- <-. now split.
    - destruct (method_toString v); [|discriminate].
      injection Ea as <- <-. split; [|reflexivity].
      assert (present filters (Values "canEdit"))
        by (unfold present; rewrite Ev; discriminate).
      plain_writes. }
  destruct Wa as [Wa ->]. clear Ea W0 pf0.
  (* the groups *)
  match goal with
  | |- match assign_notGroups _ _ ?pf _ with _ => _ end = _ -> _ =>
      set (pfb := pf)
  end.
  assert (Wb : writes (plain filters) ∅ pfb).
  { subst pfb.
    destruct (getOptionalPredicateStringsByKey filters "group")
      as [[|ch groupIds]|] eqn:Eg; try plain_writes.
    assert (present filters (Strings "group"))
      by (exists (String ch groupIds); split; [exact Eg | discriminate]).
    plain_writes. }
  clearbody pfb.
  destruct (assign_notGroups filters requestOptions pfb clock)
    as [[pfc cc]|] eqn:Ec; [|discriminate].
  apply assign_notGroups_writes with (J := plain filters) in Ec as [Wc ->];
    try (intros [Hv|Hs]; plain_field).
  set (pf1 := assign_if_length "createdByIds" _ _).
  assert (W1 : writes (plain filters) ∅ pf1).
  { subst pf1. apply (writes_trans _ _ pfb); [exact Wb |].
    apply (writes_trans _ _ pfc); [exact Wc |]. plain_writes. }
  clearbody pf1.
  change (join "," (map toLowerCase [EventStatus.PLANNED; EventStatus.CANCELED]))
    with "planned,canceled".
  destruct (assign_range filters "startDateRange" _ _ _ _ _ clock)
    as [[pf2 c2]|] eqn:E2; [|discriminate].
  pose proof (assign_range_writes filters (fun _ => True) _ _ _ _ _ _ _ _ _
                (fun _ => I) (fun _ => I) E2) as [_ ->].
  destruct (assign_range filters "endDateRange" _ _ _ _ pf2 clock)
    as [[pf3 c3]|] eqn:E3; [|discriminate].
  pose proof (assign_range_writes filters (fun _ => True) _ _ _ _ _ _ _ _ _
                (fun _ => I) (fun _ => I) E3) as [_ ->].
  intros Hocc. exists pf1, pf2, pf3. auto.
Qed.

(** Before the dates are assigned, no date property is set. *)
Lemma plain_no_date (pf1 : GetEventsParams) (status : PredValue) (field : string) :
  writes (plain filters) ∅ pf1 -> In field date_fields ->
  <["status" := status]> pf1 !! field = None.
Proof.
  intros W Hin. rewrite lookup_insert_ne.
  - rewrite (writes_outside _ _ _ _ W); [apply lookup_empty |].
    intros [_ Hn]. apply Hn. now right.
  - intros <-. simpl in Hin. intuition discriminate.
Qed.

End Phases.

(** Read the filters [filters'] through the helpers as [filters], under a
    key about which they agree. *)
Ltac same_key Hsame key :=
  let Hv := fresh in
  let Hs := fresh in
  destruct (Hsame key ltac:(intros [E|[E|[]]]; discriminate E)) as [Hv Hs];
  rewrite ?Hv, ?Hs; clear Hv Hs.

Ltac same_keys Hsame :=
  same_key Hsame "access"; same_key Hsame "canEdit";
  same_key Hsame "entityId"; same_key Hsame "entityType";
  same_key Hsame "id"; same_key Hsame "term"; same_key Hsame "orgId";
  same_key Hsame "categories"; same_key Hsame "tags";
  same_key Hsame "group"; same_key Hsame "readGroupId";
  same_key Hsame "editGroupId"; same_key Hsame "notGroup";
  same_key Hsame "notReadGroupId"; same_key Hsame "notEditGroupId";
  same_key Hsame "attendanceType"; same_key Hsame "owner";
  same_key Hsame "status"; same_key Hsame "startDateRange";
  same_key Hsame "endDateRange"; same_key Hsame "occurrence".

Section Ignored.
Context `{EventsServices}.

(** With a start date range, the predicates startDateBefore and
    startDateAfter are not read. *)
Lemma processFilters_ignores_start (filters filters' : list IFilter)
    (requestOptions : JsVal) (clock : nat) :
  getPredicateValuesByKey filters "startDateRange" <> [] ->
  same_except ["startDateBefore"; "startDateAfter"] filters filters' ->
  processFilters filters' requestOptions clock
  = processFilters filters requestOptions clock.
Proof.
  intros Hrange Hsame.
  unfold processFilters, assign_notGroups, assign_range.
  same_keys Hsame.
  same_key Hsame "endDateBefore"; same_key Hsame "endDateAfter".
  destruct (getPredicateValuesByKey filters "startDateRange");
    [contradiction | reflexivity].
Qed.

Lemma processFilters_ignores_end (filters filters' : list IFilter)
    (requestOptions : JsVal) (clock : nat) :
  getPredicateValuesByKey filters "endDateRange" <> [] ->
  same_except ["endDateBefore"; "endDateAfter"] filters filters' ->
  processFilters filters' requestOptions clock
  = processFilters filters requestOptions clock.
Proof.
  intros Hrange Hsame.
  unfold processFilters, assign_notGroups, assign_range.
  same_keys Hsame.
  same_key Hsame "startDateBefore"; same_key Hsame "startDateAfter".
  destruct (getPredicateValuesByKey filters "endDateRange");
    [contradiction | reflexivity].
Qed.

End Ignored.

Section Claims.
Context `{EventsServices}.

(** C9. The result of [processFilters] always has a status: the string of
    the status predicate when the filters have one that is not empty, and
    exactly "planned,canceled" otherwise. Every other property of the
    result is set only when one of the predicates it is computed from is
    present. *)
Theorem processFilters_status (filters : list IFilter) (requestOptions : JsVal)
    (clock clock' : nat) (result : GetEventsParams) :
  processFilters filters requestOptions clock = Resolved (result, clock') ->
  (forall text,
      getOptionalPredicateStringsByKey filters "status" = Some text ->
      text <> "" -> result !! "status" = Some (P (Str text)))
  /\ (getOptionalPredicateStringsByKey filters "status" = None
      \/ getOptionalPredicateStringsByKey filters "status" = Some "" ->
      result !! "status" = Some (P (Str "planned,canceled")))
  /\ (forall field,
        field <> "status" -> is_Some (result !! field) ->
        justified filters field).
Proof.
  intros Hrun.
  apply processFilters_phases in Hrun as (pf1 & pf2 & pf3 & W1 & E2 & E3 & Eo).
  set (status := P (Str _)) in E2.
  assert (Hdates : forall J : string -> Prop,
             (forall field, In field date_fields ->
                present filters (Values
                  (if field =? "startDateTimeBefore" then "startDateRange"
                   else if field =? "startDateTimeAfter" then "startDateRange"
                   else "endDateRange"))
                \/ present filters (Values
                  (if field =? "startDateTimeBefore" then "startDateBefore"
                   else if field =? "startDateTimeAfter" then "startDateAfter"
                   else if field =? "endDateTimeBefore" then "endDateBefore"
                   else "endDateAfter"))
                \/ present filters (Values "occurrence") -> J field) ->
             writes J (<["status" := status]> pf1) result).
  { intros J HJ.
    apply (assign_range_writes filters J) in E2 as [W2 _].
    2:{ intros [Hp|Hp]; apply HJ; simpl; auto. }
    2:{ intros [Hp|Hp]; apply HJ; simpl; auto. }
    apply (assign_range_writes filters J) in E3 as [W3 _].
    2:{ intros [Hp|Hp]; apply HJ; simpl; auto. }
    2:{ intros [Hp|Hp]; apply HJ; simpl; auto. }
    apply forEach_occurrence_writes in Eo.
    apply (writes_trans _ _ pf2); [exact W2 |].
    apply (writes_trans _ _ pf3); [exact W3 |].
    eapply writes_mono; [|exact Eo].
    intros field (o & Hin & Ht). apply HJ.
    - eapply touched_date_field; eassumption.
    - right. right. unfold present. intros E. rewrite E in Hin. destruct Hin. }
  assert (Hstatus : result !! "status" = Some status).
  { rewrite (writes_outside _ _ _ _ (Hdates (fun f => In f date_fields)
                                       (fun f Hin _ => Hin))).
    - apply lookup_insert_eq.
    - simpl. intuition discriminate. }
  split; [|split].
  - intros text Htext Hne. rewrite Hstatus. subst status. rewrite Htext.
    destruct text; [congruence | reflexivity].
  - intros [E|E]; rewrite Hstatus; subst status; now rewrite E.
  - intros field Hfield Hset.
    assert (W : writes (fun f => f = "status" \/ justified filters f) ∅ result).
    { apply (writes_trans _ _ pf1).
      { eapply writes_mono; [|exact W1]. intros f [Hj _]. now right. }
      apply (writes_trans _ _ (<["status" := status]> pf1)).
      { apply writes_insert. now left. }
      apply Hdates. intros f Hin Hp. right.
      simpl in Hin.
      destruct Hin as [<-|[<-|[<-|[<-|[]]]]]; cbn [String.eqb Ascii.eqb Bool.eqb] in Hp;
        destruct Hp as [Hp|[Hp|Hp]]; justified_field. }
    destruct (W field) as [E|[E|E]]; [|contradiction | exact E].
    rewrite E, lookup_empty in Hset. now destruct Hset.
Qed.

End Claims.

Section Ranges.
Context `{EventsServices}.

(** What the block of a date range leaves in its two properties. *)
Lemma assign_range_values (filters : list IFilter)
    (rangeKey beforeKey afterKey beforeField afterField : string)
    (range : PredValue) (rest : list PredValue)
    (pf pf' : GetEventsParams) (clock clock' : nat) :
  beforeField <> afterField ->
  pf !! beforeField = None -> pf !! afterField = None ->
  getPredicateValuesByKey filters rangeKey = range :: rest ->
  assign_range filters rangeKey beforeKey afterKey beforeField afterField pf clock
    = Resolved (pf', clock') ->
  exists to from,
    range_to range = Some to /\ range_from range = Some from
    /\ pf' !! beforeField = date_property to
    /\ pf' !! afterField = date_property from.
Proof.
  intros Hne Hb Ha Hrange Hrun.
  destruct (assign_range_present filters _ _ _ _ _ _ _ _ _ _ _ Hrange Hrun)
    as (to & from & Hto & Hfrom & _ & ->).
  exists to, from. rewrite !lookup_assign_optional.
  destruct (decide (afterField = beforeField)) as [E|_]; [congruence |].
  destruct (decide (beforeField = beforeField)) as [_|]; [|congruence].
  destruct (decide (afterField = afterField)) as [_|]; [|congruence].
  destruct (decide (beforeField = afterField)) as [E|_]; [congruence |].
  rewrite Hb, Ha.
  repeat split; try assumption.
  - now destruct (date_property to).
  - now destruct (date_property from).
Qed.

(** C3, amended. With a startDateRange predicate, startDateTimeBefore and
    startDateTimeAfter come from the [to] and [from] of the range, each set
    only when present, unless an occurrence predicate assigns that property
    afterwards ("inProgress" the former, "upcoming" the latter); and the
    predicates startDateBefore and startDateAfter are ignored. The same
    holds for endDateRange, endDateTimeBefore ("past"), endDateTimeAfter
    ("inProgress"), endDateBefore and endDateAfter. *)
Theorem processFilters_date_ranges (filters : list IFilter)
    (requestOptions : JsVal) (clock clock' : nat) (result : GetEventsParams) :
  processFilters filters requestOptions clock = Resolved (result, clock') ->
  let occurrence := getPredicateValuesByKey filters "occurrence" in
  (forall range rest,
      getPredicateValuesByKey filters "startDateRange" = range :: rest ->
      (exists to from,
          range_to range = Some to /\ range_from range = Some from
          /\ (~ In (P (Str "inProgress")) occurrence ->
              result !! "startDateTimeBefore" = date_property to)
          /\ (~ In (P (Str "upcoming")) occurrence ->
              result !! "startDateTimeAfter" = date_property from))
      /\ (forall filters',
            same_except ["startDateBefore"; "startDateAfter"] filters filters' ->
            processFilters filters' requestOptions clock
            = Resolved (result, clock')))
  /\ (forall range rest,
        getPredicateValuesByKey filters "endDateRange" = range :: rest ->
        (exists to from,
            range_to range = Some to /\ range_from range = Some from
            /\ (~ In (P (Str "past")) occurrence ->
                result !! "endDateTimeBefore" = date_property to)
            /\ (~ In (P (Str "inProgress")) occurrence ->
                result !! "endDateTimeAfter" = date_property from))
        /\ (forall filters',
              same_except ["endDateBefore"; "endDateAfter"] filters filters' ->
              processFilters filters' requestOptions clock
              = Resolved (result, clock'))).
Proof.
  intros Hrun occurrence.
  pose proof Hrun as Hphases.
  apply processFilters_phases in Hphases
    as (pf1 & pf2 & pf3 & W1 & E2 & E3 & Eo).
  set (status := P (Str _)) in E2.
  split; intros range rest Hrange; (split; [|intros filters' Hsame]).
  - (* the start range *)
    assert (Hne : "startDateTimeBefore" <> "startDateTimeAfter") by discriminate.
    assert (Hb0 : <["status" := status]> pf1 !! "startDateTimeBefore" = None)
      by (apply (plain_no_date filters); [exact W1 | simpl; auto]).
    assert (Ha0 : <["status" := status]> pf1 !! "startDateTimeAfter" = None)
      by (apply (plain_no_date filters); [exact W1 | simpl; auto]).
    destruct (assign_range_values filters _ _ _ _ _ _ _ _ _ _ _
                Hne Hb0 Ha0 Hrange E2)
      as (to & from & Hto & Hfrom & Hb & Ha).
    exists to, from. split; [exact Hto|]. split; [exact Hfrom|].
    apply (assign_range_writes filters
             (fun f => In f ["endDateTimeBefore"; "endDateTimeAfter"]))
      in E3 as [W3 _]; [| simpl; auto | simpl; auto].
    split; intros Hocc.
    + rewrite (forEach_occurrence_keeps _ _ _ _ _ "startDateTimeBefore" Eo Hocc).
      rewrite (writes_outside _ _ _ _ W3); [exact Hb |].
      simpl. intuition discriminate.
    + rewrite (forEach_occurrence_keeps _ _ _ _ _ "startDateTimeAfter" Eo Hocc).
      rewrite (writes_outside _ _ _ _ W3); [exact Ha |].
      simpl. intuition discriminate.
  - rewrite <- Hrun. apply processFilters_ignores_start; [|exact Hsame].
    rewrite Hrange. discriminate.
  - (* the end range *)
    apply (assign_range_writes filters
             (fun f => In f ["startDateTimeBefore"; "startDateTimeAfter"]))
      in E2 as [W2 _]; [| simpl; auto | simpl; auto].
    assert (Hb0 : pf2 !! "endDateTimeBefore" = None).
    { rewrite (writes_outside _ _ _ _ W2).
      - apply (plain_no_date filters pf1 status _ W1). simpl; auto.
      - simpl. intuition discriminate. }
    assert (Ha0 : pf2 !! "endDateTimeAfter" = None).
    { rewrite (writes_outside _ _ _ _ W2).
      - apply (plain_no_date filters pf1 status _ W1). simpl; auto.
      - simpl. intuition discriminate. }
    assert (Hne : "endDateTimeBefore" <> "endDateTimeAfter") by discriminate.
    destruct (assign_range_values filters _ _ _ _ _ _ _ _ _ _ _
                Hne Hb0 Ha0 Hrange E3)
      as (to & from & Hto & Hfrom & Hb & Ha).
    exists to, from. split; [exact Hto|]. split; [exact Hfrom|].
    split; intros Hocc.
    + now rewrite (forEach_occurrence_keeps _ _ _ _ _ "endDateTimeBefore" Eo Hocc).
    + now rewrite (forEach_occurrence_keeps _ _ _ _ _ "endDateTimeAfter" Eo Hocc).
  - rewrite <- Hrun. apply processFilters_ignores_end; [|exact Hsame].
    rewrite Hrange. discriminate.
Qed.

End Ranges.

(** ** The sample filters *)

Lemma sample_filters_run :
  processFilters (H := Samples.sample_events) Samples.sample_filters JUndefined 0
  = Resolved (Samples.sample_result, 0).
Proof. vm_compute. reflexivity. Qed.

Lemma sample_upcoming_run :
  processFilters (H := Samples.sample_events) Samples.sample_upcoming JUndefined 0
  = Resolved (Samples.sample_upcoming_result, 1).
Proof. vm_compute. reflexivity. Qed.

(** C3, as stated, fails when an occurrence is given: the start of the
    range, 2026-01-01, is replaced by the time of the call. *)
Lemma processFilters_occurrence_overrides :
  getPredicateValuesByKey (EventsServices := Samples.sample_events)
    Samples.sample_upcoming "startDateRange"
  = [PRange (Str "2026-01-01") (Str "2026-02-01")]
  /\ processFilters (H := Samples.sample_events) Samples.sample_upcoming
       JUndefined 0 = Resolved (Samples.sample_upcoming_result, 1)
  /\ Samples.sample_upcoming_result !! "startDateTimeAfter"
     = Some (P (Str "2026-11-03T09:00:00.000Z"))
  /\ Samples.sample_upcoming_result !! "startDateTimeAfter"
     <> date_property (H := Samples.sample_events) (Str "2026-01-01").
Proof.
  split; [vm_compute; reflexivity |].
  split; [exact sample_upcoming_run |].
  split; [vm_compute; reflexivity | vm_compute; discriminate].
Qed.

Lemma processFilters_date_ranges_witness :
  Samples.sample_result !! "startDateTimeBefore"
  = Some (P (Str "2026-02-01T00:00:00.000Z"))
  /\ Samples.sample_result !! "startDateTimeAfter"
     = Some (P (Str "2026-01-01T00:00:00.000Z")).
Proof.
  destruct (proj1 (processFilters_date_ranges (H := Samples.sample_events)
                     _ _ _ _ _ sample_filters_run)
              (PRange (Str "2026-01-01") (Str "2026-02-01")) [] eq_refl)
    as [(to & from & Hto & Hfrom & Hb & Ha) _].
  injection Hto as <-. injection Hfrom as <-.
  split; [apply Hb | apply Ha]; intros [].
Defined.

Lemma processFilters_status_witness :
  Samples.sample_result !! "status" = Some (P (Str "planned,canceled")).
Proof.
  apply (proj1 (proj2 (processFilters_status (H := Samples.sample_events)
                         _ _ _ _ _ sample_filters_run))).
  left. reflexivity.
Defined.

End EventsFacts.

(* ===================================================================== *)
(** * Further facts about the content *)
(* ===================================================================== *)

Module ContentExtras.

Import Content Enrichment ContentFacts ContentShape.

(** ** Which calls [getContentById] makes *)


Section Calls.
Context `{ContentServices}.

(** [enrichContent] records at most one call, the fetch of properties. *)
Lemma enrichContent_calls (content : loc) (options : JsVal) (w : World) :
  exists events,
    trace (snd (enrichContent content options w)) = trace w ++ events
    /\ Forall is_fetch events.
Proof.
  unfold enrichContent, bind, resolve, call, sync.
  destruct (keys_length _ =? 0)%nat.
  - exists []. destruct (_enrichDates content (store w)).
    cbn [snd trace]. split; [now rewrite app_nil_r | constructor].
  - eexists. split.
    + destruct (_fetchContentProperties _ content options (store w))
        as [[c|e] s1]; cbn [snd trace store]; [|reflexivity].
      destruct (_enrichDates c s1). reflexivity.
    + repeat constructor.
Qed.

(** X1. With [isPortal], [getContentById] asks the portal only, for the
    item id parsed from the identifier: the Hub index is never asked, the
    only other calls are fetches of properties, and a rejection of the
    portal is the outcome, with no other attempt. *)
Theorem getContentById_portal_only (identifier : string) (options : JsVal)
    (w : World) :
  options_isPortal options = true ->
  let itemId := parseDatasetId_itemId identifier in
  let outcome := getContentById identifier options w in
  (exists events,
      trace (snd outcome)
      = trace w ++ EGetContentFromPortal itemId options :: events
      /\ Forall is_fetch events)
  /\ (forall e s1,
        getContentFromPortal itemId options (store w) = (Rejected e, s1) ->
        outcome
        = (Rejected e,
           mkWorld s1 (trace w ++ [EGetContentFromPortal itemId options]))).
Proof.
  intros Hportal itemId outcome. subst outcome.
  unfold getContentById. rewrite Hportal. fold itemId.
  unfold bind, call. split.
  - destruct (getContentFromPortal itemId options (store w)) as [[c|e] s1].
    + destruct (enrichContent_calls c options
                  (mkWorld s1 (trace w ++ [EGetContentFromPortal itemId options])))
        as (events & Htrace & Hfetch).
      exists events. rewrite Htrace. cbn [trace].
      split; [now rewrite <- app_assoc | exact Hfetch].
    + exists []. cbn [snd trace]. split; [reflexivity | constructor].
  - intros e s1 Hrej. now rewrite Hrej.
Qed.

(** X2. Without [isPortal], [getContentById] asks the Hub index first,
    with the identifier as given; when the index has the content, that
    content is enriched and the portal is never asked. *)
Theorem getContentById_index_first (identifier : string) (options : JsVal)
    (w : World) (content : loc) (s1 : Store) :
  options_isPortal options = false ->
  getContentFromHub identifier options (store w) = (Resolved content, s1) ->
  let w1 := mkWorld s1 (trace w ++ [EGetContentFromHub identifier options]) in
  getContentById identifier options w = enrichContent content options w1
  /\ exists events,
       trace (snd (getContentById identifier options w))
       = trace w ++ EGetContentFromHub identifier options :: events
       /\ Forall is_fetch events.
Proof.
  intros Hportal Hhub w1.
  assert (E : getContentById identifier options w = enrichContent content options w1).
  { unfold getContentById, bind, catch, call. now rewrite Hportal, Hhub. }
  split; [exact E |]. rewrite E.
  destruct (enrichContent_calls content options w1) as (events & Htrace & Hfetch).
  exists events. rewrite Htrace. subst w1. cbn [trace].
  split; [now rewrite <- app_assoc | exact Hfetch].
Qed.

End Calls.

Lemma getContentById_portal_only_witness :
  exists events,
    trace (snd (getContentById (H := Samples.sample_content) "c0de_3"
                  (JObj [("isPortal", JBool true)]) Samples.sample_world))
    = trace Samples.sample_world
        ++ EGetContentFromPortal "c0de" (JObj [("isPortal", JBool true)])
           :: events
    /\ Forall is_fetch events.
Proof.
  exact (proj1 (getContentById_portal_only (H := Samples.sample_content)
                  "c0de_3" (JObj [("isPortal", JBool true)])
                  Samples.sample_world eq_refl)).
Defined.

Lemma getContentById_index_first_witness :
  getContentById (H := Samples.sample_content) "8d1e_0" JUndefined
    Samples.sample_world
  = enrichContent (H := Samples.sample_content) 0 JUndefined
      (mkWorld Samples.sample_store [EGetContentFromHub "8d1e_0" JUndefined]).
Proof.
  exact (proj1 (getContentById_index_first (H := Samples.sample_content)
                  "8d1e_0" JUndefined Samples.sample_world 0
                  Samples.sample_store eq_refl eq_refl)).
Defined.


(** ** What [_enrichDates] writes *)


Lemma enriched_other (o : Obj) (k : string) :
  ~ In k written_properties ->
  lookup_field k (enriched o) = lookup_field k o.
Proof.
  intros Hk. unfold enriched, override. cbv zeta.
  repeat match goal with
         | |- context [if truthy ?v then _ else _] => destruct (truthy v)
         end;
    rewrite ?lookup_field_set_field_ne; try reflexivity;
    intros ->; apply Hk; simpl; tauto.
Qed.

(** X3. [_enrichDates] writes at most five properties of the new content,
    updateFrequency, updatedDate, updatedDateSource, publishedDate and
    publishedDateSource: every other property is the one of the content
    given. *)
Theorem _enrichDates_other_properties (content : loc) (s : Store) (k : string) :
  ~ In k written_properties ->
  lookup_field k (deref (snd (_enrichDates content s)) (fst (_enrichDates content s)))
  = lookup_field k (deref s content).
Proof.
  intros Hk. rewrite _enrichDates_clone. cbn [fst snd].
  rewrite deref_alloc. now apply enriched_other.
Qed.

Lemma set_field_same (k : string) (v : JsVal) (o : Obj) :
  In k (map fst o) -> lookup_field k o = v -> set_field k v o = o.
Proof.
  induction o as [|[k0 v0] rest IH]; simpl; [intros [] |].
  destruct (k =? k0) eqn:E.
  - apply String.eqb_eq in E. intros _ ->. now subst.
  - intros [Hk|Hin] Hv.
    + apply String.eqb_neq in E. congruence.
    + now rewrite IH.
Qed.

Lemma has_set_field (k : string) (v : JsVal) (o : Obj) :
  In k (map fst (set_field k v o)).
Proof.
  induction o as [|[k0 v0] rest IH]; simpl; [now left |].
  destruct (k =? k0) eqn:E; simpl; auto.
Qed.

Lemma has_set_field_other (k k' : string) (v : JsVal) (o : Obj) :
  In k (map fst o) -> In k (map fst (set_field k' v o)).
Proof.
  induction o as [|[k0 v0] rest IH]; simpl; [intros [] |].
  destruct (k' =? k0) eqn:E; simpl.
  - apply String.eqb_eq in E. subst k0. tauto.
  - intros [Hk|Hin]; auto.
Qed.

(** The paths that [_enrichDates] reads do not see what it writes. *)
Lemma enriched_paths (o : Obj) (path : string) :
  match split "." path with
  | seg :: _ => negb (existsb (String.eqb seg) written_properties)
  | [] => false
  end = true ->
  getProp (JObj (enriched o)) path = getProp (JObj o) path.
Proof.
  intros Hpath. unfold enriched, override. cbv zeta.
  assert (Hset : forall k v o',
             In k written_properties ->
             getProp (JObj (set_field k v o')) path = getProp (JObj o') path).
  { intros k v o' Hk. apply path_set_field.
    destruct (split "." path) as [|seg rest]; [discriminate |].
    apply negb_true_iff in Hpath. apply negb_true_iff.
    destruct (seg =? k) eqn:E; [|reflexivity].
    apply String.eqb_eq in E. subst seg.
    rewrite <- Hpath. symmetry. apply existsb_exists. exists k.
    split; [exact Hk | apply String.eqb_refl]. }
  repeat match goal with
         | |- context [if truthy ?v then _ else _] => destruct (truthy v)
         end;
    rewrite ?Hset by (simpl; tauto); reflexivity.
Qed.

Ltac has_field :=
  first [ apply has_set_field | apply has_set_field_other; has_field ].

Ltac field_value :=
  repeat first [ rewrite lookup_field_set_field_eq
               | rewrite lookup_field_set_field_ne by discriminate ];
  reflexivity.

Lemma enriched_idempotent (o : Obj) : enriched (enriched o) = enriched o.
Proof.
  unfold enriched at 1. cbv zeta.
  rewrite !enriched_paths by (vm_compute; reflexivity).
  unfold enriched, override. cbv zeta.
  repeat match goal with
         | |- context [if truthy ?v then _ else _] => destruct (truthy v)
         end;
    repeat (rewrite set_field_same; [ | has_field | field_value ]);
    reflexivity.
Qed.

(** X4. [_enrichDates] is idempotent: enriching the enriched content again
    gives a content with the same properties in the same order. *)
Theorem _enrichDates_idempotent (content : loc) (s : Store) :
  let once := _enrichDates content s in
  let twice := _enrichDates (fst once) (snd once) in
  deref (snd twice) (fst twice) = deref (snd once) (fst once).
Proof.
  cbv zeta. rewrite !_enrichDates_clone. cbn [fst snd].
  rewrite !deref_alloc. apply enriched_idempotent.
Qed.


(** ** A code that the table does not know *)

Lemma lookup_field_absent (k : string) (o : Obj) :
  ~ In k (map fst o) -> lookup_field k o = JUndefined.
Proof.
  induction o as [|[k0 v0] rest IH]; simpl; [reflexivity |].
  intros Hn. destruct (k =? k0) eqn:E.
  - apply String.eqb_eq in E. subst k0. exfalso. apply Hn. now left.
  - apply IH. intros Hin. apply Hn. now right.
Qed.

Lemma frequency_of_unlisted (code : string) :
  ~ In code (map fst frequency_codes) ->
  frequency_of (JStr code) = Object_prototype code.
Proof.
  intros Hunknown. unfold frequency_of. cbn [to_key].
  replace (existsb (String.eqb code) (map fst frequency_codes)) with false;
    [reflexivity |].
  symmetry. apply not_true_is_false. intros Hex.
  apply existsb_exists in Hex as (c & Hin & Hc).
  apply String.eqb_eq in Hc. subst c. contradiction.
Qed.

(** X5. A maintenance-frequency code of the metadata that the table of
    frequencies does not know still replaces the update frequency, with
    what the table, an object of the language, answers at that key: the
    enriched content has the property updateFrequency, and it is undefined
    unless the code is the name of a member that objects inherit
    ("constructor", "toString", ...), in which case it is that member. *)
Theorem _enrichDates_unknown_code (content : loc) (s : Store) (code : string) :
  getValueFromMetadata (deref s content) updateFrequency = JStr code ->
  code <> "" ->
  ~ In code (map fst frequency_codes) ->
  let enriched_content :=
    deref (snd (_enrichDates content s)) (fst (_enrichDates content s)) in
  lookup_field "updateFrequency" enriched_content = Object_prototype code
  /\ In "updateFrequency" (map fst enriched_content)
  /\ (code <> "__proto__" -> ~ In code (map fst Object_prototype_members) ->
      lookup_field "updateFrequency" enriched_content = JUndefined).
Proof.
  intros Hcode Hne Hunknown. cbv zeta.
  rewrite _enrichDates_clone. cbn [fst snd]. rewrite deref_alloc.
  rewrite getValueFromMetadata_path in Hcode. cbn [getMetadataPath] in Hcode.
  unfold enriched, override. cbv zeta. rewrite Hcode.
  assert (Ht : truthy (JStr code) = true)
    by (simpl; now rewrite (proj2 (String.eqb_neq code "") Hne)).
  rewrite Ht, (frequency_of_unlisted code Hunknown).
  assert (Hother : code <> "__proto__" ->
                   ~ In code (map fst Object_prototype_members) ->
                   Object_prototype code = JUndefined).
  { intros Hproto Hmember. unfold Object_prototype.
    rewrite (proj2 (String.eqb_neq code "__proto__") Hproto).
    now apply lookup_field_absent. }
  generalize dependent (Object_prototype code). intros inherited Hother.
  repeat match goal with
         | |- context [if truthy ?v then _ else _] => destruct (truthy v)
         end;
    (split; [field_value | split; [has_field |]]);
    intros Hproto Hmember; rewrite <- (Hother Hproto Hmember); field_value.
Qed.

Lemma _enrichDates_unknown_code_witness :
  lookup_field "updateFrequency" Scenarios.sample_odd_code = JStr "weekly"
  /\ lookup_field "updateFrequency"
       (deref (snd (_enrichDates 0 [Scenarios.sample_odd_code]))
          (fst (_enrichDates 0 [Scenarios.sample_odd_code]))) = JUndefined.
Proof.
  split; [reflexivity |].
  assert (Hcode : getValueFromMetadata (deref [Scenarios.sample_odd_code] 0) updateFrequency
                  = JStr "099") by (vm_compute; reflexivity).
  assert (Hne : "099" <> "") by discriminate.
  assert (Hunknown : ~ In "099" (map fst frequency_codes)).
  { intros Hin. simpl in Hin.
    repeat (destruct Hin as [Hin|Hin]; [discriminate Hin |]). exact Hin. }
  assert (Hproto : "099" <> "__proto__") by discriminate.
  assert (Hmember : ~ In "099" (map fst Object_prototype_members)).
  { intros Hin. simpl in Hin.
    repeat (destruct Hin as [Hin|Hin]; [discriminate Hin |]). exact Hin. }
  exact (proj2 (proj2 (_enrichDates_unknown_code 0 [Scenarios.sample_odd_code]
                         "099" Hcode Hne Hunknown)) Hproto Hmember).
Defined.

(** A code that is the name of an inherited member. *)
Example _enrichDates_inherited_code :
  let content :=
    [("metadata", JObj [("metadata", JObj [("dataIdInfo", JObj [
        ("resMaint", JObj [("maintFreq", JObj [("MaintFreqCd",
           JObj [("@_value", JStr "constructor")])])])])])])] in
  lookup_field "updateFrequency"
    (deref (snd (_enrichDates 0 [content])) (fst (_enrichDates 0 [content])))
  = JFun "Object".
Proof. vm_compute. reflexivity. Qed.

Lemma _enrichDates_other_properties_witness :
  lookup_field "owner"
    (deref (snd (_enrichDates 0 Samples.sample_store))
       (fst (_enrichDates 0 Samples.sample_store)))
  = lookup_field "owner" (deref Samples.sample_store 0).
Proof.
  assert (Hk : ~ In "owner" written_properties).
  { intros Hin. simpl in Hin.
    repeat (destruct Hin as [Hin|Hin]; [discriminate Hin |]). exact Hin. }
  exact (_enrichDates_other_properties 0 Samples.sample_store "owner" Hk).
Defined.

(** ** What [getContentById] resolves to *)

Section Enriched.
Context `{ContentServices}.

Lemma enrichContent_resolved (content : loc) (options : JsVal) (w w' : World)
    (c : loc) :
  enrichContent content options w = (Resolved c, w') ->
  exists c0 s0, _enrichDates c0 s0 = (c, store w').
Proof.
  unfold enrichContent, bind, resolve, call, sync.
  destruct (keys_length _ =? 0)%nat.
  - destruct (_enrichDates content (store w)) as [c1 s1] eqn:E.
    intros [= <- <-]. now exists content, (store w).
  - destruct (_fetchContentProperties _ content options (store w))
      as [[c1|e] s1]; [|discriminate].
    cbn [store]. destruct (_enrichDates c1 s1) as [c2 s2] eqn:E.
    intros [= <- <-]. now exists c1, s1.
Qed.

(** X6. Whatever way the content was found, the content that
    [getContentById] resolves to is the one that [_enrichDates] returned
    last: a new object, created after every call to a service, and one whose
    dates are settled, as enriching it again changes none of its
    properties. *)
Theorem getContentById_enriched (identifier : string) (options : JsVal)
    (w w' : World) (c : loc) :
  getContentById identifier options w = (Resolved c, w') ->
  (exists c0 s0,
      _enrichDates c0 s0 = (c, store w')
      /\ c = List.length s0 /\ List.length (store w') = S c)
  /\ let again := _enrichDates c (store w') in
     deref (snd again) (fst again) = deref (store w') c.
Proof.
  intros Hrun.
  assert (Hlast : exists c0 s0, _enrichDates c0 s0 = (c, store w')).
  { revert Hrun. unfold getContentById, bind, catch, call, reject.
    destruct (options_isPortal options).
    - destruct (getContentFromPortal _ options (store w)) as [[c1|e] s1];
        [|discriminate].
      apply enrichContent_resolved.
    - destruct (getContentFromHub identifier options (store w)) as [[c1|e] s1].
      + apply enrichContent_resolved.
      + destruct (isSlug identifier); cbn [negb]; [discriminate |].
        cbn [store].
        destruct (getContentFromPortal identifier options s1) as [[c2|e2] s2];
          [|discriminate].
        apply enrichContent_resolved. }
  destruct Hlast as (c0 & s0 & Hlast).
  rewrite _enrichDates_clone in Hlast. injection Hlast as Hc Hs.
  split.
  - exists c0, s0. rewrite _enrichDates_clone, <- Hs, <- Hc.
    split; [reflexivity |]. split; [reflexivity |].
    rewrite length_app. cbn [List.length]. lia.
  - cbv zeta. rewrite _enrichDates_clone. cbn [fst snd].
    rewrite deref_alloc, <- Hs, <- Hc, deref_alloc.
    apply enriched_idempotent.
Qed.

End Enriched.

Lemma getContentById_enriched_witness :
  List.length
    (store (snd (getContentById (H := Samples.sample_content) "8d1e_0"
                   JUndefined Samples.sample_world))) = 4.
Proof.
  assert (Hrun : getContentById (H := Samples.sample_content) "8d1e_0"
                   JUndefined Samples.sample_world
                 = (Resolved 3,
                    snd (getContentById (H := Samples.sample_content) "8d1e_0"
                           JUndefined Samples.sample_world)))
    by (vm_compute; reflexivity).
  destruct (proj1 (getContentById_enriched (H := Samples.sample_content)
                     _ _ _ _ _ Hrun)) as (c0 & s0 & _ & _ & Hlen).
  exact Hlen.
Defined.

End ContentExtras.

(* ===================================================================== *)
(** * Further facts about the search *)
(* ===================================================================== *)

Module SearchExtras.

Import HubSearchItems StringFacts Grammar SearchFacts SearchShape.

(** ** The filter parameter *)

(** X7. The filter parameter is empty exactly for a query without filters:
    every filter block contributes its pair of parentheses, so that a query
    whose filters have no predicates still gives a filter parameter. *)
Theorem getFilterQueryParam_empty_iff (query : IQuery) :
  (getFilterQueryParam query = Resolved "" <-> filters query = [])
  /\ (forall operation_, getFilterQueryParam (mkQuery [mkFilter operation_ []])
                         = Resolved "()").
Proof.
  split.
  - rewrite getFilterQueryParam_cases.
    destruct (arrays_only query) eqn:Harrays.
    + rewrite <- filter_text_empty. split; [now intros [= E] | now intros ->].
    + split; [discriminate |]. intros Hnil.
      rewrite (arrays_only_nil query Hnil) in Harrays. discriminate.
  - intros operation_. unfold getFilterQueryParam, formatFilterBlock.
    now destruct operation_ as [[]|].
Qed.

(** ** The request *)


Lemma filter_without_falsy (queryParams : list (string * Prim)) :
  List.filter (fun entry => prim_truthy (snd entry)) (without_falsy queryParams)
  = List.filter (fun entry => prim_truthy (snd entry)) queryParams.
Proof.
  induction queryParams as [|[key value] rest IH]; [reflexivity |].
  cbn [without_falsy map fst snd List.filter] in *.
  destruct (prim_truthy value) eqn:Et; cbn [prim_truthy]; rewrite ?Et;
    fold (without_falsy rest); now rewrite IH.
Qed.

(** X8. Both [getQueryString] treat a falsy value (0, false, the empty
    string, null) as a missing one: replacing it by [undefined] changes
    nothing. *)
Theorem getQueryString_falsy_dropped (queryParams : list (string * Prim)) :
  HubSearchItems.getQueryString (without_falsy queryParams)
  = HubSearchItems.getQueryString queryParams
  /\ Urls.getQueryString (without_falsy queryParams)
     = Urls.getQueryString queryParams.
Proof.
  unfold HubSearchItems.getQueryString, Urls.getQueryString.
  now rewrite !filter_truthy, filter_without_falsy.
Qed.

Lemma item_params_empty (filter : string) (token limit startindex : Prim) :
  getQueryString [("filter", Str filter); ("token", token); ("limit", limit);
                  ("startindex", startindex)] = ""
  <-> filter = "" /\ prim_truthy token = false /\ prim_truthy limit = false
      /\ prim_truthy startindex = false.
Proof.
  rewrite getQueryString_text. unfold query_string_text.
  cbn [List.filter snd prim_truthy].
  destruct (filter =? "") eqn:Ef; cbn [negb].
  - apply String.eqb_eq in Ef. rewrite Ef.
    destruct (prim_truthy token), (prim_truthy limit), (prim_truthy startindex);
      (split; [try discriminate; auto | intros (_ & ? & ? & ?);
                                        congruence || reflexivity]).
  - apply String.eqb_neq in Ef.
    split; [discriminate | intros (E & _); contradiction].
Qed.

(** X9. The query string of an item search is empty exactly when the query
    has no filters and the token, [num] and [start] are all falsy. *)
Theorem item_query_string_empty_iff (query : IQuery) (options : IHubSearchOptions) :
  (exists queryParams,
      getOgcItemQueryParams query options = Resolved queryParams
      /\ getQueryString queryParams = "")
  <-> filters query = []
      /\ prim_truthy match requestOptions options with
                     | Some ro => ro_token ro
                     | None => Undefined
                     end = false
      /\ prim_truthy (num options) = false
      /\ prim_truthy (start options) = false.
Proof.
  unfold getOgcItemQueryParams. rewrite getFilterQueryParam_cases. cbv zeta.
  rewrite <- filter_text_empty.
  destruct (arrays_only query) eqn:Harrays.
  - rewrite <- item_params_empty. split.
    + now intros (queryParams & [= <-] & Hempty).
    + intros Hempty. eexists. split; [reflexivity | exact Hempty].
  - split.
    + intros (queryParams & Hthrown & _). discriminate.
    + intros (Hnil & _). apply filter_text_empty in Hnil.
      rewrite (arrays_only_nil query Hnil) in Harrays. discriminate.
Qed.

Section Request.
Context `{SearchServices}.


(** X10. [ogcApiRequest] makes one request, to the url followed by the query
    string, with the [fetch] of the request options when there is one and
    the global one otherwise. It resolves to the JSON body exactly when the
    response is ok; a response that is not ok is rejected with a
    [RemoteServerError] of its status text, the requested url and its
    status; a rejection of [fetch] is passed on. *)
Theorem ogcApiRequest_outcome (url_ : string) (queryParams : IQueryParams)
    (options : IHubSearchOptions) :
  let withQueryString := url_ +:+ query_string_text queryParams in
  (forall body,
      ogcApiRequest url_ queryParams options = Resolved body
      <-> exists response,
            fetch_used options withQueryString = Resolved response
            /\ ok response = true /\ json response = Resolved body)
  /\ (forall response,
        fetch_used options withQueryString = Resolved response ->
        ok response = false ->
        ogcApiRequest url_ queryParams options
        = Rejected (RemoteServerError (statusText response) withQueryString
                      (status response)))
  /\ (forall e,
        fetch_used options withQueryString = Rejected e ->
        ogcApiRequest url_ queryParams options = Rejected e).
Proof.
  intros withQueryString. subst withQueryString.
  unfold ogcApiRequest. fold (fetch_used options). cbv zeta.
  rewrite getQueryString_text.
  destruct (fetch_used options (url_ +:+ query_string_text queryParams))
    as [response|e].
  - split; [|split].
    + intros body. destruct (ok response) eqn:Eok; cbn [negb]; split.
      * intros Hj. now exists response.
      * intros (r & [= <-] & _ & Hj). exact Hj.
      * discriminate.
      * intros (r & [= <-] & Hok & _). congruence.
    + intros r [= <-] Hok. now rewrite Hok.
    + discriminate.
  - split; [|split].
    + intros body. split; [discriminate | intros (r & Hr & _); discriminate].
    + discriminate.
    + now intros e' [= <-].
Qed.


(** ** The response *)

Lemma promise_all_length {A} (l : list (Promise A)) (values : list A) :
  promise_all l = Resolved values -> List.length values = List.length l.
Proof.
  revert values. induction l as [|[a|e] rest IH]; intros values; simpl.
  - now intros [= <-].
  - destruct (promise_all rest) as [r|e]; [|discriminate].
    intros [= <-]. simpl. now rewrite (IH r).
  - discriminate.
Qed.

Lemma promise_all_rejected {A} (l : list (Promise A)) :
  (exists e, promise_all l = Rejected e)
  <-> exists e, In (Rejected e) l.
Proof.
  induction l as [|[a|e] rest IH]; simpl.
  - split; intros [e He]; [discriminate | destruct He].
  - destruct (promise_all rest) as [r|e'].
    + split; [intros [e He]; discriminate |].
      intros [e [He|He]]; [discriminate |].
      destruct (proj2 IH (ex_intro _ e He)) as [e' He']. discriminate.
    + split; [|intros _; now exists e'].
      intros _. destruct (proj1 IH (ex_intro _ e' eq_refl)) as [e Hin].
      exists e. now right.
  - split; intros _; exists e; auto.
Qed.

Lemma promise_all_resolved {A} (l : list (Promise A)) (values : list A) :
  promise_all l = Resolved values <-> l = map Resolved values.
Proof.
  revert values. induction l as [|[a|e] rest IH]; intros values; simpl.
  - split; [now intros [= <-] | destruct values; [reflexivity | discriminate]].
  - destruct (promise_all rest) as [r|e] eqn:Er.
    + split.
      * intros [= <-]. simpl. f_equal. now apply IH.
      * destruct values as [|v vs]; [discriminate |]. simpl.
        intros [= -> Hrest]. apply IH in Hrest. congruence.
    + split; [discriminate |].
      destruct values as [|v vs]; [discriminate |]. simpl.
      intros [= -> Hrest]. apply IH in Hrest. discriminate.
  - split; [discriminate | destruct values; discriminate].
Qed.

(** X11. A formatted response has the number matched as its total and the
    converted items, one per feature and in order, as its results; it has a
    next page exactly when the response has a link "next". Its callback
    then searches the items of the original query with the original
    options, but for [start], which is the number read from the startindex
    of the first such link, and it throws when that link is not a URL;
    without a link "next" the callback returns null. *)
Theorem formatOgcSearchResponse_shape (response : IOgcResponse)
    (query : IQuery) (options : IHubSearchOptions) (r : IHubSearchResponse) :
  formatOgcSearchResponse response query options = Resolved r ->
  total r = numberMatched response
  /\ map (fun feature => itemToSearchResult (properties feature) [] None)
       (features response)
     = map Resolved (results r)
  /\ (hasNext r = true <-> exists l, In l (links response) /\ rel l = "next")
  /\ (hasNext r = false <-> call_next (next r) = ReturnsNull)
  /\ call_next (next r)
     = match find (fun l => (rel l =? "next")) (links response) with
       | None => ReturnsNull
       | Some nextLink =>
           match url_startindex (href nextLink) with
           | None => Throws TypeError
           | Some start =>
               Returns (searchOgcItems query
                          (mkSearchOptions (aggFields options) (num options)
                             start (api options) (requestOptions options)))
           end
       end.
Proof.
  unfold formatOgcSearchResponse, getNextOgcCallback. cbv zeta.
  destruct (promise_all _) as [formatted|e] eqn:Eall; [|discriminate].
  intros [= <-]. cbn [total results hasNext next].
  apply promise_all_resolved in Eall.
  split; [reflexivity |]. split; [exact Eall |].
  destruct (find (fun l => rel l =? "next") (links response)) as [l|] eqn:Ef.
  - apply find_some in Ef as [Hin Hrel]. apply String.eqb_eq in Hrel.
    split; [|split].
    + split; [intros _; now exists l | intros _].
      apply bool_decide_eq_true. eauto.
    + split.
      * intros Hb. apply bool_decide_eq_false in Hb. exfalso. apply Hb. eauto.
      * cbn [call_next]. destruct (url_startindex (href l)); discriminate.
    + reflexivity.
  - split; [|split].
    + split.
      * intros Hb. apply bool_decide_eq_true in Hb. now destruct Hb.
      * intros (l & Hin & Hrel).
        pose proof (find_none _ _ Ef l Hin) as Hn. cbv beta in Hn.
        rewrite Hrel in Hn. discriminate.
    + split; [reflexivity | intros _].
      apply bool_decide_eq_false. now intros [? ?].
    + reflexivity.
Qed.

(** X12. One item that cannot be converted fails the whole page:
    [formatOgcSearchResponse] is rejected exactly when the conversion of
    one of the features is. *)
Theorem formatOgcSearchResponse_all_or_nothing (response : IOgcResponse)
    (query : IQuery) (options : IHubSearchOptions) :
  (exists e, formatOgcSearchResponse response query options = Rejected e)
  <-> exists feature e,
        In feature (features response)
        /\ itemToSearchResult (properties feature) [] None = Rejected e.
Proof.
  unfold formatOgcSearchResponse. cbv zeta.
  pose proof (promise_all_rejected
                (map ogcItemToSearchResult (features response))) as Hall.
  destruct (promise_all _) as [formatted|e].
  - split; [intros [e He]; discriminate |].
    intros (feature & e & Hin & He).
    destruct (proj2 Hall) as [e' He']; [|discriminate].
    exists e. apply in_map_iff. exists feature. split; [exact He | exact Hin].
  - split; [|intros _; now exists e]. intros _.
    destruct (proj1 Hall (ex_intro _ e eq_refl)) as (e' & Hin).
    apply in_map_iff in Hin as (feature & He & Hin). now exists feature, e'.
Qed.

(** [searchOgcItems] never resolves to [null]. *)
Lemma searchOgcItems_not_null (query : IQuery) (options : IHubSearchOptions) :
  searchOgcItems query options <> Resolved None.
Proof.
  unfold searchOgcItems. cbv zeta.
  destruct (getOgcItemQueryParams query options) as [queryParams|e];
    [|discriminate].
  destruct (ogcApiRequest _ _ options) as [raw|e]; [|discriminate].
  destruct (formatOgcSearchResponse raw query options); discriminate.
Qed.

(** X13. [hubSearchItems] resolves to [null] exactly when aggregation
    fields are given: a search of items never resolves to [null]. *)
Theorem hubSearchItems_null_iff (query : IQuery) (options : IHubSearchOptions) :
  hubSearchItems query options = Resolved None
  <-> exists field fields, aggFields options = Some (field :: fields).
Proof.
  unfold hubSearchItems. destruct (aggFields options) as [[|field fields]|];
    cbn [List.length Nat.eqb negb].
  - split; [intros E; now apply searchOgcItems_not_null in E |].
    intros (f & fs & E). discriminate.
  - split; [intros _; eauto | reflexivity].
  - split; [intros E; now apply searchOgcItems_not_null in E |].
    intros (f & fs & E). discriminate.
Qed.

End Request.

(** ** When the two query strings agree *)


Lemma encode_length (s : string) :
  String.length s <= String.length (Urls.encode s).
Proof.
  induction s as [|c rest IH]; simpl; [lia |].
  destruct (Urls.unreserved c); simpl; lia.
Qed.

Lemma encode_same_length (s : string) :
  String.length (Urls.encode s) = String.length s -> unreserved_only s = true.
Proof.
  unfold unreserved_only. induction s as [|c rest IH]; simpl; [reflexivity |].
  pose proof (encode_length rest).
  destruct (Urls.unreserved c); simpl; [|lia].
  intros [= E]. now apply IH.
Qed.

Lemma encode_unreserved (s : string) :
  unreserved_only s = true -> Urls.encode s = s.
Proof.
  unfold unreserved_only. induction s as [|c rest IH]; simpl; [reflexivity |].
  destruct (Urls.unreserved c); simpl; [|discriminate].
  intros Hrest. now rewrite IH.
Qed.

Lemma join_length (sep : string) (l : list string) :
  String.length (join sep l) + String.length sep
  = list_sum (map (fun s => String.length s + String.length sep) l)
    + (match l with [] => String.length sep | _ => 0 end).
Proof.
  induction l as [|x [|y rest] IH].
  - reflexivity.
  - simpl. lia.
  - rewrite join_cons2. rewrite !append_length.
    change (list_sum (map _ (x :: y :: rest)))
      with (String.length x + String.length sep
            + list_sum (map (fun s => String.length s + String.length sep)
                         (y :: rest))).
    lia.
Qed.

Lemma join_map_length {A} (sep : string) (f : A -> string) (l : list A) :
  String.length (join sep (map f l)) + String.length sep
  = list_sum (map (fun e => String.length (f e) + String.length sep) l)
    + (match l with [] => String.length sep | _ => 0 end).
Proof. rewrite join_length, map_map. now destruct l. Qed.

Lemma sum_pointwise {A} (f g : A -> nat) (l : list A) :
  (forall x, In x l -> f x <= g x) ->
  list_sum (map f l) = list_sum (map g l) ->
  forall x, In x l -> f x = g x.
Proof.
  induction l as [|a rest IH]; simpl; [intros _ _ x [] |].
  intros Hle Hsum x Hin.
  assert (Hrest : list_sum (map f rest) <= list_sum (map g rest)).
  { clear -Hle. induction rest as [|b rest IH]; simpl; [lia |].
    assert (f b <= g b) by (apply Hle; simpl; auto).
    assert (list_sum (map f rest) <= list_sum (map g rest))
      by (apply IH; intros y [Hy|Hy]; apply Hle; simpl; auto).
    lia. }
  assert (f a <= g a) by (apply Hle; auto).
  destruct Hin as [<-|Hin]; [lia |].
  apply IH; auto. lia.
Qed.

(** X14. The two [getQueryString] give the same string exactly when every
    truthy value is written with unreserved characters only, those that
    [encodeURIComponent] leaves as they are. *)
Theorem getQueryString_agree_iff (queryParams : list (string * Prim)) :
  HubSearchItems.getQueryString queryParams = Urls.getQueryString queryParams
  <-> forall key value,
        In (key, value) queryParams -> prim_truthy value = true ->
        unreserved_only (prim_to_string value) = true.
Proof.
  split.
  - unfold HubSearchItems.getQueryString, Urls.getQueryString.
    rewrite !question_mark, filter_truthy.
    intros Hsame key value Hin Ht.
    assert (Hentry : In (key, value)
                       (List.filter (fun entry => prim_truthy (snd entry))
                          queryParams))
      by (apply filter_In; auto).
    set (L := List.filter _ queryParams) in *.
    assert (Hjoin : join "&" (map (fun e => fst e +:+ "=" +:+ prim_to_string (snd e)) L)
                    = join "&" (map (fun e => fst e +:+ "=" +:+ Urls.encodeURIComponent (snd e)) L)).
    { clear -Hsame. destruct L as [|e0 rest]; [reflexivity |].
      exact (String.app_inj "?" _ _ Hsame). }
    apply (f_equal (fun s => String.length s + String.length "&")) in Hjoin.
    cbv beta in Hjoin. rewrite !join_map_length in Hjoin.
    apply Nat.add_cancel_r in Hjoin.
    assert (Hle : forall e : string * Prim, In e L ->
              String.length (fst e +:+ "=" +:+ prim_to_string (snd e))
              + String.length "&"
              <= String.length (fst e +:+ "=" +:+ Urls.encodeURIComponent (snd e))
                 + String.length "&").
    { intros e _. rewrite !append_length.
      apply Nat.add_le_mono_r, Nat.add_le_mono_l, Nat.add_le_mono_l.
      apply encode_length. }
    pose proof (sum_pointwise _ _ L Hle Hjoin (key, value) Hentry) as Hlen.
    cbv beta in Hlen. cbn [fst snd] in Hlen.
    rewrite !append_length in Hlen.
    apply Nat.add_cancel_r, Nat.add_cancel_l, Nat.add_cancel_l in Hlen.
    apply encode_same_length. symmetry. exact Hlen.
  - intros Hsafe.
    unfold Urls.getQueryString, HubSearchItems.getQueryString.
    rewrite encoded_pairs; [reflexivity |].
    intros key value Hin Ht. apply encode_unreserved. eauto.
Qed.

(** ** The sample server *)

Lemma formatOgcSearchResponse_shape_witness :
  match formatOgcSearchResponse (H := Samples.sample_search)
          Scenarios.sample_more Samples.sample_query (Samples.sample_options None)
  with
  | Resolved r =>
      total r = 12%Z /\ hasNext r = true
      /\ call_next (H := Samples.sample_search) (next r)
         = Returns (searchOgcItems (H := Samples.sample_search)
                      Samples.sample_query
                      (mkSearchOptions None (Num 10) (Num 3)
                         (mkApi "https://hub.example/api/search/v1") None))
  | Rejected _ => False
  end.
Proof.
  destruct (formatOgcSearchResponse (H := Samples.sample_search)
              Scenarios.sample_more Samples.sample_query
              (Samples.sample_options None)) as [r|e] eqn:E.
  - destruct (formatOgcSearchResponse_shape (H := Samples.sample_search)
                _ _ _ _ E) as (Ht & _ & Hn & _ & Hcall).
    split; [exact Ht |]. split; [|exact Hcall]. apply Hn.
    exists (mkOgcLink "next"
              "https://hub.example/api/search/v1/items?startindex=3").
    split; [right; left; reflexivity | reflexivity].
  - vm_compute in E. discriminate E.
Defined.

End SearchExtras.

(* ===================================================================== *)
(** * Further facts about the events filters *)
(* ===================================================================== *)

Module EventsExtras.
Import Events EventsShape EventsFacts.

Ltac listed := simpl; tauto.

Ltac walk :=
  lazymatch goal with
  | |- writes _ ?a ?a => apply writes_refl
  | |- writes ?J ?a (assign_if_length _ _ ?b) =>
      apply (writes_trans J a b);
      [walk | apply assign_if_length_writes; intros _; listed]
  | |- writes ?J ?a (assign_first _ _ ?b) =>
      apply (writes_trans J a b);
      [walk | apply assign_first_writes; intros _; listed]
  | |- writes ?J ?a (<[_ := _]> ?b) =>
      apply (writes_trans J a b);
      [walk | apply writes_insert; listed]
  | |- _ => assumption
  end.

Section Steps.
Context `{EventsServices}.
Variable filters : list IFilter.

Lemma processFilters_steps (requestOptions : JsVal) (clock clock' : nat)
    (result : GetEventsParams) :
  processFilters filters requestOptions clock = Resolved (result, clock') ->
  exists pfa pfc pf3,
    writes (fun f => In f first_fields) ∅ pfa
    /\ assign_notGroups filters requestOptions
         (match getOptionalPredicateStringsByKey filters "group" with
          | Some (String _ _ as groupIds) =>
              <["sharedToGroups" := P (Str groupIds)]> pfa
          | _ =>
              assign_if_length "editGroups"
                (getOptionalPredicateStringsByKey filters "editGroupId")
                (assign_if_length "readGroups"
                   (getOptionalPredicateStringsByKey filters "readGroupId") pfa)
          end) clock
       = Resolved (pfc, clock)
    /\ writes (fun f => In f last_fields) pfc pf3
    /\ forEach_occurrence (getPredicateValuesByKey filters "occurrence") pf3 clock
       = Resolved (result, clock').
Proof.
  unfold processFilters. cbv zeta. unfold mbind, Eff_bind.
  set (pf0 := assign_if_length "access" _ ∅).
  assert (W0 : writes (fun f => In f first_fields) ∅ pf0) by (subst pf0; walk).
  clearbody pf0.
  match goal with
  | |- match ?m clock with Resolved _ => _ | Rejected _ => _ end = _ -> _ =>
      destruct (m clock) as [[pfa0 ca]|] eqn:Ea; [|discriminate]
  end.
  assert (Wa : writes (fun f => In f first_fields) ∅ pfa0 /\ ca = clock).
  { destruct (getPredicateValuesByKey filters "canEdit") as [|v rest] eqn:Ev.
    - injection Ea as <- <-. now split.
    - destruct (method_toString v); [|discriminate].
      injection Ea as <- <-. split; [|reflexivity]. walk. }
  destruct Wa as [Wa ->]. clear Ea W0 pf0.
  set (pfa := assign_if_length "tags" _ _).
  assert (Wt : writes (fun f => In f first_fields) ∅ pfa) by (subst pfa; walk).
  clearbody pfa.
  match goal with
  | |- match assign_notGroups _ _ ?pf _ with _ => _ end = _ -> _ =>
      set (pfb := pf)
  end.
  destruct (assign_notGroups filters requestOptions pfb clock)
    as [[pfc cc]|] eqn:Ec; [|discriminate].
  pose proof (assign_notGroups_writes filters (fun _ => True) _ _ _ _ _
                (fun _ => I) (fun _ => I) Ec) as [_ ->].
  set (pf1 := <["status" := _]> _).
  assert (W1 : writes (fun f => In f last_fields) pfc pf1) by (subst pf1; walk).
  clearbody pf1.
  destruct (assign_range filters "startDateRange" _ _ _ _ _ clock)
    as [[pf2 c2]|] eqn:E2; [|discriminate].
  apply (assign_range_writes filters (fun f => In f last_fields)) in E2
    as [W2 ->]; [| intros _; listed | intros _; listed].
  destruct (assign_range filters "endDateRange" _ _ _ _ pf2 clock)
    as [[pf3 c3]|] eqn:E3; [|discriminate].
  apply (assign_range_writes filters (fun f => In f last_fields)) in E3
    as [W3 ->]; [| intros _; listed | intros _; listed].
  intros Hocc. exists pfa, pfc, pf3.
  split; [exact Wt |]. split; [subst pfb; exact Ec |].
  split; [|exact Hocc].
  apply (writes_trans _ _ pf1); [exact W1 |].
  apply (writes_trans _ _ pf2); [exact W2 | exact W3].
Qed.

End Steps.

Section Lookups.
Context `{EventsServices}.

Lemma lookup_assign_if_length (field : string) (value : option string)
    (pf : GetEventsParams) :
  pf !! field = None ->
  assign_if_length field value pf !! field = optional_string value.
Proof.
  intros Hnone. unfold assign_if_length, optional_string.
  destruct value as [[|c text]|]; try exact Hnone.
  cbn [String.eqb negb]. apply lookup_insert_eq.
Qed.

Lemma lookup_assign_if_length_ne (field k : string) (value : option string)
    (pf : GetEventsParams) :
  field <> k -> assign_if_length field value pf !! k = pf !! k.
Proof.
  intros Hne. unfold assign_if_length.
  destruct value as [text|]; [|reflexivity].
  destruct (negb (text =? "")); [|reflexivity].
  now apply lookup_insert_ne.
Qed.

(** The properties that the steps after the groups leave alone. *)
Lemma processFilters_kept (filters : list IFilter) (occurrence : list PredValue)
    (pfc pf3 result : GetEventsParams) (clock clock' : nat) (field : string) :
  writes (fun f => In f last_fields) pfc pf3 ->
  forEach_occurrence occurrence pf3 clock = Resolved (result, clock') ->
  ~ In field last_fields ->
  result !! field = pfc !! field.
Proof.
  intros W3 Eo Hout. apply forEach_occurrence_writes in Eo.
  rewrite (writes_outside _ _ _ _ Eo).
  - now apply (writes_outside _ _ _ _ W3).
  - intros (o & _ & Ht). apply Hout. apply touched_date_field in Ht.
    unfold last_fields. apply in_or_app. now right.
Qed.

End Lookups.

Ltac other_key Hsame key :=
  let Hv := fresh in
  let Hs := fresh in
  destruct (Hsame key ltac:(intros [E|[E|[]]]; discriminate E)) as [Hv Hs];
  rewrite ?Hv, ?Hs; clear Hv Hs.

Ltac other_keys Hsame keys :=
  lazymatch keys with
  | [] => idtac
  | ?key :: ?rest => other_key Hsame key; other_keys Hsame rest
  end.

Section Groups.
Context `{EventsServices}.

(** With a group, the predicates readGroupId and editGroupId are not read. *)
Lemma processFilters_ignores_groups (filters filters' : list IFilter)
    (requestOptions : JsVal) (clock : nat) (text : string) :
  getOptionalPredicateStringsByKey filters "group" = Some text -> text <> "" ->
  same_except ["readGroupId"; "editGroupId"] filters filters' ->
  processFilters filters' requestOptions clock
  = processFilters filters requestOptions clock.
Proof.
  intros Hgroup Hne Hsame.
  unfold processFilters, assign_notGroups, assign_range.
  other_keys Hsame
    ["access"; "canEdit"; "entityId"; "entityType"; "id"; "term"; "orgId";
     "categories"; "tags"; "group"; "notGroup"; "notReadGroupId";
     "notEditGroupId"; "attendanceType"; "owner"; "status"; "startDateRange";
     "startDateBefore"; "startDateAfter"; "endDateRange"; "endDateBefore";
     "endDateAfter"; "occurrence"].
  rewrite Hgroup. destruct text; [congruence | reflexivity].
Qed.

(** X15. A group that is given takes precedence: [sharedToGroups] is the
    string of the group predicate, [readGroups] and [editGroups] stay unset
    and the predicates readGroupId and editGroupId are not read. Without a
    group, [sharedToGroups] stays unset, and [readGroups] and [editGroups]
    are the strings of readGroupId and editGroupId that are not empty. *)
Theorem processFilters_group_precedence (filters : list IFilter)
    (requestOptions : JsVal) (clock clock' : nat) (result : GetEventsParams) :
  processFilters filters requestOptions clock = Resolved (result, clock') ->
  (forall text,
      getOptionalPredicateStringsByKey filters "group" = Some text ->
      text <> "" ->
      result !! "sharedToGroups" = Some (P (Str text))
      /\ result !! "readGroups" = None
      /\ result !! "editGroups" = None
      /\ (forall filters',
            same_except ["readGroupId"; "editGroupId"] filters filters' ->
            processFilters filters' requestOptions clock
            = Resolved (result, clock')))
  /\ (getOptionalPredicateStringsByKey filters "group" = None
      \/ getOptionalPredicateStringsByKey filters "group" = Some "" ->
      result !! "sharedToGroups" = None
      /\ result !! "readGroups"
         = optional_string (getOptionalPredicateStringsByKey filters "readGroupId")
      /\ result !! "editGroups"
         = optional_string (getOptionalPredicateStringsByKey filters "editGroupId")).
Proof.
  intros Hrun. pose proof Hrun as Hsteps.
  apply processFilters_steps in Hsteps as (pfa & pfc & pf3 & Wa & Ec & W3 & Eo).
  apply (assign_notGroups_writes filters (fun f => In f notGroup_fields)) in Ec
    as [Wc _]; [| intros _; listed | intros _; listed].
  assert (Hkept : forall field, In field group_fields ->
            result !! field
            = match getOptionalPredicateStringsByKey filters "group" with
              | Some (String _ _ as groupIds) =>
                  <["sharedToGroups" := P (Str groupIds)]> pfa
              | _ =>
                  assign_if_length "editGroups"
                    (getOptionalPredicateStringsByKey filters "editGroupId")
                    (assign_if_length "readGroups"
                       (getOptionalPredicateStringsByKey filters "readGroupId") pfa)
              end !! field).
  { intros field Hin.
    rewrite (processFilters_kept filters _ _ _ _ _ _ field W3 Eo).
    - apply (writes_outside _ _ _ _ Wc).
      simpl in Hin |- *. intuition (subst; discriminate).
    - simpl in Hin |- *. intuition (subst; discriminate). }
  assert (Hnone : forall field, In field group_fields -> pfa !! field = None).
  { intros field Hin. rewrite (writes_outside _ _ _ _ Wa); [apply lookup_empty |].
    simpl in Hin |- *. intuition (subst; discriminate). }
  split.
  - intros text Hgroup Hne.
    rewrite !Hkept by listed. rewrite Hgroup.
    destruct text as [|c text]; [congruence |].
    split; [apply lookup_insert_eq |].
    split; [rewrite lookup_insert_ne by discriminate; apply Hnone; listed |].
    split; [rewrite lookup_insert_ne by discriminate; apply Hnone; listed |].
    intros filters' Hsame. rewrite <- Hrun.
    now apply (processFilters_ignores_groups _ _ _ _ (String c text)).
  - intros Hgroup. rewrite !Hkept by listed.
    assert (Hread : assign_if_length "readGroups"
                      (getOptionalPredicateStringsByKey filters "readGroupId") pfa
                    !! "readGroups"
                    = optional_string
                        (getOptionalPredicateStringsByKey filters "readGroupId"))
      by (apply lookup_assign_if_length, Hnone; listed).
    destruct Hgroup as [-> | ->].
    + rewrite !lookup_assign_if_length_ne by discriminate.
      split; [apply Hnone; listed |]. split; [exact Hread |].
      apply lookup_assign_if_length.
      rewrite lookup_assign_if_length_ne by discriminate. apply Hnone; listed.
    + rewrite !lookup_assign_if_length_ne by discriminate.
      split; [apply Hnone; listed |]. split; [exact Hread |].
      apply lookup_assign_if_length.
      rewrite lookup_assign_if_length_ne by discriminate. apply Hnone; listed.
Qed.

End Groups.

Section NotGroups.
Context `{EventsServices}.

(** The reduction over the groups found splits their ids in two, in
    order; it fails when [isUpdateGroup] throws on one of them. *)
Lemma reduce_groups (results : list IGroup) (notReadGroupIds notEditGroupIds : list string) :
  fold_left
    (fun acc group =>
       match acc with
       | None => None
       | Some (notReadGroupIds, notEditGroupIds) =>
           match isUpdateGroup group with
           | None => None
           | Some true => Some (notReadGroupIds, notEditGroupIds ++ [id group])
           | Some false => Some (notReadGroupIds ++ [id group], notEditGroupIds)
           end
       end)
    results (Some (notReadGroupIds, notEditGroupIds))
  = if forallb testable results
    then Some (notReadGroupIds ++ map id (List.filter other_group results),
               notEditGroupIds ++ map id (List.filter update_group results))
    else None.
Proof.
  revert notReadGroupIds notEditGroupIds.
  induction results as [|group results IH]; intros notReadGroupIds notEditGroupIds.
  - cbn [fold_left List.filter map forallb]. now rewrite !app_nil_r.
  - cbn [fold_left List.filter forallb].
    unfold testable at 1, other_group at 1, update_group at 1.
    destruct (isUpdateGroup group) as [[|]|]; cbn [negb andb map].
    + rewrite IH. destruct (forallb testable results); [|reflexivity].
      now rewrite <- app_assoc.
    + rewrite IH. destruct (forallb testable results); [|reflexivity].
      now rewrite <- app_assoc.
    + clear IH. induction results as [|g results IH]; [reflexivity | exact IH].
Qed.

Lemma assign_notGroups_given (filters : list IFilter) (requestOptions : JsVal)
    (g : PredValue) (rest : list PredValue)
    (pf pf' : GetEventsParams) (clock clock' : nat) :
  getPredicateValuesByKey filters "notGroup" = g :: rest ->
  pf !! "withoutReadGroups" = None -> pf !! "withoutEditGroups" = None ->
  assign_notGroups filters requestOptions pf clock = Resolved (pf', clock') ->
  exists results,
    searchGroups ("id:(" +:+ join_values " OR " (g :: rest) +:+ ")")
      (List.length (g :: rest)) requestOptions = Resolved results
    /\ (forall group, In group results -> is_Some (isUpdateGroup group))
    /\ pf' !! "withoutReadGroups" = ids_of (List.filter other_group results)
    /\ pf' !! "withoutEditGroups" = ids_of (List.filter update_group results).
Proof.
  intros Hg Hr He. unfold assign_notGroups. rewrite Hg.
  destruct (searchGroups _ _ requestOptions) as [results|reason];
    [|discriminate].
  rewrite reduce_groups.
  destruct (forallb testable results) eqn:Htest; [|discriminate].
  cbn [app]. unfold ids_of.
  intros [= <- <-]. exists results. split; [reflexivity |].
  split.
  { intros group Hin.
    pose proof (proj1 (forallb_forall testable results) Htest group Hin) as Ht.
    unfold testable in Ht. destruct (isUpdateGroup group); [eauto | discriminate]. }
  destruct (map id (List.filter other_group results)) as [|r rs],
           (map id (List.filter update_group results)) as [|e es].
  - now split.
  - split; [now rewrite lookup_insert_ne by discriminate |].
    apply lookup_insert_eq.
  - split; [apply lookup_insert_eq |].
    now rewrite lookup_insert_ne by discriminate.
  - split; [|apply lookup_insert_eq].
    rewrite lookup_insert_ne by discriminate. apply lookup_insert_eq.
Qed.

Lemma assign_notGroups_absent (filters : list IFilter) (requestOptions : JsVal)
    (pf pf' : GetEventsParams) (clock clock' : nat) :
  getPredicateValuesByKey filters "notGroup" = [] ->
  pf !! "withoutReadGroups" = None -> pf !! "withoutEditGroups" = None ->
  assign_notGroups filters requestOptions pf clock = Resolved (pf', clock') ->
  pf' !! "withoutReadGroups"
  = optional_string (getOptionalPredicateStringsByKey filters "notReadGroupId")
  /\ pf' !! "withoutEditGroups"
     = optional_string (getOptionalPredicateStringsByKey filters "notEditGroupId").
Proof.
  intros Hg Hr He. unfold assign_notGroups. rewrite Hg.
  intros [= <- <-]. split.
  - rewrite lookup_assign_if_length_ne by discriminate.
    now apply lookup_assign_if_length.
  - apply lookup_assign_if_length.
    now rewrite lookup_assign_if_length_ne by discriminate.
Qed.

(** With a notGroup, the predicates notReadGroupId and notEditGroupId are
    not read. *)
Lemma processFilters_ignores_notGroups (filters filters' : list IFilter)
    (requestOptions : JsVal) (clock : nat) :
  getPredicateValuesByKey filters "notGroup" <> [] ->
  same_except ["notReadGroupId"; "notEditGroupId"] filters filters' ->
  processFilters filters' requestOptions clock
  = processFilters filters requestOptions clock.
Proof.
  intros Hgroup Hsame.
  unfold processFilters, assign_notGroups, assign_range.
  other_keys Hsame
    ["access"; "canEdit"; "entityId"; "entityType"; "id"; "term"; "orgId";
     "categories"; "tags"; "group"; "readGroupId"; "editGroupId"; "notGroup";
     "attendanceType"; "owner"; "status"; "startDateRange";
     "startDateBefore"; "startDateAfter"; "endDateRange"; "endDateBefore";
     "endDateAfter"; "occurrence"].
  destruct (getPredicateValuesByKey filters "notGroup");
    [contradiction | reflexivity].
Qed.

(** X16. With notGroup values, the groups are looked up in one search for
    "id:(a OR b ...)" with as many results as values; [isUpdateGroup]
    returns on each group found; [withoutEditGroups] is the comma-joined
    ids of the update groups found and [withoutReadGroups] those of the
    other groups, each set only when there is such a group, and
    the predicates notReadGroupId and notEditGroupId are not read. Without
    notGroup values the two properties are the strings of notReadGroupId and
    notEditGroupId that are not empty. *)
Theorem processFilters_notGroup_precedence (filters : list IFilter)
    (requestOptions : JsVal) (clock clock' : nat) (result : GetEventsParams) :
  processFilters filters requestOptions clock = Resolved (result, clock') ->
  (forall g rest,
      getPredicateValuesByKey filters "notGroup" = g :: rest ->
      (exists results,
          searchGroups ("id:(" +:+ join_values " OR " (g :: rest) +:+ ")")
            (List.length (g :: rest)) requestOptions = Resolved results
          /\ (forall group, In group results -> is_Some (isUpdateGroup group))
          /\ result !! "withoutReadGroups"
             = ids_of (List.filter other_group results)
          /\ result !! "withoutEditGroups"
             = ids_of (List.filter update_group results))
      /\ (forall filters',
            same_except ["notReadGroupId"; "notEditGroupId"] filters filters' ->
            processFilters filters' requestOptions clock
            = Resolved (result, clock')))
  /\ (getPredicateValuesByKey filters "notGroup" = [] ->
      result !! "withoutReadGroups"
      = optional_string
          (getOptionalPredicateStringsByKey filters "notReadGroupId")
      /\ result !! "withoutEditGroups"
         = optional_string
             (getOptionalPredicateStringsByKey filters "notEditGroupId")).
Proof.
  intros Hrun. pose proof Hrun as Hsteps.
  apply processFilters_steps in Hsteps as (pfa & pfc & pf3 & Wa & Ec & W3 & Eo).
  set (pfb := match getOptionalPredicateStringsByKey filters "group" with
              | Some (String _ _ as groupIds) => _
              | _ => _
              end) in Ec.
  assert (Wb : writes (fun f => In f (first_fields ++ group_fields)) ∅ pfb).
  { apply (writes_trans _ _ pfa).
    { eapply writes_mono; [|exact Wa]. intros f Hin. apply in_or_app. now left. }
    subst pfb.
    destruct (getOptionalPredicateStringsByKey filters "group") as [[|c text]|];
      walk. }
  clearbody pfb.
  assert (Hnone : forall field, In field notGroup_fields -> pfb !! field = None).
  { intros field Hin. rewrite (writes_outside _ _ _ _ Wb); [apply lookup_empty |].
    simpl in Hin |- *. intuition (subst; discriminate). }
  assert (Hkept : forall field, In field notGroup_fields ->
            result !! field = pfc !! field).
  { intros field Hin.
    apply (processFilters_kept filters _ _ _ _ _ _ field W3 Eo).
    simpl in Hin |- *. intuition (subst; discriminate). }
  rewrite !Hkept by listed.
  split.
  - intros g rest Hg. split.
    + apply (assign_notGroups_given filters requestOptions g rest pfb pfc
               clock clock); auto; apply Hnone; listed.
    + intros filters' Hsame. rewrite <- Hrun.
      apply processFilters_ignores_notGroups; [|exact Hsame].
      rewrite Hg. discriminate.
  - intros Hg.
    apply (assign_notGroups_absent filters requestOptions pfb pfc clock clock);
      auto; apply Hnone; listed.
Qed.

End NotGroups.

Section Occurrences.
Context `{EventsServices}.

Lemma stamp_app (clock : nat) (fields fields' : list string)
    (pf : GetEventsParams) :
  stamp clock (fields ++ fields') pf
  = stamp (clock + List.length fields) fields' (stamp clock fields pf).
Proof.
  revert clock pf. induction fields as [|field rest IH]; intros clock pf.
  - cbn [app stamp List.length]. now rewrite Nat.add_0_r.
  - cbn [app stamp List.length]. rewrite IH. f_equal. lia.
Qed.

Lemma occurrence_case_stamp (pf : GetEventsParams) (o : PredValue) (clock : nat) :
  occurrence_case pf o clock
  = Resolved (stamp clock (touched o) pf, clock + List.length (touched o)).
Proof.
  unfold occurrence_case, touched.
  destruct o as [[| | | |o]| | |];
    try (cbn [stamp List.length mret Eff_ret]; now rewrite Nat.add_0_r).
  destruct (o =? "upcoming").
  { unfold assign_now. cbn [stamp List.length]. do 2 f_equal. lia. }
  destruct (o =? "past").
  { unfold assign_now. cbn [stamp List.length]. do 2 f_equal. lia. }
  destruct (o =? "inProgress").
  - unfold mbind, Eff_bind, assign_now. cbn [stamp List.length].
    do 2 f_equal. lia.
  - cbn [stamp List.length mret Eff_ret]. now rewrite Nat.add_0_r.
Qed.

(** The loop over the occurrences never fails: it assigns the properties of
    the occurrences in order, reading the clock once for each. *)
Lemma forEach_occurrence_stamp (occurrence : list PredValue)
    (pf : GetEventsParams) (clock : nat) :
  forEach_occurrence occurrence pf clock
  = Resolved (stamp clock (flat_map touched occurrence) pf,
              clock + List.length (flat_map touched occurrence)).
Proof.
  revert pf clock. induction occurrence as [|o rest IH]; intros pf clock.
  - cbn [forEach_occurrence flat_map stamp List.length mret Eff_ret].
    now rewrite Nat.add_0_r.
  - cbn [forEach_occurrence flat_map]. unfold mbind, Eff_bind.
    rewrite occurrence_case_stamp, IH, stamp_app, length_app.
    do 2 f_equal. lia.
Qed.

Lemma stamp_outside (clock : nat) (fields : list string)
    (pf : GetEventsParams) (field : string) :
  ~ In field fields -> stamp clock fields pf !! field = pf !! field.
Proof.
  revert clock pf. induction fields as [|f rest IH]; intros clock pf Hout;
    [reflexivity |].
  cbn [stamp]. rewrite IH by (intros Hin; apply Hout; now right).
  apply lookup_insert_ne. intros ->. apply Hout. now left.
Qed.

Lemma stamp_last (clock : nat) (pre post : list string) (field : string)
    (pf : GetEventsParams) :
  ~ In field post ->
  stamp clock (pre ++ field :: post) pf !! field
  = Some (P (Str (now_toISOString (clock + List.length pre)))).
Proof.
  intros Hout. rewrite stamp_app. cbn [stamp].
  rewrite stamp_outside by exact Hout. apply lookup_insert_eq.
Qed.

(** X17. The occurrences never make [processFilters] fail, and they are the
    only readers of the clock: it is read once for every property an
    occurrence assigns, in the order of the occurrences ("inProgress" reads
    it twice), and a property assigned more than once keeps the reading of
    its last assignment. *)
Theorem processFilters_clock (filters : list IFilter) (requestOptions : JsVal)
    (clock clock' : nat) (result : GetEventsParams) :
  processFilters filters requestOptions clock = Resolved (result, clock') ->
  let assigned := flat_map touched (getPredicateValuesByKey filters "occurrence") in
  clock' = clock + List.length assigned
  /\ (forall pre field post,
        assigned = pre ++ field :: post -> ~ In field post ->
        result !! field
        = Some (P (Str (now_toISOString (clock + List.length pre))))).
Proof.
  intros Hrun assigned.
  apply processFilters_phases in Hrun as (pf1 & pf2 & pf3 & _ & _ & _ & Eo).
  rewrite forEach_occurrence_stamp in Eo. injection Eo as <- <-.
  split; [reflexivity |].
  intros pre field post Hsplit Hout. fold assigned. rewrite Hsplit.
  now apply stamp_last.
Qed.

End Occurrences.

Section Dates.
Context `{EventsServices}.

Lemma assign_range_individual (filters : list IFilter)
    (rangeKey beforeKey afterKey beforeField afterField : string)
    (pf pf' : GetEventsParams) (clock clock' : nat) :
  beforeField <> afterField ->
  pf !! beforeField = None -> pf !! afterField = None ->
  getPredicateValuesByKey filters rangeKey = [] ->
  assign_range filters rangeKey beforeKey afterKey beforeField afterField pf clock
    = Resolved (pf', clock') ->
  individual_date (getPredicateValuesByKey filters beforeKey) pf' beforeField
  /\ individual_date (getPredicateValuesByKey filters afterKey) pf' afterField.
Proof.
  intros Hne Hb Ha Hrange. unfold assign_range, individual_date.
  rewrite Hrange. unfold mbind, Eff_bind.
  destruct (getPredicateValuesByKey filters beforeKey) as [|b bs].
  - cbn [mret Eff_ret].
    destruct (getPredicateValuesByKey filters afterKey) as [|a as_].
    + intros [= <- <-]. now split.
    + intros Hrun. apply assign_date_run in Hrun as (iso & Hiso & -> & _).
      split; [now rewrite lookup_insert_ne by congruence |].
      exists iso. split; [exact Hiso | apply lookup_insert_eq].
  - destruct (assign_date beforeField b pf clock) as [[pfb cb]|] eqn:Eb;
      [|discriminate].
    apply assign_date_run in Eb as (iso & Hiso & -> & ->).
    destruct (getPredicateValuesByKey filters afterKey) as [|a as_].
    + intros [= <- <-].
      split; [|now rewrite lookup_insert_ne by congruence].
      exists iso. split; [exact Hiso | apply lookup_insert_eq].
    + intros Hrun. apply assign_date_run in Hrun as (iso' & Hiso' & -> & _).
      split.
      * exists iso. split; [exact Hiso |].
        rewrite lookup_insert_ne by congruence. apply lookup_insert_eq.
      * exists iso'. split; [exact Hiso' | apply lookup_insert_eq].
Qed.

Lemma individual_date_same (values : list PredValue)
    (result result' : GetEventsParams) (field : string) :
  result' !! field = result !! field ->
  individual_date values result field -> individual_date values result' field.
Proof. unfold individual_date. intros ->. auto. Qed.

(** X18. Without a startDateRange, [startDateTimeBefore] is the ISO string of
    the first startDateBefore value and [startDateTimeAfter] that of the
    first startDateAfter value, whatever the value (no test of truthiness
    is made), and each stays unset when there is no value, unless an
    occurrence assigns the property afterwards; the same for the end
    dates. *)
Theorem processFilters_individual_dates (filters : list IFilter)
    (requestOptions : JsVal) (clock clock' : nat) (result : GetEventsParams) :
  processFilters filters requestOptions clock = Resolved (result, clock') ->
  let occurrence := getPredicateValuesByKey filters "occurrence" in
  (getPredicateValuesByKey filters "startDateRange" = [] ->
   (~ In (P (Str "inProgress")) occurrence ->
    individual_date (getPredicateValuesByKey filters "startDateBefore")
      result "startDateTimeBefore")
   /\ (~ In (P (Str "upcoming")) occurrence ->
       individual_date (getPredicateValuesByKey filters "startDateAfter")
         result "startDateTimeAfter"))
  /\ (getPredicateValuesByKey filters "endDateRange" = [] ->
      (~ In (P (Str "past")) occurrence ->
       individual_date (getPredicateValuesByKey filters "endDateBefore")
         result "endDateTimeBefore")
      /\ (~ In (P (Str "inProgress")) occurrence ->
          individual_date (getPredicateValuesByKey filters "endDateAfter")
            result "endDateTimeAfter")).
Proof.
  intros Hrun occurrence.
  apply processFilters_phases in Hrun as (pf1 & pf2 & pf3 & W1 & E2 & E3 & Eo).
  set (status := P (Str _)) in E2.
  split; intros Hrange.
  - assert (Hne : "startDateTimeBefore" <> "startDateTimeAfter") by discriminate.
    assert (Hb0 : <["status" := status]> pf1 !! "startDateTimeBefore" = None)
      by (apply (plain_no_date filters); [exact W1 | simpl; auto]).
    assert (Ha0 : <["status" := status]> pf1 !! "startDateTimeAfter" = None)
      by (apply (plain_no_date filters); [exact W1 | simpl; auto]).
    destruct (assign_range_individual filters _ _ _ _ _ _ _ _ _
                Hne Hb0 Ha0 Hrange E2) as [Hb Ha].
    apply (assign_range_writes filters
             (fun f => In f ["endDateTimeBefore"; "endDateTimeAfter"]))
      in E3 as [W3 _]; [| simpl; auto | simpl; auto].
    split; intros Hocc.
    + apply (individual_date_same _ pf2); [|exact Hb].
      rewrite (forEach_occurrence_keeps _ _ _ _ _ "startDateTimeBefore" Eo Hocc).
      apply (writes_outside _ _ _ _ W3). simpl. intuition discriminate.
    + apply (individual_date_same _ pf2); [|exact Ha].
      rewrite (forEach_occurrence_keeps _ _ _ _ _ "startDateTimeAfter" Eo Hocc).
      apply (writes_outside _ _ _ _ W3). simpl. intuition discriminate.
  - apply (assign_range_writes filters
             (fun f => In f ["startDateTimeBefore"; "startDateTimeAfter"]))
      in E2 as [W2 _]; [| simpl; auto | simpl; auto].
    assert (Hb0 : pf2 !! "endDateTimeBefore" = None).
    { rewrite (writes_outside _ _ _ _ W2).
      - apply (plain_no_date filters pf1 status _ W1). simpl; auto.
      - simpl. intuition discriminate. }
    assert (Ha0 : pf2 !! "endDateTimeAfter" = None).
    { rewrite (writes_outside _ _ _ _ W2).
      - apply (plain_no_date filters pf1 status _ W1). simpl; auto.
      - simpl. intuition discriminate. }
    assert (Hne : "endDateTimeBefore" <> "endDateTimeAfter") by discriminate.
    destruct (assign_range_individual filters _ _ _ _ _ _ _ _ _
                Hne Hb0 Ha0 Hrange E3) as [Hb Ha].
    split; intros Hocc.
    + apply (individual_date_same _ pf3); [|exact Hb].
      exact (forEach_occurrence_keeps _ _ _ _ _ "endDateTimeBefore" Eo Hocc).
    + apply (individual_date_same _ pf3); [|exact Ha].
      exact (forEach_occurrence_keeps _ _ _ _ _ "endDateTimeAfter" Eo Hocc).
Qed.

End Dates.

Section Outcome.
Context `{EventsServices}.
Variable filters : list IFilter.

Lemma assign_date_outcome (field : string) (value : PredValue)
    (pf : GetEventsParams) (clock : nat) :
  if valid_date value
  then exists pf', assign_date field value pf clock = Resolved (pf', clock)
  else assign_date field value pf clock = Rejected RangeError.
Proof.
  unfold valid_date, assign_date.
  destruct (date_toISOString value) as [iso|]; [|reflexivity].
  now exists (<[field := P (Str iso)]> pf).
Qed.

Lemma assign_first_date_outcome (field : string) (values : list PredValue)
    (pf : GetEventsParams) (clock : nat) :
  let step := match values with
              | value0 :: _ => assign_date field value0 pf
              | [] => mret pf
              end in
  if valid_first values
  then exists pf', step clock = Resolved (pf', clock)
  else step clock = Rejected RangeError.
Proof.
  destruct values as [|value0 rest]; cbn [valid_first].
  - now exists pf.
  - apply assign_date_outcome.
Qed.

Lemma assign_guarded_date_outcome (field : string) (value : Prim)
    (pf : GetEventsParams) (clock : nat) :
  let step := if prim_truthy value then assign_date field (P value) pf
              else mret pf in
  if negb (prim_truthy value) || valid_date (P value)
  then exists pf', step clock = Resolved (pf', clock)
  else step clock = Rejected RangeError.
Proof.
  destruct (prim_truthy value); cbn [negb orb].
  - apply assign_date_outcome.
  - now exists pf.
Qed.

(** A block of dates fails exactly when its range is null or undefined, with
    a [TypeError], or when a date that it converts is invalid, with a
    [RangeError]; it never reads the clock. *)
Lemma assign_range_outcome
    (rangeKey beforeKey afterKey beforeField afterField : string)
    (pf : GetEventsParams) (clock : nat) :
  let run := assign_range filters rangeKey beforeKey afterKey beforeField
               afterField pf clock in
  if valid_range filters rangeKey beforeKey afterKey
  then exists pf', run = Resolved (pf', clock)
  else (run = Rejected TypeError
        /\ exists range rest,
             getPredicateValuesByKey filters rangeKey = range :: rest
             /\ range_to range = None)
       \/ run = Rejected RangeError.
Proof.
  unfold valid_range, assign_range. unfold mbind, Eff_bind.
  destruct (getPredicateValuesByKey filters rangeKey) as [|range rest].
  - pose proof (assign_first_date_outcome beforeField
                  (getPredicateValuesByKey filters beforeKey) pf clock) as Hb.
    cbv zeta in Hb.
    destruct (valid_first (getPredicateValuesByKey filters beforeKey)).
    + destruct Hb as [pfb ->].
      pose proof (assign_first_date_outcome afterField
                    (getPredicateValuesByKey filters afterKey) pfb clock) as Ha.
      cbv zeta in Ha.
      destruct (valid_first (getPredicateValuesByKey filters afterKey));
        cbn [andb]; [exact Ha | right; exact Ha].
    + cbn [andb]. right. now rewrite Hb.
  - destruct (range_to range) as [to|] eqn:Hto.
    2:{ left. split; [reflexivity |]. now exists range, rest. }
    assert (Hfrom : exists from, range_from range = Some from).
    { destruct range as [[]| | |]; try discriminate; cbn [range_from]; eauto. }
    destruct Hfrom as [from ->].
    pose proof (assign_guarded_date_outcome beforeField to pf clock) as Hb.
    cbv zeta in Hb.
    destruct (negb (prim_truthy to) || valid_date (P to)).
    + destruct Hb as [pfb ->].
      pose proof (assign_guarded_date_outcome afterField from pfb clock) as Ha.
      cbv zeta in Ha.
      destruct (negb (prim_truthy from) || valid_date (P from));
        cbn [andb]; [exact Ha | right; exact Ha].
    + cbn [andb]. right. now rewrite Hb.
Qed.

Lemma assign_notGroups_outcome (requestOptions : JsVal) (pf : GetEventsParams)
    (clock : nat) :
  let run := assign_notGroups filters requestOptions pf clock in
  if groups_found filters requestOptions
  then exists pf', run = Resolved (pf', clock)
  else exists g rest,
         getPredicateValuesByKey filters "notGroup" = g :: rest
         /\ ((exists reason,
                searchGroups ("id:(" +:+ join_values " OR " (g :: rest) +:+ ")")
                  (List.length (g :: rest)) requestOptions = Rejected reason
                /\ run = Rejected (ServiceError reason))
             \/ (exists results group,
                   searchGroups
                     ("id:(" +:+ join_values " OR " (g :: rest) +:+ ")")
                     (List.length (g :: rest)) requestOptions = Resolved results
                   /\ In group results /\ isUpdateGroup group = None
                   /\ run = Rejected TypeError)).
Proof.
  unfold groups_found, assign_notGroups. cbv zeta.
  destruct (getPredicateValuesByKey filters "notGroup") as [|g rest].
  - eexists. reflexivity.
  - destruct (searchGroups _ _ requestOptions) as [results|reason] eqn:Hs.
    + rewrite reduce_groups.
      destruct (forallb testable results) eqn:Htest.
      * eexists. reflexivity.
      * exists g, rest. split; [reflexivity |]. right.
        assert (Hnot : ~ forallb testable results = true) by congruence.
        rewrite forallb_forall in Hnot.
        assert (Hgroup : exists group,
                   In group results /\ isUpdateGroup group = None).
        { clear -Hnot. induction results as [|group results IH].
          - exfalso. apply Hnot. intros group [].
          - destruct (isUpdateGroup group) as [b|] eqn:Eb.
            + destruct IH as (group' & Hin & Hnone).
              * intros Hall. apply Hnot. intros group' [<-|Hin].
                -- unfold testable. now rewrite Eb.
                -- now apply Hall.
              * exists group'. split; [now right | exact Hnone].
            + exists group. split; [now left | exact Eb]. }
        destruct Hgroup as (group & Hin & Hnone).
        exists results, group. repeat split; assumption.
    + exists g, rest. split; [reflexivity |]. left. now exists reason.
Qed.

(** The outcomes of [processFilters], by the first step that fails. *)
Lemma processFilters_outcome (requestOptions : JsVal) (clock : nat) :
  let run := processFilters filters requestOptions clock in
  if valid_canEdit filters then
    if groups_found filters requestOptions then
      if valid_range filters "startDateRange" "startDateBefore" "startDateAfter"
      then
        if valid_range filters "endDateRange" "endDateBefore" "endDateAfter"
        then exists result clock', run = Resolved (result, clock')
        else (run = Rejected TypeError
              /\ exists range rest,
                   getPredicateValuesByKey filters "endDateRange" = range :: rest
                   /\ range_to range = None)
             \/ run = Rejected RangeError
      else (run = Rejected TypeError
            /\ exists range rest,
                 getPredicateValuesByKey filters "startDateRange" = range :: rest
                 /\ range_to range = None)
           \/ run = Rejected RangeError
    else exists g rest,
           getPredicateValuesByKey filters "notGroup" = g :: rest
           /\ ((exists reason,
                  searchGroups
                    ("id:(" +:+ join_values " OR " (g :: rest) +:+ ")")
                    (List.length (g :: rest)) requestOptions = Rejected reason
                  /\ run = Rejected (ServiceError reason))
               \/ (exists results group,
                     searchGroups
                       ("id:(" +:+ join_values " OR " (g :: rest) +:+ ")")
                       (List.length (g :: rest)) requestOptions
                     = Resolved results
                     /\ In group results /\ isUpdateGroup group = None
                     /\ run = Rejected TypeError))
  else run = Rejected TypeError.
Proof.
  unfold processFilters, valid_canEdit. cbv zeta. unfold mbind, Eff_bind.
  set (pf0 := assign_if_length "access" _ ∅). clearbody pf0.
  match goal with
  | |- context [match ?m clock with Resolved _ => _ | Rejected _ => _ end] =>
      assert (Ha : if match getPredicateValuesByKey filters "canEdit" with
                      | canEdit0 :: _ =>
                          match method_toString canEdit0 with
                          | Some _ => true
                          | None => false
                          end
                      | [] => true
                      end
                   then exists pfa, m clock = Resolved (pfa, clock)
                   else m clock = Rejected TypeError)
  end.
  { destruct (getPredicateValuesByKey filters "canEdit") as [|v rest].
    - now exists pf0.
    - destruct (method_toString v); [eexists|]; reflexivity. }
  destruct (match getPredicateValuesByKey filters "canEdit" with
            | [] => true
            | _ => _
            end).
  2:{ now rewrite Ha. }
  destruct Ha as [pfa ->].
  match goal with
  | |- context [assign_notGroups _ _ ?pf _] => set (pfb := pf); clearbody pfb
  end.
  pose proof (assign_notGroups_outcome requestOptions pfb clock) as Hc.
  cbv zeta in Hc.
  destruct (groups_found filters requestOptions).
  2:{ destruct Hc as (g & rest & Hg & [(reason & Hs & ->)
                                      | (results & group & Hs & Hin & Hn & ->)]).
      - exists g, rest. split; [exact Hg |]. left. now exists reason.
      - exists g, rest. split; [exact Hg |]. right.
        exists results, group. repeat split; assumption. }
  destruct Hc as [pfc ->].
  set (pf1 := <["status" := _]> _). clearbody pf1.
  pose proof (assign_range_outcome "startDateRange" "startDateBefore"
                "startDateAfter" "startDateTimeBefore" "startDateTimeAfter"
                pf1 clock) as H2.
  cbv zeta in H2.
  destruct (valid_range filters "startDateRange" _ _).
  2:{ destruct H2 as [[-> Hnull] | ->]; [left; now split | now right]. }
  destruct H2 as [pf2 ->].
  pose proof (assign_range_outcome "endDateRange" "endDateBefore"
                "endDateAfter" "endDateTimeBefore" "endDateTimeAfter"
                pf2 clock) as H3.
  cbv zeta in H3.
  destruct (valid_range filters "endDateRange" _ _).
  2:{ destruct H3 as [[-> Hnull] | ->]; [left; now split | now right]. }
  destruct H3 as [pf3 ->].
  rewrite forEach_occurrence_stamp. eexists _, _. reflexivity.
Qed.

(** X19. [processFilters] resolves exactly when [canEdit[0]] is neither null
    nor undefined, the search of the notGroup groups (made only when there
    are notGroup values) resolves and [isUpdateGroup] returns on every
    group it finds, no date range is null or undefined, and
    every date that is converted is valid: the truthy ends of a range, or
    without a range the first Before and After values. The clock plays no
    part in it. *)
Theorem processFilters_resolves_iff (requestOptions : JsVal) (clock : nat) :
  (exists result clock',
      processFilters filters requestOptions clock = Resolved (result, clock'))
  <-> resolvable filters requestOptions = true.
Proof.
  pose proof (processFilters_outcome requestOptions clock) as Hout.
  cbv zeta in Hout. unfold resolvable.
  destruct (valid_canEdit filters).
  2:{ split; [|discriminate]. intros (result & clock' & E). congruence. }
  destruct (groups_found filters requestOptions).
  2:{ split; [|discriminate]. intros (result & clock' & E).
      destruct Hout as (g & rest & _ & [(reason & _ & E')
                                       | (results & group & _ & _ & _ & E')]);
        congruence. }
  destruct (valid_range filters "startDateRange" _ _).
  2:{ split; [|discriminate]. intros (result & clock' & E).
      destruct Hout as [[E' _] | E']; congruence. }
  destruct (valid_range filters "endDateRange" _ _).
  2:{ split; [|discriminate]. intros (result & clock' & E).
      destruct Hout as [[E' _] | E']; congruence. }
  split; [reflexivity | intros _; exact Hout].
Qed.


End Outcome.

(** ** The simple properties *)

Section Chain.
Context `{EventsServices}.
Variable filters : list IFilter.

Lemma lookup_assign_first (field : string) (values : list PredValue)
    (pf : GetEventsParams) :
  pf !! field = None -> assign_first field values pf !! field = head values.
Proof.
  intros Hnone. destruct values as [|value0 rest]; [exact Hnone |].
  apply lookup_insert_eq.
Qed.

Lemma lookup_assign_first_ne (field k : string) (values : list PredValue)
    (pf : GetEventsParams) :
  field <> k -> assign_first field values pf !! k = pf !! k.
Proof.
  intros Hne. destruct values as [|value0 rest]; [reflexivity |].
  now apply lookup_insert_ne.
Qed.

Lemma lookup_assign_optional_ne (field k : string) (value : option PredValue)
    (pf : GetEventsParams) :
  field <> k -> assign_optional field value pf !! k = pf !! k.
Proof.
  intros Hne. destruct value as [v|]; [|reflexivity].
  now apply lookup_insert_ne.
Qed.

(** The assignments of [processFilters] before the dates, one by one. *)
Lemma processFilters_chain (requestOptions : JsVal) (clock clock' : nat)
    (result : GetEventsParams) :
  processFilters filters requestOptions clock = Resolved (result, clock') ->
  exists canEdit pfc,
    match getPredicateValuesByKey filters "canEdit" with
    | canEdit0 :: _ =>
        exists text,
          method_toString canEdit0 = Some text /\ canEdit = Some (P (Str text))
    | [] => canEdit = None
    end
    /\ writes (fun f => In f notGroup_fields)
         (match getOptionalPredicateStringsByKey filters "group" with
          | Some (String _ _ as groupIds) =>
              <["sharedToGroups" := P (Str groupIds)]>
          | _ =>
              fun pf =>
                assign_if_length "editGroups"
                  (getOptionalPredicateStringsByKey filters "editGroupId")
                  (assign_if_length "readGroups"
                     (getOptionalPredicateStringsByKey filters "readGroupId") pf)
          end
            (assign_if_length "tags"
               (getOptionalPredicateStringsByKey filters "tags")
            (assign_if_length "categories"
               (getOptionalPredicateStringsByKey filters "categories")
            (assign_first "orgId" (getPredicateValuesByKey filters "orgId")
            (assign_first "title" (getPredicateValuesByKey filters "term")
            (assign_if_length "eventIds"
               (getOptionalPredicateStringsByKey filters "id")
            (assign_if_length "entityTypes"
               (getOptionalPredicateStringsByKey filters "entityType")
            (assign_if_length "entityIds"
               (getOptionalPredicateStringsByKey filters "entityId")
            (assign_optional "canEdit" canEdit
            (assign_if_length "access"
               (getOptionalPredicateStringsByKey filters "access") ∅))))))))))
         pfc
    /\ writes (fun f => In f ("status" :: date_fields))
         (assign_if_length "createdByIds"
            (getOptionalPredicateStringsByKey filters "owner")
            (assign_if_length "attendanceTypes"
               (getOptionalPredicateStringsByKey filters "attendanceType") pfc))
         result.
Proof.
  unfold processFilters. cbv zeta. unfold mbind, Eff_bind.
  set (pf0 := assign_if_length "access" _ ∅).
  match goal with
  | |- match ?m clock with Resolved _ => _ | Rejected _ => _ end = _ -> _ =>
      destruct (m clock) as [[pfa0 ca]|] eqn:Ea; [|discriminate]
  end.
  assert (Ha : exists canEdit,
             match getPredicateValuesByKey filters "canEdit" with
             | canEdit0 :: _ =>
                 exists text,
                   method_toString canEdit0 = Some text
                   /\ canEdit = Some (P (Str text))
             | [] => canEdit = None
             end
             /\ pfa0 = assign_optional "canEdit" canEdit pf0 /\ ca = clock).
  { destruct (getPredicateValuesByKey filters "canEdit") as [|v rest].
    - injection Ea as <- <-. now exists None.
    - destruct (method_toString v) as [text|]; [|discriminate].
      injection Ea as <- <-. exists (Some (P (Str text))).
      split; [now exists text | now split]. }
  destruct Ha as (canEdit & HcanEdit & -> & ->). clear Ea.
  match goal with
  | |- match assign_notGroups _ _ ?pf _ with _ => _ end = _ -> _ =>
      set (pfb := pf)
  end.
  destruct (assign_notGroups filters requestOptions pfb clock)
    as [[pfc cc]|] eqn:Ec; [|discriminate].
  apply (assign_notGroups_writes filters (fun f => In f notGroup_fields)) in Ec
    as [Wc ->]; [| intros _; listed | intros _; listed].
  set (pf1 := assign_if_length "createdByIds" _ _).
  destruct (assign_range filters "startDateRange" _ _ _ _ _ clock)
    as [[pf2 c2]|] eqn:E2; [|discriminate].
  apply (assign_range_writes filters (fun f => In f ("status" :: date_fields)))
    in E2 as [W2 ->]; [| intros _; listed | intros _; listed].
  destruct (assign_range filters "endDateRange" _ _ _ _ pf2 clock)
    as [[pf3 c3]|] eqn:E3; [|discriminate].
  apply (assign_range_writes filters (fun f => In f ("status" :: date_fields)))
    in E3 as [W3 ->]; [| intros _; listed | intros _; listed].
  intros Eo. apply forEach_occurrence_writes in Eo.
  exists canEdit, pfc. split; [exact HcanEdit |]. split.
  - subst pfb pf0.
    destruct (getOptionalPredicateStringsByKey filters "group") as [[|c text]|];
      exact Wc.
  - apply (writes_trans _ _ (<["status" := P (Str match
             getOptionalPredicateStringsByKey filters "status" with
             | Some (String _ _ as status) => status
             | _ => join "," (map toLowerCase
                                [EventStatus.PLANNED; EventStatus.CANCELED])
             end)]> pf1)).
    { apply writes_insert. listed. }
    apply (writes_trans _ _ pf2); [exact W2 |].
    apply (writes_trans _ _ pf3); [exact W3 |].
    eapply writes_mono; [|exact Eo].
    intros f (o & _ & Ht). right. eapply touched_date_field, Ht.
Qed.

End Chain.

Ltac through :=
  repeat first
    [ rewrite lookup_assign_if_length_ne by discriminate
    | rewrite lookup_assign_first_ne by discriminate
    | rewrite lookup_assign_optional_ne by discriminate
    | rewrite lookup_insert_ne by discriminate ].

Ltac unset := through; apply lookup_empty.

Section Simple.
Context `{EventsServices}.

(** X21. The simple properties of the result of [processFilters]: the
    strings of access, entityId, entityType, id, categories, tags,
    attendanceType and owner go to access, entityIds, entityTypes,
    eventIds, categories, tags, attendanceTypes and createdByIds, each set
    only when the string is not empty; the first values of term and orgId
    go to title and orgId; the string of the first canEdit value goes to
    canEdit. Nothing that follows changes them. *)
Theorem processFilters_simple_fields (filters : list IFilter)
    (requestOptions : JsVal) (clock clock' : nat) (result : GetEventsParams) :
  processFilters filters requestOptions clock = Resolved (result, clock') ->
  (forall key field,
      In (key, field) string_fields ->
      result !! field
      = optional_string (getOptionalPredicateStringsByKey filters key))
  /\ result !! "title" = head (getPredicateValuesByKey filters "term")
  /\ result !! "orgId" = head (getPredicateValuesByKey filters "orgId")
  /\ match getPredicateValuesByKey filters "canEdit" with
     | canEdit0 :: _ =>
         exists text,
           method_toString canEdit0 = Some text
           /\ result !! "canEdit" = Some (P (Str text))
     | [] => result !! "canEdit" = None
     end.
Proof.
  intros Hrun.
  apply processFilters_chain in Hrun as (canEdit & pfc & HcanEdit & Wc & W).
  assert (Hlate : forall field,
            ~ In field ("status" :: date_fields) ->
            result !! field
            = assign_if_length "createdByIds"
                (getOptionalPredicateStringsByKey filters "owner")
                (assign_if_length "attendanceTypes"
                   (getOptionalPredicateStringsByKey filters "attendanceType")
                   pfc) !! field)
    by (intros field Hout; exact (writes_outside _ _ _ _ W Hout)).
  set (pfa := assign_if_length "tags" _ _) in Wc.
  assert (Hgroups : forall field,
            ~ In field (group_fields ++ notGroup_fields) ->
            pfc !! field = pfa !! field).
  { intros field Hout. rewrite (writes_outside _ _ _ _ Wc).
    - destruct (getOptionalPredicateStringsByKey filters "group")
        as [[|c text]|].
      + rewrite !lookup_assign_if_length_ne; [reflexivity | |];
          intros <-; apply Hout; listed.
      + apply lookup_insert_ne. intros <-. apply Hout. listed.
      + rewrite !lookup_assign_if_length_ne; [reflexivity | |];
          intros <-; apply Hout; listed.
    - intros Hin. apply Hout. apply in_or_app. now right. }
  assert (Hnone : forall field,
            ~ In field (first_fields ++ group_fields ++ notGroup_fields) ->
            pfc !! field = None).
  { intros field Hout. rewrite Hgroups.
    - subst pfa.
      rewrite !lookup_assign_if_length_ne, !lookup_assign_first_ne,
        !lookup_assign_if_length_ne, lookup_assign_optional_ne,
        lookup_assign_if_length_ne; [apply lookup_empty | ..];
        intros <-; apply Hout; listed.
    - intros Hin. apply Hout. apply in_or_app. now right. }
  split; [|split; [|split]].
  - intros key field Hin. simpl in Hin.
    repeat (destruct Hin as [[= <- <-]|Hin]); [ .. | destruct Hin];
      rewrite Hlate by (simpl; intuition discriminate).
    + through. rewrite Hgroups by (simpl; intuition discriminate).
      subst pfa. through. apply lookup_assign_if_length, lookup_empty.
    + through. rewrite Hgroups by (simpl; intuition discriminate).
      subst pfa. through. apply lookup_assign_if_length. unset.
    + through. rewrite Hgroups by (simpl; intuition discriminate).
      subst pfa. through. apply lookup_assign_if_length. unset.
    + through. rewrite Hgroups by (simpl; intuition discriminate).
      subst pfa. through. apply lookup_assign_if_length. unset.
    + through. rewrite Hgroups by (simpl; intuition discriminate).
      subst pfa. through. apply lookup_assign_if_length. unset.
    + through. rewrite Hgroups by (simpl; intuition discriminate).
      subst pfa. apply lookup_assign_if_length. unset.
    + through. apply lookup_assign_if_length, Hnone.
      simpl; intuition discriminate.
    + apply lookup_assign_if_length. through. apply Hnone.
      simpl; intuition discriminate.
  - rewrite Hlate by (simpl; intuition discriminate). through.
    rewrite Hgroups by (simpl; intuition discriminate).
    subst pfa. through. apply lookup_assign_first. unset.
  - rewrite Hlate by (simpl; intuition discriminate). through.
    rewrite Hgroups by (simpl; intuition discriminate).
    subst pfa. through. apply lookup_assign_first. unset.
  - assert (Hvalue : result !! "canEdit" = canEdit).
    { rewrite Hlate by (simpl; intuition discriminate). through.
      rewrite Hgroups by (simpl; intuition discriminate).
      subst pfa. through. rewrite lookup_assign_optional.
      destruct (decide ("canEdit" = "canEdit")) as [_|Hne]; [|congruence].
      destruct canEdit; [reflexivity | unset]. }
    rewrite Hvalue.
    destruct (getPredicateValuesByKey filters "canEdit") as [|v rest];
      [exact HcanEdit |].
    destruct HcanEdit as (text & Htext & ->). now exists text.
Qed.

End Simple.

(** ** The sample filters *)

Lemma sample_shared_run :
  processFilters (H := Samples.sample_events) Scenarios.sample_shared JUndefined 0
  = Resolved (Scenarios.sample_shared_result, 5).
Proof.
  vm_cast_no_check
    (@eq_refl _ (@Resolved EventsError _ (Scenarios.sample_shared_result, 5))).
Qed.


(** A group without capabilities, on which [isUpdateGroup] throws, makes
    [processFilters] reject with a [TypeError]. *)
Example sample_bare_run :
  processFilters (H := Scenarios.sample_bare) Scenarios.sample_shared
    JUndefined 0
  = Rejected TypeError
  /\ resolvable (H := Scenarios.sample_bare) Scenarios.sample_shared JUndefined
     = false.
Proof. split; vm_compute; reflexivity. Qed.

Lemma processFilters_group_precedence_witness :
  Scenarios.sample_shared_result !! "sharedToGroups" = Some (P (Str "g-1"))
  /\ Scenarios.sample_shared_result !! "readGroups" = None.
Proof.
  assert (Hgroup : getOptionalPredicateStringsByKey
                     (EventsServices := Samples.sample_events)
                     Scenarios.sample_shared "group" = Some "g-1")
    by (vm_compute; reflexivity).
  assert (Hne : "g-1" <> "") by discriminate.
  destruct (proj1 (processFilters_group_precedence (H := Samples.sample_events)
                     _ _ _ _ _ sample_shared_run) "g-1" Hgroup Hne)
    as (Hs & Hr & _).
  split; [exact Hs | exact Hr].
Defined.

Lemma processFilters_notGroup_precedence_witness :
  Scenarios.sample_shared_result !! "withoutReadGroups" = Some (P (Str "g-view"))
  /\ Scenarios.sample_shared_result !! "withoutEditGroups"
     = Some (P (Str "g-edit")).
Proof.
  assert (Hg : getPredicateValuesByKey (EventsServices := Samples.sample_events)
                 Scenarios.sample_shared "notGroup"
               = [P (Str "g-view"); P (Str "g-edit")])
    by (vm_compute; reflexivity).
  destruct (proj1 (processFilters_notGroup_precedence
                     (H := Samples.sample_events) _ _ _ _ _ sample_shared_run)
              _ _ Hg) as [(results & Hs & _ & Hr & He) _].
  injection Hs as <-. split; [exact Hr | exact He].
Defined.

Lemma processFilters_clock_witness :
  Scenarios.sample_shared_result !! "startDateTimeAfter"
  = Some (P (Str "2026-11-03T09:00:02.000Z")).
Proof.
  assert (Hassigned :
            flat_map touched
              (getPredicateValuesByKey (EventsServices := Samples.sample_events)
                 Scenarios.sample_shared "occurrence")
            = ["startDateTimeBefore"; "endDateTimeAfter"]
                ++ "startDateTimeAfter"
                     :: ["startDateTimeBefore"; "endDateTimeAfter"])
    by (vm_compute; reflexivity).
  assert (Hlast : ~ In "startDateTimeAfter"
                      ["startDateTimeBefore"; "endDateTimeAfter"])
    by (intros [E|[E|[]]]; discriminate E).
  exact (proj2 (processFilters_clock (H := Samples.sample_events)
                  _ _ _ _ _ sample_shared_run) _ _ _ Hassigned Hlast).
Defined.

Lemma processFilters_individual_dates_witness :
  individual_date (H := Samples.sample_events)
    [P (Str "2026-03-01")] Scenarios.sample_shared_result "endDateTimeBefore".
Proof.
  assert (Hrange : getPredicateValuesByKey
                     (EventsServices := Samples.sample_events)
                     Scenarios.sample_shared "endDateRange" = [])
    by (vm_compute; reflexivity).
  assert (Hocc : ~ In (P (Str "past"))
                     (getPredicateValuesByKey
                        (EventsServices := Samples.sample_events)
                        Scenarios.sample_shared "occurrence"))
    by (vm_compute; intros [E|[E|[E|[]]]]; discriminate E).
  exact (proj1 (proj2 (processFilters_individual_dates
                         (H := Samples.sample_events)
                         _ _ _ _ _ sample_shared_run) Hrange) Hocc).
Defined.


Lemma processFilters_simple_fields_witness :
  Samples.sample_result !! "orgId" = Some (P (Str "org-7")).
Proof.
  exact (proj1 (proj2 (proj2 (processFilters_simple_fields
                                (H := Samples.sample_events)
                                _ _ _ _ _ sample_filters_run)))).
Defined.

End EventsExtras.
